(** * A shallow embedding of the traffic-light FSM engine

    The engine is [StateMachine] of [src/fsm/StateMachine.ts] (the browser
    build in [public/js/main.js] has the same code), the timer behaviours
    are [RedLightState], [GreenLightState] and [YellowLightState] of
    [src/fsm/TrafficLightStates.ts], and the coordinator is
    [IntersectionController].  The controllers of a single light are
    [TrafficLightController] of [src/TrafficLightController.ts] and the
    one of the browser build.

    Modelling choices.
    - Objects live in a store: [string[]] arrays and [StateMachine]
      instances are allocated at addresses, so that aliasing of the history
      array can be stated.  Objects are never freed (allocation appends).
    - A method is a function [Heap -> Outcome A * Heap]: a thrown exception
      keeps the heap as it was at the [throw].
    - Closures ([onEnter], [onExit], [onUpdate], [guard], [action]) are
      values of abstract types, run by interpreters the engine is
      parametrised by; they may touch the whole heap, the machine included.
    - A state object's [name] and hooks are not reassigned once the
      object is registered (nothing in the repository does so), so a state
      is a value; what its hooks mutate (timers, logs) lives in the part
      of the heap outside the store.
    - [number] is a type with the operations the code uses on it,
      [Number]: a theorem stated for a [Number] holds however it is
      interpreted, and [double] interprets it by the IEEE 754 binary64
      numbers of the code, with their rounding, infinities and NaN.  The
      engine itself only passes [deltaTime] on.
    - [console.log] and the [debug] flag are left out, as no state
      depends on them. *)

From stdpp Require Import gmap strings list.
From Stdlib Require Import ZArith Lia.
From Stdlib Require Floats.

Open Scope string_scope.
Open Scope list_scope.

(** ** Exceptions and the method monad *)

(** Which lookup of a state name failed; each is one [throw] site. *)
Inductive Role :=
| SourceRole      (* addTransition: "Source state '..' does not exist" *)
| TargetRole      (* addTransition: "Target state '..' does not exist" *)
| InitialRole     (* start: "Cannot start FSM: State '..' not found" *)
| TransitionRole. (* transitionTo: "Target state '..' not found" *)

Inductive Error :=
| DuplicateStateError (name : string) (* "State '..' already exists" *)
| UnknownStateError (r : Role) (name : string)
| NotStartedError                     (* "FSM not started. Call start() first." *)
| AlreadyStartedError                 (* "FSM is already started. ..." *)
| ControllerRunningError              (* "Intersection controller is already running" *)
| TypeError                           (* property access through a dangling address *)
| Fault (msg : string).               (* anything a closure throws *)

Inductive Outcome (A : Type) :=
| Val (a : A)
| Exc (e : Error).
Arguments Val {A} a.
Arguments Exc {A} e.

Section Engine.
Context {Hook UpdateHook Guard U : Type}.

(** [interface State] *)
Record State := mkState {
  name : string;
  onEnter : option Hook;
  onExit : option Hook;
  onUpdate : option UpdateHook }.

(** [interface Transition]; the source ["*"] is the wildcard. *)
Record Transition := mkTransition {
  from : string;
  to : string;
  event : string;
  guard : option Guard;
  action : option Hook }.

(** The private fields of [class StateMachine]; [history] is the address
    of the [string[]] the field refers to. *)
Record StateMachine := mkStateMachine {
  currentState : option State;
  states : gmap string State;
  transitions : list Transition;
  history : nat }.

Record Heap := mkHeap {
  arrays : list (list string);
  machines : list StateMachine;
  user : U }.

Definition M (A : Type) : Type := Heap -> Outcome A * Heap.

Definition ret {A} (a : A) : M A := fun h => (Val a, h).
Definition throw {A} (e : Error) : M A := fun h => (Exc e, h).
Definition bind {A B} (c : M A) (k : A -> M B) : M B :=
  fun h => match c h with
           | (Val a, h') => k a h'
           | (Exc e, h') => (Exc e, h')
           end.

Notation "x <- c ;; k" := (bind c (fun x => k))
  (at level 100, c at next level, right associativity).
Notation "c ;;; k" := (bind c (fun _ => k))
  (at level 100, right associativity).

(** [try { c } catch { handler }] *)
Definition try_catch {A} (c : M A) (handler : M A) : M A :=
  fun h => match c h with
           | (Val a, h') => (Val a, h')
           | (Exc _, h') => handler h'
           end.

(** Calling an optional closure: [if (f) f()]. *)
Definition call_opt {C} (call : C -> M unit) (f : option C) : M unit :=
  match f with
  | Some c => call c
  | None => ret tt
  end.

(** *** Store accesses *)

Definition deref (this : nat) : M StateMachine :=
  fun h => match machines h !! this with
           | Some m => (Val m, h)
           | None => (Exc TypeError, h)
           end.

Definition assign (this : nat) (f : StateMachine -> StateMachine) : M unit :=
  fun h => match machines h !! this with
           | Some m => (Val tt, mkHeap (arrays h) (<[this := f m]> (machines h)) (user h))
           | None => (Exc TypeError, h)
           end.

Definition read_array (a : nat) : M (list string) :=
  fun h => match arrays h !! a with
           | Some l => (Val l, h)
           | None => (Exc TypeError, h)
           end.

(** [a.push(x)] *)
Definition push (a : nat) (x : string) : M unit :=
  fun h => match arrays h !! a with
           | Some l => (Val tt, mkHeap (<[a := l ++ [x]]> (arrays h))
                                      (machines h) (user h))
           | None => (Exc TypeError, h)
           end.

(** A fresh array holding [l]; its address is returned. *)
Definition new_array (l : list string) : M nat :=
  fun h => (Val (length (arrays h)), mkHeap (arrays h ++ [l]) (machines h) (user h)).

Definition set_currentState (s : option State) (m : StateMachine) : StateMachine :=
  mkStateMachine s (states m) (transitions m) (history m).
Definition set_states (r : gmap string State) (m : StateMachine) : StateMachine :=
  mkStateMachine (currentState m) r (transitions m) (history m).
Definition set_transitions (ts : list Transition) (m : StateMachine) : StateMachine :=
  mkStateMachine (currentState m) (states m) ts (history m).

(** *** [class StateMachine] *)

(** [new StateMachine()] *)
Definition new_StateMachine : M nat :=
  a <- new_array [] ;;
  fun h => (Val (length (machines h)),
            mkHeap (arrays h) (machines h ++ [mkStateMachine None ∅ [] a]) (user h)).

Definition addState (this : nat) (state : State) : M unit :=
  m <- deref this ;;
  if decide (is_Some (states m !! name state))
  then throw (DuplicateStateError (name state))
  else assign this (fun m => set_states (<[name state := state]> (states m)) m).

Definition has (m : StateMachine) (n : string) : bool :=
  bool_decide (is_Some (states m !! n)).

Definition addTransition (this : nat) (transition : Transition) : M unit :=
  m <- deref this ;;
  if negb (String.eqb (from transition) "*") && negb (has m (from transition))
  then throw (UnknownStateError SourceRole (from transition))
  else if negb (has m (to transition))
  then throw (UnknownStateError TargetRole (to transition))
  else assign this (fun m => set_transitions (transitions m ++ [transition]) m).

Section Closures.
Context {Num : Type}.
Variable callHook : Hook -> M unit.
Variable callUpdate : UpdateHook -> Num -> M unit.
Variable callGuard : Guard -> M bool.

Definition start (this : nat) (stateName : string) : M unit :=
  m <- deref this ;;
  match states m !! stateName with
  | None => throw (UnknownStateError InitialRole stateName)
  | Some state =>
      match currentState m with
      | Some _ => throw AlreadyStartedError
      | None =>
          assign this (set_currentState (Some state)) ;;;
          m <- deref this ;;
          push (history m) stateName ;;;
          call_opt callHook (onEnter state)
      end
  end.

(** The predicate given to [find]:
    [(t.from === currentStateName || t.from === '*') &&
     t.event === event && (!t.guard || t.guard())]. *)
Definition rule_matches (currentStateName ev : string) (t : Transition) : M bool :=
  if (String.eqb (from t) currentStateName || String.eqb (from t) "*")
     && String.eqb (event t) ev
  then match guard t with
       | None => ret true
       | Some g => callGuard g
       end
  else ret false.

(** [Array.prototype.find]: the length is read once, so the scan runs
    over the table as it was when [find] was called. *)
Fixpoint find (p : Transition -> M bool) (l : list Transition)
  : M (option Transition) :=
  match l with
  | [] => ret None
  | t :: l' => b <- p t ;; if b : bool then ret (Some t) else find p l'
  end.

Definition transitionTo (this : nat) (stateName : string) (act : option Hook)
  : M unit :=
  m <- deref this ;;
  match states m !! stateName with
  | None => throw (UnknownStateError TransitionRole stateName)
  | Some newState =>
      match currentState m with
      | Some cur => call_opt callHook (onExit cur)
      | None => ret tt
      end ;;;
      call_opt callHook act ;;;
      assign this (set_currentState (Some newState)) ;;;
      m <- deref this ;;
      push (history m) stateName ;;;
      call_opt callHook (onEnter newState)
  end.

Definition trigger (this : nat) (ev : string) : M bool :=
  m <- deref this ;;
  match currentState m with
  | None => throw NotStartedError
  | Some cur =>
      let currentStateName := name cur in
      r <- find (rule_matches currentStateName ev) (transitions m) ;;
      match r with
      | None => ret false
      | Some transition =>
          transitionTo this (to transition) (action transition) ;;;
          ret true
      end
  end.

Definition update (this : nat) (deltaTime : Num) : M unit :=
  m <- deref this ;;
  match currentState m with
  | None => throw NotStartedError
  | Some cur =>
      match onUpdate cur with
      | Some f => callUpdate f deltaTime
      | None => ret tt
      end
  end.

Definition getCurrentState (this : nat) : M string :=
  m <- deref this ;;
  match currentState m with
  | None => throw NotStartedError
  | Some cur => ret (name cur)
  end.

(** [return [...this.history]]: a new array with the same elements. *)
Definition getHistory (this : nat) : M nat :=
  m <- deref this ;;
  l <- read_array (history m) ;;
  new_array l.

Definition canTransition (this : nat) (ev : string) : M bool :=
  m <- deref this ;;
  match currentState m with
  | None => ret false
  | Some cur =>
      let currentStateName := name cur in
      r <- find (rule_matches currentStateName ev) (transitions m) ;;
      ret (bool_decide (is_Some r))
  end.
End Closures.
End Engine.

Arguments State : clear implicits.
Arguments Transition : clear implicits.
Arguments StateMachine : clear implicits.
Arguments Heap : clear implicits.
Arguments M : clear implicits.

Notation "x <- c ;; k" := (bind c (fun x => k))
  (at level 100, c at next level, right associativity).
Notation "c ;;; k" := (bind c (fun _ => k))
  (at level 100, right associativity).

(** [arr.forEach(f)] *)
Fixpoint forEach {Hook UpdateHook Guard U A}
  (f : A -> M Hook UpdateHook Guard U unit) (l : list A)
  : M Hook UpdateHook Guard U unit :=
  match l with
  | [] => ret tt
  | x :: l' => f x ;;; forEach f l'
  end.

(** ** Numbers

    What the code does with a [number]: it writes integer literals, adds,
    subtracts, compares with [>=] and [>], and takes [Math.max]. *)

Class Number := {
  num : Type;
  num_of_Z : Z -> num;
  num_add : num -> num -> num;
  num_sub : num -> num -> num;
  num_leb : num -> num -> bool;
  num_ltb : num -> num -> bool;
  num_max : num -> num -> num }.

Declare Scope num_scope.
Delimit Scope num_scope with num.
Bind Scope num_scope with num.
Notation "x + y" := (num_add x y) : num_scope.
Notation "x - y" := (num_sub x y) : num_scope.
Notation "x <=? y" := (num_leb x y) : num_scope.
Notation "x <? y" := (num_ltb x y) : num_scope.

(** The numbers of the code: IEEE 754 binary64.  An integer literal, of
    a size below 2^63 as those of the program are, is the nearest double;
    [Math.max] returns NaN if an argument is NaN and takes +0 to be above
    -0. *)
Definition double_of_Z (z : Z) : PrimFloat.float :=
  match z with
  | Z0 => PrimFloat.zero
  | Zpos p => PrimFloat.of_uint63 (Uint63.of_pos p)
  | Zneg p => PrimFloat.opp (PrimFloat.of_uint63 (Uint63.of_pos p))
  end.

Definition Math_max (x y : PrimFloat.float) : PrimFloat.float :=
  if PrimFloat.is_nan x then x
  else if PrimFloat.is_nan y then y
  else if PrimFloat.ltb x y then y
  else if PrimFloat.ltb y x then x
  else match PrimFloat.classify x with
       | FloatClass.NZero => y
       | _ => x
       end.

Definition double : Number :=
  {| num := PrimFloat.float;
     num_of_Z := double_of_Z;
     num_add := PrimFloat.add;
     num_sub := PrimFloat.sub;
     num_leb := PrimFloat.leb;
     num_ltb := PrimFloat.ltb;
     num_max := Math_max |}.

(** The integers, whose sums are exact: the doubles behave so as long as
    the timers and the ticks are whole milliseconds below 2^53. *)
Definition integer : Number :=
  {| num := Z;
     num_of_Z := fun z => z;
     num_add := Z.add;
     num_sub := Z.sub;
     num_leb := Z.leb;
     num_ltb := Z.ltb;
     num_max := Z.max |}.

(** ** The closures of the repository

    What lies outside the engine's store: the private [timer] field of
    every timer-state object (by object identity), an array shared by
    closures that record their calls (the [callOrder] of the test suite),
    the mutable fields of the [IntersectionController] and the callbacks
    handed to [setTimeout] that have not run yet. *)

Section Runtime.
Context {N : Number}.

Record World := mkWorld {
  timer : list num;
  callOrder : list string;
  pedestrianWaitingNS : bool;
  pedestrianWaitingEW : bool;
  isRunning : bool;
  timeouts : list nat }.

(** A closure either stays outside the engine ([Native]: any function of
    the world, possibly throwing), or is one of the closures of the
    repository that call into it. *)
Inductive Hook :=
| Native (f : World -> Outcome unit * World).

Inductive Guard :=
| NativeGuard (f : World -> Outcome bool * World)
| PeerIsRed (peer : nat).          (* canNSGoGreen / canEWGoGreen *)

Inductive UpdateHook :=
| NativeUpdate (f : num -> World -> Outcome unit * World)
| TimerUpdate (cell : nat) (duration : num) (fsm : nat).

Abbreviation Store := (Heap Hook UpdateHook Guard World).
Abbreviation Method := (M Hook UpdateHook Guard World).
Abbreviation LightState := (State Hook UpdateHook).
Abbreviation Rule := (Transition Hook Guard).
Abbreviation Machine := (StateMachine Hook UpdateHook Guard).

Definition lift {A} (f : World -> Outcome A * World) : Method A :=
  fun h => let (o, w) := f (user h) in (o, mkHeap (arrays h) (machines h) w).

Definition callHook (c : Hook) : Method unit :=
  match c with
  | Native f => lift f
  end.

(** [try { return peer.getCurrentState() === 'RED' } catch { return true }] *)
Definition callGuard (g : Guard) : Method bool :=
  match g with
  | NativeGuard f => lift f
  | PeerIsRed peer =>
      try_catch (s <- getCurrentState peer ;; ret (String.eqb s "RED")) (ret true)
  end.

Definition set_timer (t : list num) (w : World) : World :=
  mkWorld t (callOrder w) (pedestrianWaitingNS w) (pedestrianWaitingEW w)
          (isRunning w) (timeouts w).

Definition read_timer (cell : nat) : Method num :=
  lift (fun w => match timer w !! cell with
                 | Some t => (Val t, w)
                 | None => (Exc TypeError, w)
                 end).

Definition write_timer (cell : nat) (t : num) : Method unit :=
  lift (fun w => (Val tt, set_timer (<[cell := t]> (timer w)) w)).

(** [onUpdate] of the three light states:
    [this.timer += deltaTime;
     if (this.timer >= this.duration) this.fsm.trigger('TIMER_EXPIRED')] *)
Definition callUpdate (c : UpdateHook) (deltaTime : num) : Method unit :=
  match c with
  | NativeUpdate f => lift (f deltaTime)
  | TimerUpdate cell duration fsm =>
      t <- read_timer cell ;;
      write_timer cell (t + deltaTime) ;;;
      t <- read_timer cell ;;
      if (duration <=? t)%num
      then _ <- trigger callHook callGuard fsm "TIMER_EXPIRED" ;; ret tt
      else ret tt
  end.

(** [BaseState.onExit]: only writes to the console. *)
Definition BaseState_onExit : Hook := Native (fun w => (Val tt, w)).

(** [onEnter] of the three light states: [this.timer = 0]. *)
Definition Timer_onEnter (cell : nat) : Hook :=
  Native (fun w => (Val tt, set_timer (<[cell := num_of_Z 0]> (timer w)) w)).

(** [new XLightState(fsm)] for a light state of the given name and
    duration: the object gets a [timer] field holding 0. *)
Definition new_LightState (nm : string) (duration : num) (fsm : nat)
  : Method LightState :=
  cell <- lift (fun w => (Val (length (timer w)), set_timer (timer w ++ [num_of_Z 0]) w)) ;;
  ret (mkState nm (Some (Timer_onEnter cell)) (Some BaseState_onExit)
               (Some (TimerUpdate cell duration fsm))).

Definition new_RedLightState := new_LightState "RED" (num_of_Z 30000).
Definition new_GreenLightState := new_LightState "GREEN" (num_of_Z 25000).
Definition new_YellowLightState := new_LightState "YELLOW" (num_of_Z 5000).

Definition set_timeouts (l : list nat) (w : World) : World :=
  mkWorld (timer w) (callOrder w) (pedestrianWaitingNS w) (pedestrianWaitingEW w)
          (isRunning w) l.

(** The event loop runs the [i]-th pending [setTimeout] callback:
    [if (this.isRunning) target.trigger('TIMER_EXPIRED')]. *)
Definition run_timeout (i : nat) : Method unit :=
  fun h =>
    match timeouts (user h) !! i with
    | None => (Val tt, h)
    | Some target =>
        let h' := mkHeap (arrays h) (machines h)
                    (set_timeouts (delete i (timeouts (user h))) (user h)) in
        if isRunning (user h')
        then (_ <- trigger callHook callGuard target "TIMER_EXPIRED" ;; ret tt) h'
        else (Val tt, h')
    end.

End Runtime.

Abbreviation Store := (Heap Hook UpdateHook Guard World).
Abbreviation Method := (M Hook UpdateHook Guard World).
Abbreviation LightState := (State Hook UpdateHook).
Abbreviation Rule := (Transition Hook Guard).
Abbreviation Machine := (StateMachine Hook UpdateHook Guard).

(** ** [class IntersectionController] *)

Inductive Direction := NS | EW.

(** The engine's methods, under names the controller's own do not hide. *)
Abbreviation fsm_start := (start callHook).
Abbreviation fsm_update := (update callUpdate).
Abbreviation fsm_trigger := (trigger callHook callGuard).

Module IntersectionController.
Section Controller.
Context {N : Number}.

(** The two machine references, set once by the constructor. *)
Record t := mk { northSouth : nat; eastWest : nat }.

Definition log_only : Hook := Native (fun w => (Val tt, w)).

(** [setTimeout(() => { if (this.isRunning) peer.trigger('TIMER_EXPIRED') }, 1000)] *)
Definition schedule (peer : nat) : Hook :=
  Native (fun w => (Val tt, set_timeouts (timeouts w ++ [peer]) w)).

Definition canNSGoGreen (this : t) : Guard := PeerIsRed (eastWest this).
Definition canEWGoGreen (this : t) : Guard := PeerIsRed (northSouth this).

Definition nsTransitions (this : t) : list Rule :=
  [ mkTransition "RED" "GREEN" "TIMER_EXPIRED" (Some (canNSGoGreen this)) (Some log_only);
    mkTransition "GREEN" "YELLOW" "TIMER_EXPIRED" None (Some log_only);
    mkTransition "YELLOW" "RED" "TIMER_EXPIRED" None (Some (schedule (eastWest this)));
    mkTransition "*" "RED" "EMERGENCY_OVERRIDE" None None ].

Definition ewTransitions (this : t) : list Rule :=
  [ mkTransition "RED" "GREEN" "TIMER_EXPIRED" (Some (canEWGoGreen this)) (Some log_only);
    mkTransition "GREEN" "YELLOW" "TIMER_EXPIRED" None (Some log_only);
    mkTransition "YELLOW" "RED" "TIMER_EXPIRED" None (Some (schedule (northSouth this)));
    mkTransition "*" "RED" "EMERGENCY_OVERRIDE" None None ].

Definition setupTrafficLights (this : t) : Method unit :=
  nsRedState <- new_RedLightState (northSouth this) ;;
  nsGreenState <- new_GreenLightState (northSouth this) ;;
  nsYellowState <- new_YellowLightState (northSouth this) ;;
  addState (northSouth this) nsRedState ;;;
  addState (northSouth this) nsGreenState ;;;
  addState (northSouth this) nsYellowState ;;;
  ewRedState <- new_RedLightState (eastWest this) ;;
  ewGreenState <- new_GreenLightState (eastWest this) ;;
  ewYellowState <- new_YellowLightState (eastWest this) ;;
  addState (eastWest this) ewRedState ;;;
  addState (eastWest this) ewGreenState ;;;
  addState (eastWest this) ewYellowState ;;;
  forEach (addTransition (northSouth this)) (nsTransitions this) ;;;
  forEach (addTransition (eastWest this)) (ewTransitions this).

Definition setupCoordination : Method unit := ret tt.

Definition constructor : Method t :=
  ns <- new_StateMachine ;;
  ew <- new_StateMachine ;;
  let this := mk ns ew in
  setupTrafficLights this ;;;
  setupCoordination ;;;
  ret this.

Definition set_isRunning (b : bool) : Method unit :=
  lift (fun w => (Val tt, mkWorld (timer w) (callOrder w) (pedestrianWaitingNS w)
                             (pedestrianWaitingEW w) b (timeouts w))).

Definition set_pedestrianWaiting (d : Direction) (b : bool) : Method unit :=
  lift (fun w => (Val tt,
    match d with
    | NS => mkWorld (timer w) (callOrder w) b (pedestrianWaitingEW w)
                    (isRunning w) (timeouts w)
    | EW => mkWorld (timer w) (callOrder w) (pedestrianWaitingNS w) b
                    (isRunning w) (timeouts w)
    end)).

Definition get {A} (f : World -> A) : Method A := lift (fun w => (Val (f w), w)).

Definition start (this : t) : Method unit :=
  running <- get isRunning ;;
  if running : bool then throw ControllerRunningError
  else
    fsm_start (northSouth this) "GREEN" ;;;
    fsm_start (eastWest this) "RED" ;;;
    set_isRunning true.

Definition stop (this : t) : Method unit := set_isRunning false.

Definition handlePedestrianRequests (this : t) : Method unit :=
  waitingNS <- get pedestrianWaitingNS ;;
  (if waitingNS : bool
   then try_catch
          (nsState <- getCurrentState (northSouth this) ;;
           if String.eqb nsState "RED" then set_pedestrianWaiting NS false else ret tt)
          (ret tt)
   else ret tt) ;;;
  waitingEW <- get pedestrianWaitingEW ;;
  if waitingEW : bool
  then try_catch
         (ewState <- getCurrentState (eastWest this) ;;
          if String.eqb ewState "RED" then set_pedestrianWaiting EW false else ret tt)
         (ret tt)
  else ret tt.

Definition update (this : t) (deltaTime : num) : Method unit :=
  running <- get isRunning ;;
  if negb running then ret tt
  else
    fsm_update (northSouth this) deltaTime ;;;
    fsm_update (eastWest this) deltaTime ;;;
    handlePedestrianRequests this.

Definition pedestrianButtonPressed (this : t) (direction : Direction) : Method unit :=
  running <- get isRunning ;;
  if negb running then ret tt
  else set_pedestrianWaiting direction true.

Definition addEmergencyTransitions (this : t) : Method unit :=
  try_catch
    (addTransition (northSouth this)
       (mkTransition "*" "GREEN" "FORCE_GREEN" None (Some log_only)))
    (ret tt) ;;;
  try_catch
    (addTransition (eastWest this)
       (mkTransition "*" "GREEN" "FORCE_GREEN" None (Some log_only)))
    (ret tt).

Definition emergencyVehicle (this : t) (direction : Direction) : Method unit :=
  running <- get isRunning ;;
  if negb running then ret tt
  else
    match direction with
    | NS =>
        _ <- fsm_trigger (northSouth this) "EMERGENCY_OVERRIDE" ;;
        _ <- fsm_trigger (northSouth this) "FORCE_GREEN" ;;
        _ <- fsm_trigger (eastWest this) "EMERGENCY_OVERRIDE" ;;
        ret tt
    | EW =>
        _ <- fsm_trigger (eastWest this) "EMERGENCY_OVERRIDE" ;;
        _ <- fsm_trigger (eastWest this) "FORCE_GREEN" ;;
        _ <- fsm_trigger (northSouth this) "EMERGENCY_OVERRIDE" ;;
        ret tt
    end ;;;
    addEmergencyTransitions this.

Definition getNorthSouthState (this : t) : Method string :=
  try_catch (getCurrentState (northSouth this)) (ret "NOT_STARTED").

Definition getEastWestState (this : t) : Method string :=
  try_catch (getCurrentState (eastWest this)) (ret "NOT_STARTED").

End Controller.
End IntersectionController.

(** The empty store a program starts from. *)
Definition empty_heap {N : Number} : Store :=
  mkHeap [] [] (mkWorld [] [] false false false []).

(** ** Specification vocabulary

    The words of the specification, as predicates on the embedding. *)

Section Specification.
Context {Hook UpdateHook Guard U Num : Type}.
Variable cH : Hook -> M Hook UpdateHook Guard U unit.
Variable cU : UpdateHook -> Num -> M Hook UpdateHook Guard U unit.
Variable cG : Guard -> M Hook UpdateHook Guard U bool.

Implicit Types (h : Heap Hook UpdateHook Guard U)
               (m : StateMachine Hook UpdateHook Guard)
               (s : State Hook UpdateHook)
               (t : Transition Hook Guard).

(** The rule's source is the current state's name or the wildcard. *)
Definition source_applies (cur : string) t : Prop :=
  from t = cur \/ from t = "*".

(** The rule satisfies the three conditions; evaluating its guard, when
    it has one, takes the heap from [h] to [h']. *)
Definition accepts (cur ev : string) t h h' : Prop :=
  source_applies cur t /\ event t = ev /\
  match guard t with
  | None => h' = h
  | Some g => cG g h = (Val true, h')
  end.

(** The rule fails one of the conditions: its source or event differs
    (the guard is then not evaluated), or its guard returns false. *)
Definition rejects (cur ev : string) t h h' : Prop :=
  (~ (source_applies cur t /\ event t = ev) /\ h' = h) \/
  (source_applies cur t /\ event t = ev /\
   exists g, guard t = Some g /\ cG g h = (Val false, h')).

(** Every rule of [l] is rejected, one after the other from [h] to [h']. *)
Fixpoint all_rejected (cur ev : string) (l : list (Transition Hook Guard)) h h'
  : Prop :=
  match l with
  | [] => h' = h
  | t :: l' => exists h1, rejects cur ev t h h1 /\ all_rejected cur ev l' h1 h'
  end.

(** [r] is the first rule of the table, in insertion order, that is
    accepted; [None] when all are rejected. *)
Definition first_accepted (cur ev : string) (ts : list (Transition Hook Guard))
  (r : option (Transition Hook Guard)) h h' : Prop :=
  match r with
  | Some t => exists pre post h1,
      ts = pre ++ t :: post /\ all_rejected cur ev pre h h1 /\ accepts cur ev t h1 h'
  | None => all_rejected cur ev ts h h'
  end.

(** The heap once machine [this] has made [s] its current state and
    appended [n] to its history. *)
Definition moved (this : nat) s (n : string) h : Heap Hook UpdateHook Guard U :=
  match machines h !! this with
  | Some m =>
      match arrays h !! history m with
      | Some l => mkHeap (<[history m := l ++ [n]]> (arrays h))
                         (<[this := set_currentState (Some s) m]> (machines h))
                         (user h)
      | None => h
      end
  | None => h
  end.

(** The public operations of a machine, as a client issues them. *)
Inductive Op :=
| OpAddState (s : State Hook UpdateHook)
| OpAddTransition (t : Transition Hook Guard)
| OpStart (n : string)
| OpTrigger (ev : string)
| OpUpdate (deltaTime : Num)
| OpCanTransition (ev : string)
| OpGetCurrentState
| OpGetHistory.

Definition is_start (op : Op) : bool :=
  match op with
  | OpStart _ => true
  | _ => false
  end.

Definition discard {A} (c : M Hook UpdateHook Guard U A)
  : M Hook UpdateHook Guard U unit := _ <- c ;; ret tt.

Definition run_op (this : nat) (op : Op) : M Hook UpdateHook Guard U unit :=
  match op with
  | OpAddState s => addState this s
  | OpAddTransition t => addTransition this t
  | OpStart n => start cH this n
  | OpTrigger ev => discard (trigger cH cG this ev)
  | OpUpdate dt => update cU this dt
  | OpCanTransition ev => discard (canTransition cG this ev)
  | OpGetCurrentState => discard (getCurrentState this)
  | OpGetHistory => discard (getHistory this)
  end.

(** A client runs the operations one after the other, catching whatever
    one of them throws. *)
Fixpoint run_ops (this : nat) (ops : list Op) h : Heap Hook UpdateHook Guard U :=
  match ops with
  | [] => h
  | op :: ops' => run_ops this ops' (snd (run_op this op h))
  end.

(** The name a state is registered under is its own. *)
Definition registry_ok m : Prop :=
  forall k s, states m !! k = Some s -> name s = k.

(** The current state is the last entry of the history, and there is
    none exactly when the history is empty. *)
Definition current_is_last m (hist : list string) : Prop :=
  match currentState m with
  | None => hist = []
  | Some s => last hist = Some (name s)
  end.

Definition Inv (this : nat) h : Prop :=
  exists m hist,
    machines h !! this = Some m /\ arrays h !! history m = Some hist /\
    registry_ok m /\ current_is_last m hist.

(** Every machine of the store satisfies the property, and no two of
    them share a history array. *)
Definition all_machines_ok h : Prop :=
  (forall i m, machines h !! i = Some m ->
     exists hist, arrays h !! history m = Some hist /\
                  registry_ok m /\ current_is_last m hist) /\
  (forall i j mi mj, machines h !! i = Some mi -> machines h !! j = Some mj ->
     history mi = history mj -> i = j).

(** The same, together with the presence of the machine at [target]. *)
Definition ok_at (target : nat) h : Prop :=
  all_machines_ok h /\ is_Some (machines h !! target).

(** The same, as a client sees it through [getCurrentState] and
    [getHistory]. *)
Definition consistent (this : nat) h : Prop :=
  exists r h' l,
    getHistory this h = (Val r, h') /\ arrays h' !! r = Some l /\
    match fst (getCurrentState this h) with
    | Val n => last l = Some n
    | Exc e => e = NotStartedError /\ l = []
    end.

(** What a client can tell was visited: the name given to a [start]
    that returned, and the current state after each [trigger] that
    returned true. *)
Definition visit (this : nat) (op : Op) h : list string :=
  match op with
  | OpStart n =>
      match fst (start cH this n h) with
      | Val _ => [n]
      | Exc _ => []
      end
  | OpTrigger ev =>
      match trigger cH cG this ev h with
      | (Val true, h') =>
          match fst (getCurrentState this h') with
          | Val n => [n]
          | Exc _ => []
          end
      | _ => []
      end
  | _ => []
  end.

Fixpoint visited (this : nat) (ops : list Op) h : list string :=
  match ops with
  | [] => []
  | op :: ops' => visit this op h ++ visited this ops' (snd (run_op this op h))
  end.

(** A closure that returns normally and stays outside the engine's
    store. *)
Definition outside {A} (c : M Hook UpdateHook Guard U A) : Prop :=
  forall h, exists a u, c h = (Val a, mkHeap (arrays h) (machines h) u).

(** [c] maintains [P], whether it returns or throws. *)
Definition keeps {A} (P : Heap Hook UpdateHook Guard U -> Prop)
  (c : M Hook UpdateHook Guard U A) : Prop :=
  forall h, P h -> P (snd (c h)).

(** The history of machine [this] holds [hist]. *)
Definition history_is (this : nat) (hist : list string) h : Prop :=
  exists m, machines h !! this = Some m /\ arrays h !! history m = Some hist /\
            registry_ok m.

(** The array at [r] gets other contents (by [push], [pop], an
    assignment to an index or to [length]). *)
Definition mutate (r : nat) (l : list string) h : Heap Hook UpdateHook Guard U :=
  mkHeap (<[r := l]> (arrays h)) (machines h) (user h).

(** *** The history against the record the hooks keep

    A client can have the [onEnter] hooks keep a record of the states
    entered, as the test suite does with its [callOrder] and
    [BaseState.onEnter] does on the console.  [log] reads that record off
    what lies outside the engine, and [base] is what it held when the
    machine was made.  The closures of the machine fall in four classes:
    the [onEnter] hooks, each of which adds the name of its state to the
    record, and the other hooks, the update closures and the guards,
    which leave the record as it is; all of them may throw and may call
    the engine. *)
Section Recorded.
Variable log : U -> list string.
Variable base : list string.
Variable enters : Hook -> string -> Prop.
Variable quiet : Hook -> Prop.
Variable quietU : UpdateHook -> Prop.
Variable quietG : Guard -> Prop.

Definition state_quiet (s : State Hook UpdateHook) : Prop :=
  (forall c, onExit s = Some c -> quiet c) /\
  (forall c, onUpdate s = Some c -> quietU c).

(** A state registered under [n] has an [onEnter] that records [n]. *)
Definition state_recorded (n : string) (s : State Hook UpdateHook) : Prop :=
  (exists c, onEnter s = Some c /\ enters c n) /\ state_quiet s.

Definition rule_recorded (t : Transition Hook Guard) : Prop :=
  (forall c, action t = Some c -> quiet c) /\
  (forall c, guard t = Some c -> quietG c).

Definition machine_recorded m : Prop :=
  (forall n s, states m !! n = Some s -> state_recorded n s) /\
  (forall cur, currentState m = Some cur -> state_quiet cur) /\
  (forall t, t ∈ transitions m -> rule_recorded t).

(** The history of machine [this] is what the record has gained since
    the machine was made, followed by the names in [pending]: those the
    engine has appended and whose hook has not run yet. *)
Definition recorded (this : nat) (pending : list string) h : Prop :=
  exists m hist,
    machines h !! this = Some m /\ arrays h !! history m = Some hist /\
    machine_recorded m /\ base ++ hist = log (user h) ++ pending.

(** The states and rules a client adds are of these classes. *)
Definition op_recorded (op : Op) : Prop :=
  match op with
  | OpAddState s => state_recorded (name s) s
  | OpAddTransition t => rule_recorded t
  | _ => True
  end.

(** What is asked of the closures: an [onEnter] hook that finds its name
    pending leaves the history and the record equal, and every other
    closure keeps them equal; whether they return or throw. *)
Definition closures_recorded (this : nat) : Prop :=
  (forall c n, enters c n ->
     forall h, recorded this [n] h -> recorded this [] (snd (cH c h))) /\
  (forall c, quiet c -> keeps (recorded this []) (cH c)) /\
  (forall c dt, quietU c -> keeps (recorded this []) (cU c dt)) /\
  (forall c, quietG c -> keeps (recorded this []) (cG c)).
End Recorded.
End Specification.

Arguments Op : clear implicits.

(** The heap with the [timer] field at [cell] set to [v]. *)
Definition with_timer {N : Number} (cell : nat) (v : num) (h : Store) : Store :=
  mkHeap (arrays h) (machines h)
         (set_timer (<[cell := v]> (timer (user h))) (user h)).

(** A red light whose only rule is guarded by a closure that records each
    of its calls and refuses: the machine stays in [RED]. *)
Module StuckLight.
Section Light.
Context {N : Number}.

Definition refuse : Guard :=
  NativeGuard (fun w =>
    (Val false, mkWorld (timer w) (callOrder w ++ ["guard"])
                        (pedestrianWaitingNS w) (pedestrianWaitingEW w)
                        (isRunning w) (timeouts w))).

Definition build : Method unit :=
  fsm <- new_StateMachine ;;
  red <- new_RedLightState fsm ;;
  green <- new_GreenLightState fsm ;;
  addState fsm red ;;;
  addState fsm green ;;;
  addTransition fsm (mkTransition "RED" "GREEN" "TIMER_EXPIRED" (Some refuse) None) ;;;
  fsm_start fsm "RED".

Definition initial : Store := snd (build empty_heap).

(** The same session as a list of operations on the machine, issued
    once the two light-state objects exist. *)
Definition red : LightState :=
  mkState "RED" (Some (Timer_onEnter 0)) (Some BaseState_onExit)
          (Some (TimerUpdate 0 (num_of_Z 30000) 0)).
Definition green : LightState :=
  mkState "GREEN" (Some (Timer_onEnter 1)) (Some BaseState_onExit)
          (Some (TimerUpdate 1 (num_of_Z 25000) 0)).

Definition objects : Store :=
  mkHeap [] [] (mkWorld [num_of_Z 0; num_of_Z 0] [] false false false []).

Definition session : list (Op Hook UpdateHook Guard num) :=
  [ OpAddState red; OpAddState green;
    OpAddTransition (mkTransition "RED" "GREEN" "TIMER_EXPIRED" None None);
    OpAddTransition (mkTransition "GREEN" "RED" "TIMER_EXPIRED" (Some refuse) None);
    OpStart "RED"; OpUpdate (num_of_Z 30000); OpGetHistory; OpUpdate (num_of_Z 25000);
    OpStart "GREEN"; OpTrigger "TIMER_EXPIRED" ].

(** The heap after update ticks of the given lengths. *)
Fixpoint ticks (l : list num) (h : Store) : Store :=
  match l with
  | [] => h
  | dt :: l' => ticks l' (snd (fsm_update 0 dt h))
  end.
End Light.
End StuckLight.

(** Light states that keep a record: their [onEnter] also writes the name
    to [callOrder], as the hooks of the test suite do and as
    [BaseState.onEnter], which the light states call first, does on the
    console; with them a state of a client whose [onEnter] writes its
    name and throws. *)
Module Journal.
Section Journal.
Context {N : Number}.

Definition note (n : string) (w : World) : World :=
  mkWorld (timer w) (callOrder w ++ [n]) (pedestrianWaitingNS w)
          (pedestrianWaitingEW w) (isRunning w) (timeouts w).

(** [super.onEnter(); this.timer = 0] *)
Definition Light_onEnter (n : string) (cell : nat) : Hook :=
  Native (fun w => (Val tt, set_timer (<[cell := num_of_Z 0]> (timer w)) (note n w))).

(** [() => { callOrder.push(name); throw new Error('boom') }] *)
Definition Failing_onEnter (n : string) : Hook :=
  Native (fun w => (Exc (Fault "boom"), note n w)).

Definition red : LightState :=
  mkState "RED" (Some (Light_onEnter "RED" 0)) (Some BaseState_onExit)
          (Some (TimerUpdate 0 (num_of_Z 30000) 0)).
Definition green : LightState :=
  mkState "GREEN" (Some (Light_onEnter "GREEN" 1)) (Some BaseState_onExit)
          (Some (TimerUpdate 1 (num_of_Z 25000) 0)).
Definition broken : LightState :=
  mkState "BROKEN" (Some (Failing_onEnter "BROKEN")) (Some BaseState_onExit) None.

Definition objects : Store :=
  mkHeap [] [] (mkWorld [num_of_Z 0; num_of_Z 0] [] false false false []).

(** The states and the rules of the machine. *)
Definition setup : list (Op Hook UpdateHook Guard num) :=
  [ OpAddState red; OpAddState green; OpAddState broken;
    OpAddTransition (mkTransition "RED" "GREEN" "TIMER_EXPIRED" None None);
    OpAddTransition (mkTransition "GREEN" "BROKEN" "FAIL" None None);
    OpAddTransition (mkTransition "*" "RED" "EMERGENCY_OVERRIDE" None None) ].

Definition built : Store :=
  run_ops callHook callUpdate callGuard 0 setup (snd (new_StateMachine objects)).

(** The machine is started, moved to GREEN by its timer from within
    [update], then into the state whose [onEnter] throws, and out of it
    by the override. *)
Definition session : list (Op Hook UpdateHook Guard num) :=
  setup ++ [ OpStart "RED"; OpUpdate (num_of_Z 30000); OpTrigger "FAIL";
             OpTrigger "EMERGENCY_OVERRIDE"; OpGetHistory ].

(** The classes of its closures. *)
Definition enters (c : Hook) (n : string) : Prop :=
  (exists cell, c = Light_onEnter n cell) \/ c = Failing_onEnter n.
Definition quiet (c : Hook) : Prop := c = BaseState_onExit.
Definition quietU (c : UpdateHook) : Prop :=
  exists cell duration, c = TimerUpdate cell duration 0.
Definition quietG (c : Guard) : Prop := False.
End Journal.
End Journal.

(** ** The intersection, seen from outside

    The controller a program builds first, the calls a client and the
    event loop can make on it, and the shape all its reachable heaps have. *)

Section Intersection.
Context {N : Number}.

Definition ctl : IntersectionController.t := IntersectionController.mk 0 1.

(** The heap after [new IntersectionController()] and [start()]. *)
Definition started : Store :=
  snd (IntersectionController.start ctl
         (snd (IntersectionController.constructor empty_heap))).

Inductive Call :=
| Update (deltaTime : num)
| PedestrianButtonPressed (direction : Direction)
| EmergencyVehicle (direction : Direction)
| Timeout (i : nat)      (* the event loop runs a pending callback *)
| Stop
| Start.

Definition call (c : Call) : Method unit :=
  match c with
  | Update dt => IntersectionController.update ctl dt
  | PedestrianButtonPressed d => IntersectionController.pedestrianButtonPressed ctl d
  | EmergencyVehicle d => IntersectionController.emergencyVehicle ctl d
  | Timeout i => run_timeout i
  | Stop => IntersectionController.stop ctl
  | Start => IntersectionController.start ctl
  end.

(** The calls are made one after the other; an exception ends a call, not
    the program. *)
Fixpoint calls (l : list Call) (h : Store) : Store :=
  match l with
  | [] => h
  | c :: l' => calls l' (snd (call c h))
  end.

Definition both_green (h : Store) : Prop :=
  fst (IntersectionController.getNorthSouthState ctl h) = Val "GREEN" /\
  fst (IntersectionController.getEastWestState ctl h) = Val "GREEN".

Inductive Color := Red | Green | Yellow.

Definition color_name (c : Color) : string :=
  match c with Red => "RED" | Green => "GREEN" | Yellow => "YELLOW" end.

Definition duration_of (c : Color) : num :=
  match c with Red => num_of_Z 30000 | Green => num_of_Z 25000 | Yellow => num_of_Z 5000 end.

Definition fsm_of (a : Direction) : nat :=
  match a with NS => 0 | EW => 1 end.

Definition cell_of (a : Direction) (c : Color) : nat :=
  match a with NS => 0 | EW => 3 end +
  match c with Red => 0 | Green => 1 | Yellow => 2 end.

(** The light-state objects the constructor makes. *)
Definition light (a : Direction) (c : Color) : LightState :=
  mkState (color_name c) (Some (Timer_onEnter (cell_of a c)))
          (Some BaseState_onExit)
          (Some (TimerUpdate (cell_of a c) (duration_of c) (fsm_of a))).

Definition registry (a : Direction) : gmap string LightState :=
  <["YELLOW" := light a Yellow]>
    (<["GREEN" := light a Green]> (<["RED" := light a Red]> ∅)).

Definition force_green : Rule :=
  mkTransition "*" "GREEN" "FORCE_GREEN" None (Some IntersectionController.log_only).

(** The rules of the constructor, then those [emergencyVehicle] has added. *)
Definition base (a : Direction) : list Rule :=
  match a with
  | NS => IntersectionController.nsTransitions ctl
  | EW => IntersectionController.ewTransitions ctl
  end.

Definition table (a : Direction) (k : nat) : list Rule :=
  base a ++ repeat force_green k.

Definition machine_with (rg : gmap string LightState) (a : Direction) (c : Color)
  (k : nat) : Machine :=
  mkStateMachine (Some (light a c)) rg (table a k) (fsm_of a).

(** A heap in which the north-south light shows [cn] and the east-west
    light [ce], the registries being [rn] and [re]. *)
Definition shaped_in (rn re : gmap string LightState) (cn ce : Color) (h : Store)
  : Prop :=
  exists kn ke hn he t0 t1 t2 t3 t4 t5 co pn pe run tos,
    h = mkHeap [hn; he] [machine_with rn NS cn kn; machine_with re EW ce ke]
               (mkWorld [t0; t1; t2; t3; t4; t5] co pn pe run tos).

Definition shaped : Color -> Color -> Store -> Prop :=
  shaped_in (registry NS) (registry EW).

Definition safe (h : Store) : Prop :=
  exists cn ce, shaped cn ce h /\ ~ (cn = Green /\ ce = Green).

(** The colours of one axis and of the other. *)
Definition own (a : Direction) (cn ce : Color) : Color :=
  match a with NS => cn | EW => ce end.
Definition other (a : Direction) (cn ce : Color) : Color :=
  match a with NS => ce | EW => cn end.

(** The events the controller and the light states trigger. *)
Inductive Ev := TimerExpired | EmergencyOverride | ForceGreen.

Definition ev_name (e : Ev) : string :=
  match e with
  | TimerExpired => "TIMER_EXPIRED"
  | EmergencyOverride => "EMERGENCY_OVERRIDE"
  | ForceGreen => "FORCE_GREEN"
  end.

(** Where [TIMER_EXPIRED] takes a light, given the light of the peer. *)
Definition timer_next (c peer : Color) : Color :=
  match c with
  | Red => match peer with Red => Green | _ => Red end
  | Green => Yellow
  | Yellow => Red
  end.

Definition color_step (ev : Ev) (c peer c' : Color) : Prop :=
  match ev with
  | TimerExpired => c' = timer_next c peer
  | EmergencyOverride => c' = Red
  | ForceGreen => c' = c \/ c' = Green
  end.

(** The rule of the constructor's table that the scan selects. *)
Definition selected (a : Direction) (ev : Ev) (c peer : Color) : option Rule :=
  match ev with
  | TimerExpired =>
      match c with
      | Red => match peer with Red => base a !! 0 | _ => None end
      | Green => base a !! 1
      | Yellow => base a !! 2
      end
  | EmergencyOverride => base a !! 3
  | ForceGreen => None
  end.

Definition rule_color (t : Rule) : Color :=
  if String.eqb (to t) "GREEN" then Green
  else if String.eqb (to t) "YELLOW" then Yellow else Red.

Definition action_ok (act : option Hook) : Prop :=
  act = None \/ act = Some IntersectionController.log_only \/
  act = Some (IntersectionController.schedule 0) \/
  act = Some (IntersectionController.schedule 1).
End Intersection.

(** ** The closures of the test suite

    [StateMachine.test.ts] passes closures that push a label onto a shared
    [callOrder] array, and guards that return a constant. *)

Module Recorder.
Abbreviation Store := (Heap string string bool (list string)).
Abbreviation Method := (M string string bool (list string)).

Definition record (label : string) : Method unit :=
  fun h => (Val tt, mkHeap (arrays h) (machines h) (user h ++ [label])).

Definition cH (c : string) : Method unit := record c.
Definition cU (c : string) (deltaTime : PrimFloat.float) : Method unit := record c.
Definition cG (c : bool) : Method bool := ret c.

Definition empty : Store := mkHeap [] [] [].

(** A machine set up by the given operations on a new instance. *)
Definition setup (ops : list (Op string string bool PrimFloat.float)) : Store :=
  run_ops cH cU cG 0 ops (snd (new_StateMachine empty)).

(** 'should call lifecycle methods in correct order' *)
Definition lifecycle : Store :=
  setup [ OpAddState (mkState "A" (Some "A-enter") (Some "A-exit") None);
          OpAddState (mkState "B" (Some "B-enter") None None);
          OpAddTransition (mkTransition "A" "B" "GO" None (Some "action"));
          OpStart "A" ].

(** An exact rule whose guard fails, registered before a wildcard rule
    for the same event, itself before an unguarded exact rule. *)
Definition exact_rule : Transition string bool :=
  mkTransition "A" "B" "GO" (Some false) None.
Definition wildcard_rule : Transition string bool :=
  mkTransition "*" "SAFE" "GO" (Some true) None.
Definition late_rule : Transition string bool :=
  mkTransition "A" "B" "GO" None None.

Definition overlapping : Store :=
  setup [ OpAddState (mkState "A" None None None);
          OpAddState (mkState "B" None None None);
          OpAddState (mkState "SAFE" None None None);
          OpAddTransition exact_rule;
          OpAddTransition wildcard_rule;
          OpAddTransition late_rule;
          OpStart "A" ].

(** The table of the open question: the failing exact rule, then the
    wildcard rule, and nothing else. *)
Definition shadowed : Store :=
  setup [ OpAddState (mkState "A" None None None);
          OpAddState (mkState "B" None None None);
          OpAddState (mkState "SAFE" None None None);
          OpAddTransition exact_rule;
          OpAddTransition wildcard_rule;
          OpStart "A" ].

(** The same machine before [start]. *)
Definition unstarted : Store :=
  setup [ OpAddState (mkState "A" None None None);
          OpAddState (mkState "B" None None None);
          OpAddTransition late_rule ].

(** 'should track state history' *)
Definition walk : list (Op string string bool PrimFloat.float) :=
  [ OpAddState (mkState "A" None None None);
    OpAddState (mkState "B" None None None);
    OpAddState (mkState "C" None None None);
    OpAddTransition (mkTransition "A" "B" "NEXT" None None);
    OpAddTransition (mkTransition "B" "C" "NEXT" None None);
    OpStart "A"; OpTrigger "NEXT"; OpTrigger "OTHER"; OpTrigger "NEXT" ].
End Recorder.

(** ** Further vocabulary: what is known of one machine *)

Section MachineProperties.
Context {Hook UpdateHook Guard U : Type}.

Implicit Types (h : Heap Hook UpdateHook Guard U)
               (m : StateMachine Hook UpdateHook Guard).

(** The machine at [target] exists and satisfies [Pm]. *)
Definition machine_has (Pm : StateMachine Hook UpdateHook Guard -> Prop)
  (target : nat) h : Prop :=
  exists m, machines h !! target = Some m /\ Pm m.

(** The registry holds at least the entries of [S], and the table starts
    with the rules of [T], in their order. *)
Definition grown_from (S : gmap string (State Hook UpdateHook))
  (T : list (Transition Hook Guard)) m : Prop :=
  (forall n s, S !! n = Some s -> states m !! n = Some s) /\
  T `prefix_of` transitions m.

(** Every rule of the table refers to registered states. *)
Definition table_ok m : Prop :=
  forall t, t ∈ transitions m ->
    is_Some (states m !! to t) /\
    (from t = "*" \/ is_Some (states m !! from t)).

Definition is_started m : Prop := is_Some (currentState m).

(** A guard that leaves the heap as it found it. *)
Definition read_only {A} (c : M Hook UpdateHook Guard U A) : Prop :=
  forall h, snd (c h) = h.
End MachineProperties.


(** ** The status methods of the intersection *)

Module IntersectionStatus.
Section Status.
Context {N : Number}.

(** The object [getStatus] returns; [pedestrianWaiting] is a copy of the
    controller's field, made by the spread. *)
Record PedestrianWaiting := mkPedestrianWaiting { atNS : bool; atEW : bool }.

Record t := mk {
  ns : string;
  ew : string;
  running : bool;
  pedestrianWaiting : PedestrianWaiting;
  isSafe : bool }.

Definition getStatus (this : IntersectionController.t) : Method t :=
  nsState <- IntersectionController.getNorthSouthState this ;;
  ewState <- IntersectionController.getEastWestState this ;;
  let isSafe := negb (String.eqb nsState "GREEN" && String.eqb ewState "GREEN") in
  running <- IntersectionController.get isRunning ;;
  waitingNS <- IntersectionController.get pedestrianWaitingNS ;;
  waitingEW <- IntersectionController.get pedestrianWaitingEW ;;
  ret (mk nsState ewState running (mkPedestrianWaiting waitingNS waitingEW) isSafe).

Definition isOperational (this : IntersectionController.t) : Method bool :=
  IntersectionController.get isRunning.

End Status.
End IntersectionStatus.

Section IntersectionModel.
Context {N : Number}.

(** The controller's own fields and what the machines hold are as in [h0],
    and the controller is not running. *)
Definition stopped_as (h0 h : Store) : Prop :=
  machines h = machines h0 /\ arrays h = arrays h0 /\
  timer (user h) = timer (user h0) /\
  pedestrianWaitingNS (user h) = pedestrianWaitingNS (user h0) /\
  pedestrianWaitingEW (user h) = pedestrianWaitingEW (user h0) /\
  isRunning (user h) = false.

(** What the state of the intersection comes to: the colours of the two
    lights, the number of ['FORCE_GREEN'] rules added to each table, the
    two [pedestrianWaiting] flags and [isRunning]. *)
Record Lights := mkLights {
  nsColor : Color;
  ewColor : Color;
  nsForce : nat;
  ewForce : nat;
  waitNS : bool;
  waitEW : bool;
  running : bool }.

Definition lit_in (rn re : gmap string LightState) (s : Lights) (h : Store)
  : Prop :=
  exists hn he t0 t1 t2 t3 t4 t5 co tos,
    h = mkHeap [hn; he]
               [machine_with rn NS (nsColor s) (nsForce s);
                machine_with re EW (ewColor s) (ewForce s)]
               (mkWorld [t0; t1; t2; t3; t4; t5] co (waitNS s) (waitEW s)
                        (running s) tos).

Definition lit : Lights -> Store -> Prop := lit_in (registry NS) (registry EW).

Definition color_at (a : Direction) (s : Lights) : Color :=
  match a with NS => nsColor s | EW => ewColor s end.

Definition peer_of (a : Direction) : Direction :=
  match a with NS => EW | EW => NS end.

Definition force_at (a : Direction) (s : Lights) : nat :=
  match a with NS => nsForce s | EW => ewForce s end.

Definition wait_at (a : Direction) (s : Lights) : bool :=
  match a with NS => waitNS s | EW => waitEW s end.

Definition set_color (a : Direction) (c : Color) (s : Lights) : Lights :=
  match a with
  | NS => mkLights c (ewColor s) (nsForce s) (ewForce s) (waitNS s) (waitEW s) (running s)
  | EW => mkLights (nsColor s) c (nsForce s) (ewForce s) (waitNS s) (waitEW s) (running s)
  end.

Definition set_wait (a : Direction) (b : bool) (s : Lights) : Lights :=
  match a with
  | NS => mkLights (nsColor s) (ewColor s) (nsForce s) (ewForce s) b (waitEW s) (running s)
  | EW => mkLights (nsColor s) (ewColor s) (nsForce s) (ewForce s) (waitNS s) b (running s)
  end.

Definition set_running (b : bool) (s : Lights) : Lights :=
  mkLights (nsColor s) (ewColor s) (nsForce s) (ewForce s) (waitNS s) (waitEW s) b.

Definition is_red (c : Color) : bool :=
  match c with Red => true | _ => false end.

(** The colour ['FORCE_GREEN'] leaves a light in, by the number of rules
    for it in the table. *)
Definition granted (k : nat) (c : Color) : Color :=
  match k with 0 => c | S _ => Green end.

(** Where an event takes the light of axis [a]. *)
Definition next_color (ev : Ev) (a : Direction) (s : Lights) : Color :=
  match ev with
  | TimerExpired => timer_next (color_at a s) (color_at (peer_of a) s)
  | EmergencyOverride => Red
  | ForceGreen => granted (force_at a s) (color_at a s)
  end.

(** [handlePedestrianRequests]: a request is dropped when its light is RED. *)
Definition served (s : Lights) : Lights :=
  mkLights (nsColor s) (ewColor s) (nsForce s) (ewForce s)
           (waitNS s && negb (is_red (nsColor s)))
           (waitEW s && negb (is_red (ewColor s))) (running s).

(** [emergencyVehicle(d)] on a running controller: the axis of the
    vehicle is forced to RED and then asked for GREEN, the cross axis is
    forced to RED, and each table gets one more rule. *)
Definition after_emergency (d : Direction) (s : Lights) : Lights :=
  match d with
  | NS => mkLights (granted (nsForce s) Red) Red (S (nsForce s)) (S (ewForce s))
                   (waitNS s) (waitEW s) (running s)
  | EW => mkLights Red (granted (ewForce s) Red) (S (nsForce s)) (S (ewForce s))
                   (waitNS s) (waitEW s) (running s)
  end.

(** One machine's update tick: the light stays, or takes the step of
    ['TIMER_EXPIRED']. *)
Definition ticked (a : Direction) (s s' : Lights) : Prop :=
  s' = s \/ s' = set_color a (next_color TimerExpired a s) s.

(** What a call does to the state of the intersection. *)
Definition step (c : Call) (s s' : Lights) : Prop :=
  match c with
  | Update _ =>
      if running s
      then exists s1 s2, ticked NS s s1 /\ ticked EW s1 s2 /\ s' = served s2
      else s' = s
  | PedestrianButtonPressed d => s' = if running s then set_wait d true s else s
  | EmergencyVehicle d => s' = if running s then after_emergency d s else s
  | Timeout _ => s' = s \/ (running s = true /\ exists a, ticked a s s')
  | Stop => s' = set_running false s
  | Start => s' = s
  end.

(** The calls of [emergencyVehicle] before the first [stop]. *)
Fixpoint emergencies (l : list Call) : nat :=
  match l with
  | [] => 0
  | Stop :: _ => 0
  | EmergencyVehicle _ :: l' => S (emergencies l')
  | _ :: l' => emergencies l'
  end.
End IntersectionModel.

(** ** [class TrafficLightController]

    The controller of a single light.  Its [isRunning] field is the one of
    the world: a program holds one controller. *)

Module TrafficLightController.
Section Controller.
Context {N : Number}.

Record t := mk {
  fsm : nat;
  redState : LightState;
  greenState : LightState;
  yellowState : LightState }.

Definition transitions : list Rule :=
  [ mkTransition "RED" "GREEN" "TIMER_EXPIRED" None None;
    mkTransition "GREEN" "YELLOW" "TIMER_EXPIRED" None None;
    mkTransition "YELLOW" "RED" "TIMER_EXPIRED" None None;
    mkTransition "*" "RED" "EMERGENCY_OVERRIDE" None None;
    mkTransition "*" "GREEN" "FORCE_GREEN" None None;
    mkTransition "*" "YELLOW" "FORCE_YELLOW" None None;
    mkTransition "*" "RED" "FORCE_RED" None None ].

Definition setupStatesAndTransitions (this : t) : Method unit :=
  addState (fsm this) (redState this) ;;;
  addState (fsm this) (greenState this) ;;;
  addState (fsm this) (yellowState this) ;;;
  forEach (addTransition (fsm this)) transitions.

Definition constructor : Method t :=
  fsm <- new_StateMachine ;;
  redState <- new_RedLightState fsm ;;
  greenState <- new_GreenLightState fsm ;;
  yellowState <- new_YellowLightState fsm ;;
  let this := mk fsm redState greenState yellowState in
  setupStatesAndTransitions this ;;;
  ret this.

(** [throw new Error('Traffic light controller is already running')] *)
Definition start (this : t) : Method unit :=
  running <- IntersectionController.get isRunning ;;
  if running : bool
  then throw (Fault "Traffic light controller is already running")
  else
    fsm_start (fsm this) "RED" ;;;
    IntersectionController.set_isRunning true.

Definition stop (this : t) : Method unit :=
  IntersectionController.set_isRunning false.

Definition update (this : t) (deltaTime : num) : Method unit :=
  running <- IntersectionController.get isRunning ;;
  if negb running then ret tt
  else fsm_update (fsm this) deltaTime.

Definition emergencyOverride (this : t) : Method bool :=
  running <- IntersectionController.get isRunning ;;
  if negb running then ret false
  else fsm_trigger (fsm this) "EMERGENCY_OVERRIDE".

(** [return this.isRunning && this.fsm.trigger(event)] *)
Definition force (event : string) (this : t) : Method bool :=
  running <- IntersectionController.get isRunning ;;
  if running : bool then fsm_trigger (fsm this) event else ret false.

Definition forceGreen : t -> Method bool := force "FORCE_GREEN".
Definition forceYellow : t -> Method bool := force "FORCE_YELLOW".
Definition forceRed : t -> Method bool := force "FORCE_RED".

Definition getCurrentState (this : t) : Method string :=
  try_catch (getCurrentState (fsm this)) (ret "NOT_STARTED").

Definition getHistory (this : t) : Method nat := getHistory (fsm this).

Definition canTransition (this : t) (event : string) : Method bool :=
  canTransition callGuard (fsm this) event.

Definition isOperational (this : t) : Method bool :=
  IntersectionController.get isRunning.

End Controller.
End TrafficLightController.

Section LampModel.
Context {N : Number}.

(** The controller [new TrafficLightController()] makes in the empty
    store: machine 0, the timers of its states in the cells 0, 1 and 2. *)
Definition lamp : TrafficLightController.t :=
  TrafficLightController.mk 0 (light NS Red) (light NS Green) (light NS Yellow).

(** What the state of that program comes to: the colour shown, if the
    machine has been started, the three timers, the history and
    [isRunning]. *)
Record Lamp := mkLamp {
  lampColor : option Color;
  timerRed : num;
  timerGreen : num;
  timerYellow : num;
  lampHistory : list string;
  lampRunning : bool }.

Definition lamp_heap_in (rg : gmap string LightState) (s : Lamp) : Store :=
  mkHeap [lampHistory s]
         [mkStateMachine (option_map (light NS) (lampColor s)) rg
                         TrafficLightController.transitions 0]
         (mkWorld [timerRed s; timerGreen s; timerYellow s] [] false false
                  (lampRunning s) []).

Definition lamp_heap : Lamp -> Store := lamp_heap_in (registry NS).

Definition next_in_cycle (c : Color) : Color :=
  match c with Red => Green | Green => Yellow | Yellow => Red end.

Definition lamp_timer (c : Color) (s : Lamp) : num :=
  match c with Red => timerRed s | Green => timerGreen s | Yellow => timerYellow s end.

Definition set_lamp_timer (c : Color) (v : num) (s : Lamp) : Lamp :=
  match c with
  | Red => mkLamp (lampColor s) v (timerGreen s) (timerYellow s) (lampHistory s) (lampRunning s)
  | Green => mkLamp (lampColor s) (timerRed s) v (timerYellow s) (lampHistory s) (lampRunning s)
  | Yellow => mkLamp (lampColor s) (timerRed s) (timerGreen s) v (lampHistory s) (lampRunning s)
  end.

Definition set_lampRunning (b : bool) (s : Lamp) : Lamp :=
  mkLamp (lampColor s) (timerRed s) (timerGreen s) (timerYellow s) (lampHistory s) b.

(** The light enters [c]: the timer of [c] restarts, the history gets the
    name. *)
Definition enter (c : Color) (s : Lamp) : Lamp :=
  let s' := set_lamp_timer c (num_of_Z 0) s in
  mkLamp (Some c) (timerRed s') (timerGreen s') (timerYellow s')
         (lampHistory s ++ [color_name c]) (lampRunning s).

(** One update tick of the light showing [c]. *)
Definition tick (c : Color) (deltaTime : num) (s : Lamp) : Lamp :=
  let t := (lamp_timer c s + deltaTime)%num in
  if (duration_of c <=? t)%num
  then enter (next_in_cycle c) (set_lamp_timer c t s)
  else set_lamp_timer c t s.

(** The events of the controller's table. *)
Inductive LampEvent :=
| TIMER_EXPIRED | EMERGENCY_OVERRIDE | FORCE_GREEN | FORCE_YELLOW | FORCE_RED.

Definition event_name (e : LampEvent) : string :=
  match e with
  | TIMER_EXPIRED => "TIMER_EXPIRED"
  | EMERGENCY_OVERRIDE => "EMERGENCY_OVERRIDE"
  | FORCE_GREEN => "FORCE_GREEN"
  | FORCE_YELLOW => "FORCE_YELLOW"
  | FORCE_RED => "FORCE_RED"
  end.

Definition event_target (e : LampEvent) (c : Color) : Color :=
  match e with
  | TIMER_EXPIRED => next_in_cycle c
  | EMERGENCY_OVERRIDE => Red
  | FORCE_GREEN => Green
  | FORCE_YELLOW => Yellow
  | FORCE_RED => Red
  end.

(** The calls a client makes on the controller. *)
Inductive LampCall :=
| LampStart
| LampStop
| LampUpdate (deltaTime : num)
| LampEmergencyOverride
| LampForceGreen
| LampForceYellow
| LampForceRed.

Definition lamp_call (c : LampCall) : Method unit :=
  match c with
  | LampStart => TrafficLightController.start lamp
  | LampStop => TrafficLightController.stop lamp
  | LampUpdate dt => TrafficLightController.update lamp dt
  | LampEmergencyOverride => discard (TrafficLightController.emergencyOverride lamp)
  | LampForceGreen => discard (TrafficLightController.forceGreen lamp)
  | LampForceYellow => discard (TrafficLightController.forceYellow lamp)
  | LampForceRed => discard (TrafficLightController.forceRed lamp)
  end.

(** The calls are made one after the other; an exception ends a call, not
    the program. *)
Fixpoint lamp_calls (l : list LampCall) (h : Store) : Store :=
  match l with
  | [] => h
  | c :: l' => lamp_calls l' (snd (lamp_call c h))
  end.

(** The heap after [new TrafficLightController()]. *)
Definition lamp_made : Store :=
  snd (TrafficLightController.constructor empty_heap).

(** What a call does to the state of the single light. *)
Definition lamp_step (c : LampCall) (s : Lamp) : Lamp :=
  match c with
  | LampStart =>
      if lampRunning s then s
      else match lampColor s with
           | None => set_lampRunning true (enter Red s)
           | Some _ => s
           end
  | LampStop => set_lampRunning false s
  | LampUpdate dt =>
      match lampColor s with
      | Some c => if lampRunning s then tick c dt s else s
      | None => s
      end
  | LampEmergencyOverride | LampForceRed =>
      match lampColor s with
      | Some _ => if lampRunning s then enter Red s else s
      | None => s
      end
  | LampForceGreen =>
      match lampColor s with
      | Some _ => if lampRunning s then enter Green s else s
      | None => s
      end
  | LampForceYellow =>
      match lampColor s with
      | Some _ => if lampRunning s then enter Yellow s else s
      | None => s
      end
  end.

(** The names of [n] colours of the cycle, from [c] on. *)
Fixpoint cycle_from (c : Color) (n : nat) : list string :=
  match n with
  | 0 => []
  | S n' => color_name c :: cycle_from (next_in_cycle c) n'
  end.
End LampModel.

(** ** The browser version ([public/js/main.js])

    The page has its own copy of the engine, the same methods line by
    line, a base class [State] whose three hooks only write to the
    console, the three light states with a [getTimeRemaining] method, and
    a controller that counts cycles and can be reset. *)

(** The engine's methods, under names the controller's own do not hide. *)
Abbreviation engine_start := start.
Abbreviation engine_update := update.
Abbreviation engine_getCurrentState := getCurrentState.
Abbreviation engine_getHistory := getHistory.

Module Browser.
Section Controller.
Context {N : Number}.

(** A light-state object; its [timer] field is the cell. *)
Record LightObject := mkLightObject {
  lightName : string;
  lightCell : nat;
  lightDuration : num;
  lightFsm : nat }.

(** The closures of the page, none of which is a guard. *)
Inductive Hook :=
| StateOnExit                  (* State.onExit *)
| LightOnEnter (cell : nat)    (* super.onEnter(); this.timer = 0 *)
| OnStateChange                (* () => this.onStateChange() *)
| OnCycleComplete              (* () => this.onCycleComplete() *)
| OnEmergencyOverride          (* () => this.onEmergencyOverride() *)
| OnManualOverride.            (* () => this.onManualOverride() *)

Inductive UpdateHook :=
| LightOnUpdate (cell : nat) (duration : num) (fsm : nat).

Inductive Guard := .

(** The [timer] fields of the light-state objects, and the fields of the
    one [TrafficLightController] of the page; [lastState] is assigned
    once and never read.  A field holding an object is undefined until
    the constructor assigns it. *)
Record Page := mkPage {
  timer : list num;
  fsm : option nat;
  redState : option LightObject;
  greenState : option LightObject;
  yellowState : option LightObject;
  isRunning : bool;
  cycleCount : Z }.

Abbreviation Store := (Heap Hook UpdateHook Guard Page).
Abbreviation Method := (M Hook UpdateHook Guard Page).
Abbreviation LightState := (State Hook UpdateHook).
Abbreviation Rule := (Transition Hook Guard).
Abbreviation Machine := (StateMachine Hook UpdateHook Guard).

Definition get {A} (f : Page -> A) : Method A :=
  fun h => (Val (f (user h)), h).

(** Reading a field that holds an object, to call a method on it. *)
Definition field {A} (f : Page -> option A) : Method A :=
  fun h => match f (user h) with
           | Some a => (Val a, h)
           | None => (Exc TypeError, h)
           end.

Definition set_page (f : Page -> Page) : Method unit :=
  fun h => (Val tt, mkHeap (arrays h) (machines h) (f (user h))).

Definition set_timer (t : list num) (p : Page) : Page :=
  mkPage t (fsm p) (redState p) (greenState p) (yellowState p)
         (isRunning p) (cycleCount p).

Definition set_isRunning (b : bool) (p : Page) : Page :=
  mkPage (timer p) (fsm p) (redState p) (greenState p) (yellowState p)
         b (cycleCount p).

Definition set_cycleCount (n : Z) (p : Page) : Page :=
  mkPage (timer p) (fsm p) (redState p) (greenState p) (yellowState p)
         (isRunning p) n.

Definition set_objects (f : nat) (r g y : LightObject) (p : Page) : Page :=
  mkPage (timer p) (Some f) (Some r) (Some g) (Some y)
         (isRunning p) (cycleCount p).

Definition read_timer (cell : nat) : Method num :=
  fun h => match timer (user h) !! cell with
           | Some t => (Val t, h)
           | None => (Exc TypeError, h)
           end.

Definition write_timer (cell : nat) (t : num) : Method unit :=
  set_page (fun p => set_timer (<[cell := t]> (timer p)) p).

Definition onCycleComplete : Method unit :=
  set_page (fun p => set_cycleCount (cycleCount p + 1)%Z p).

Definition callHook (c : Hook) : Method unit :=
  match c with
  | StateOnExit => ret tt
  | LightOnEnter cell => write_timer cell (num_of_Z 0)
  | OnStateChange => ret tt
  | OnCycleComplete => onCycleComplete
  | OnEmergencyOverride => ret tt
  | OnManualOverride => ret tt
  end.

Definition callGuard (g : Guard) : Method bool :=
  match g with end.

(** [this.timer += deltaTime;
     if (this.timer >= this.duration) this.fsm.trigger('TIMER_EXPIRED')] *)
Definition callUpdate (c : UpdateHook) (deltaTime : num) : Method unit :=
  match c with
  | LightOnUpdate cell duration fsm =>
      t <- read_timer cell ;;
      write_timer cell (t + deltaTime)%num ;;;
      t <- read_timer cell ;;
      if (duration <=? t)%num
      then _ <- trigger callHook callGuard fsm "TIMER_EXPIRED" ;; ret tt
      else ret tt
  end.

(** [Math.max(0, this.duration - this.timer)] *)
Definition getTimeRemaining (o : LightObject) : Method num :=
  t <- read_timer (lightCell o) ;;
  ret (num_max (num_of_Z 0) (lightDuration o - t)%num).

(** The object as the engine sees it. *)
Definition as_state (o : LightObject) : LightState :=
  mkState (lightName o) (Some (LightOnEnter (lightCell o))) (Some StateOnExit)
          (Some (LightOnUpdate (lightCell o) (lightDuration o) (lightFsm o))).

Definition new_LightState (nm : string) (duration : num) (fsm : nat)
  : Method LightObject :=
  fun h => (Val (mkLightObject nm (length (timer (user h))) duration fsm),
            mkHeap (arrays h) (machines h)
                   (set_timer (timer (user h) ++ [num_of_Z 0]) (user h))).

Definition new_RedLightState := new_LightState "RED" (num_of_Z 30000).
Definition new_GreenLightState := new_LightState "GREEN" (num_of_Z 25000).
Definition new_YellowLightState := new_LightState "YELLOW" (num_of_Z 5000).

Definition transitions : list Rule :=
  [ mkTransition "RED" "GREEN" "TIMER_EXPIRED" None (Some OnStateChange);
    mkTransition "GREEN" "YELLOW" "TIMER_EXPIRED" None (Some OnStateChange);
    mkTransition "YELLOW" "RED" "TIMER_EXPIRED" None (Some OnCycleComplete);
    mkTransition "*" "RED" "EMERGENCY_OVERRIDE" None (Some OnEmergencyOverride);
    mkTransition "*" "GREEN" "FORCE_GREEN" None (Some OnManualOverride);
    mkTransition "*" "YELLOW" "FORCE_YELLOW" None (Some OnManualOverride);
    mkTransition "*" "RED" "FORCE_RED" None (Some OnManualOverride) ].

Definition setupStatesAndTransitions : Method unit :=
  f <- field fsm ;;
  r <- field redState ;;
  addState f (as_state r) ;;;
  g <- field greenState ;;
  addState f (as_state g) ;;;
  y <- field yellowState ;;
  addState f (as_state y) ;;;
  forEach (addTransition f) transitions.

(** The assignments to [fsm] and to the three state fields, in the
    constructor and in [reset]. *)
Definition make_objects : Method unit :=
  f <- new_StateMachine ;;
  r <- new_RedLightState f ;;
  g <- new_GreenLightState f ;;
  y <- new_YellowLightState f ;;
  set_page (set_objects f r g y).

Definition constructor : Method unit :=
  make_objects ;;;
  set_page (set_isRunning false) ;;;
  set_page (set_cycleCount 0) ;;;
  setupStatesAndTransitions.

Definition start : Method unit :=
  running <- get isRunning ;;
  if running : bool
  then throw (Fault "Traffic light controller is already running")
  else
    f <- field fsm ;;
    engine_start callHook f "RED" ;;;
    set_page (set_isRunning true).

Definition stop : Method unit := set_page (set_isRunning false).

Definition reset : Method unit :=
  stop ;;;
  set_page (set_cycleCount 0) ;;;
  make_objects ;;;
  setupStatesAndTransitions.

Definition update (deltaTime : num) : Method unit :=
  running <- get isRunning ;;
  if negb running then ret tt
  else f <- field fsm ;; engine_update callUpdate f deltaTime.

Definition emergencyOverride : Method bool :=
  running <- get isRunning ;;
  if negb running then ret false
  else f <- field fsm ;; trigger callHook callGuard f "EMERGENCY_OVERRIDE".

(** [return this.isRunning && this.fsm.trigger(event)] *)
Definition force (event : string) : Method bool :=
  running <- get isRunning ;;
  if running : bool
  then f <- field fsm ;; trigger callHook callGuard f event
  else ret false.

Definition forceGreen : Method bool := force "FORCE_GREEN".
Definition forceYellow : Method bool := force "FORCE_YELLOW".
Definition forceRed : Method bool := force "FORCE_RED".

Definition getCurrentState : Method string :=
  try_catch (f <- field fsm ;; engine_getCurrentState f) (ret "NOT_STARTED").

Definition getHistory : Method nat :=
  f <- field fsm ;; engine_getHistory f.

Definition getCurrentStateTimer : Method num :=
  try_catch
    (f <- field fsm ;;
     currentState <- engine_getCurrentState f ;;
     if String.eqb currentState "RED"
     then o <- field redState ;; getTimeRemaining o
     else if String.eqb currentState "GREEN"
     then o <- field greenState ;; getTimeRemaining o
     else if String.eqb currentState "YELLOW"
     then o <- field yellowState ;; getTimeRemaining o
     else ret (num_of_Z 0))
    (ret (num_of_Z 0)).

Definition getCycleCount : Method Z := get cycleCount.

Definition isOperational : Method bool := get isRunning.

(** The store of a page before its script runs. *)
Definition blank : Store := mkHeap [] [] (mkPage [] None None None None false 0).

End Controller.

Abbreviation Store := (Heap Hook UpdateHook Guard Page).
Abbreviation Method := (M Hook UpdateHook Guard Page).
Abbreviation LightState := (State Hook UpdateHook).
Abbreviation Rule := (Transition Hook Guard).
Abbreviation Machine := (StateMachine Hook UpdateHook Guard).
End Browser.

Section PageModel.
Context {N : Number}.

(** The light-state object of colour [c] made for machine [f], the first
    of the three timers being cell [b]. *)
Definition browser_light (f b : nat) (c : Color) : Browser.LightObject :=
  Browser.mkLightObject (color_name c)
    (b + match c with Red => 0 | Green => 1 | Yellow => 2 end)
    (duration_of c) f.

Definition browser_registry (f b : nat) : gmap string Browser.LightState :=
  <["YELLOW" := Browser.as_state (browser_light f b Yellow)]>
    (<["GREEN" := Browser.as_state (browser_light f b Green)]>
       (<["RED" := Browser.as_state (browser_light f b Red)]> ∅)).

(** What the page shows: the colour, if the machine has been started, the
    three timers, the history, [isRunning] and [cycleCount]. *)
Record Screen := mkScreen {
  scrColor : option Color;
  scrRed : num;
  scrGreen : num;
  scrYellow : num;
  scrHistory : list string;
  scrRunning : bool;
  scrCycles : Z }.

(** The store of a page whose controller shows [s]; [ga], [gm] and [gt]
    are the histories, machines and timers that earlier resets have left
    behind. *)
Definition page_in (rg : gmap string Browser.LightState)
  (ga : list (list string)) (gm : list Browser.Machine) (gt : list num)
  (s : Screen) : Browser.Store :=
  mkHeap (ga ++ [scrHistory s])
         (gm ++ [mkStateMachine
                   (option_map (fun c => Browser.as_state
                                           (browser_light (length gm) (length gt) c))
                               (scrColor s))
                   rg Browser.transitions (length ga)])
         (Browser.mkPage (gt ++ [scrRed s; scrGreen s; scrYellow s])
            (Some (length gm))
            (Some (browser_light (length gm) (length gt) Red))
            (Some (browser_light (length gm) (length gt) Green))
            (Some (browser_light (length gm) (length gt) Yellow))
            (scrRunning s) (scrCycles s)).

Definition page (ga : list (list string)) (gm : list Browser.Machine)
  (gt : list num) : Screen -> Browser.Store :=
  page_in (browser_registry (length gm) (length gt)) ga gm gt.

Definition screen_timer (c : Color) (s : Screen) : num :=
  match c with Red => scrRed s | Green => scrGreen s | Yellow => scrYellow s end.

Definition set_screen_timer (c : Color) (v : num) (s : Screen) : Screen :=
  match c with
  | Red => mkScreen (scrColor s) v (scrGreen s) (scrYellow s)
                    (scrHistory s) (scrRunning s) (scrCycles s)
  | Green => mkScreen (scrColor s) (scrRed s) v (scrYellow s)
                      (scrHistory s) (scrRunning s) (scrCycles s)
  | Yellow => mkScreen (scrColor s) (scrRed s) (scrGreen s) v
                       (scrHistory s) (scrRunning s) (scrCycles s)
  end.

Definition set_scrRunning (b : bool) (s : Screen) : Screen :=
  mkScreen (scrColor s) (scrRed s) (scrGreen s) (scrYellow s)
           (scrHistory s) b (scrCycles s).

Definition set_scrCycles (n : Z) (s : Screen) : Screen :=
  mkScreen (scrColor s) (scrRed s) (scrGreen s) (scrYellow s)
           (scrHistory s) (scrRunning s) n.

(** The light enters [c]. *)
Definition screen_enter (c : Color) (s : Screen) : Screen :=
  let s' := set_screen_timer c (num_of_Z 0) s in
  mkScreen (Some c) (scrRed s') (scrGreen s') (scrYellow s')
           (scrHistory s ++ [color_name c]) (scrRunning s) (scrCycles s).

(** A tick of the light showing [c]; the step from YELLOW to RED
    completes a cycle. *)
Definition screen_tick (c : Color) (deltaTime : num) (s : Screen) : Screen :=
  let t := (screen_timer c s + deltaTime)%num in
  let s1 := set_screen_timer c t s in
  if (duration_of c <=? t)%num
  then screen_enter (next_in_cycle c)
         match c with
         | Yellow => set_scrCycles (scrCycles s + 1)%Z s1
         | _ => s1
         end
  else s1.

(** What the action of a rule does to the screen. *)
Definition acted (act : option Browser.Hook) (s : Screen) : Screen :=
  match act with
  | Some Browser.OnCycleComplete => set_scrCycles (scrCycles s + 1)%Z s
  | _ => s
  end.

Definition is_yellow (c : Color) : bool :=
  match c with Yellow => true | _ => false end.

(** The screen of a new controller. *)
Definition screen_new : Screen :=
  mkScreen None (num_of_Z 0) (num_of_Z 0) (num_of_Z 0) [] false 0.

(** The events of the page's table are those of the single light. *)
Definition event_action (e : LampEvent) (c : Color) : option Browser.Hook :=
  match e with
  | TIMER_EXPIRED =>
      match c with
      | Yellow => Some Browser.OnCycleComplete
      | _ => Some Browser.OnStateChange
      end
  | EMERGENCY_OVERRIDE => Some Browser.OnEmergencyOverride
  | _ => Some Browser.OnManualOverride
  end.

(** The calls the page makes on its controller. *)
Inductive PageCall :=
| PageStart
| PageStop
| PageReset
| PageUpdate (deltaTime : num)
| PageEmergencyOverride
| PageForceGreen
| PageForceYellow
| PageForceRed.

Definition page_call (c : PageCall) : Browser.Method unit :=
  match c with
  | PageStart => Browser.start
  | PageStop => Browser.stop
  | PageReset => Browser.reset
  | PageUpdate dt => Browser.update dt
  | PageEmergencyOverride => discard Browser.emergencyOverride
  | PageForceGreen => discard Browser.forceGreen
  | PageForceYellow => discard Browser.forceYellow
  | PageForceRed => discard Browser.forceRed
  end.

Fixpoint page_calls (l : list PageCall) (h : Browser.Store) : Browser.Store :=
  match l with
  | [] => h
  | c :: l' => page_calls l' (snd (page_call c h))
  end.

(** The heap after [new TrafficLightController()]. *)
Definition page_made : Browser.Store := snd (Browser.constructor Browser.blank).

(** What a call does to the screen. *)
Definition screen_step (c : PageCall) (s : Screen) : Screen :=
  match c with
  | PageStart =>
      if scrRunning s then s
      else match scrColor s with
           | None => set_scrRunning true (screen_enter Red s)
           | Some _ => s
           end
  | PageStop => set_scrRunning false s
  | PageReset => screen_new
  | PageUpdate dt =>
      match scrColor s with
      | Some c => if scrRunning s then screen_tick c dt s else s
      | None => s
      end
  | PageEmergencyOverride | PageForceRed =>
      match scrColor s with
      | Some _ => if scrRunning s then screen_enter Red s else s
      | None => s
      end
  | PageForceGreen =>
      match scrColor s with
      | Some _ => if scrRunning s then screen_enter Green s else s
      | None => s
      end
  | PageForceYellow =>
      match scrColor s with
      | Some _ => if scrRunning s then screen_enter Yellow s else s
      | None => s
      end
  end.

(** The ticks of a call sequence are of no negative length. *)
Definition forward (c : PageCall) : bool :=
  match c with
  | PageUpdate dt => (num_of_Z 0 <=? dt)%num
  | _ => true
  end.

(** The colour after [r] steps from RED, for [r] below 3. *)
Definition color_after (r : nat) : Color :=
  match r with 0 => Red | 1 => Green | _ => Yellow end.

(** The running screen after [q] complete cycles and [r] steps more. *)
Definition on_cycle (q r : nat) (s : Screen) : Prop :=
  r < 3 /\ scrRunning s = true /\
  scrHistory s = cycle_from Red (S (3 * q + r)) /\
  scrColor s = Some (color_after r) /\
  scrCycles s = Z.of_nat q.
End PageModel.

(** The timer of the colour shown is within its duration, for timers that
    are whole numbers. *)
Definition in_time (s : @Screen integer) : Prop :=
  forall c, scrColor s = Some c ->
            (0 <= @screen_timer integer c s < @duration_of integer c)%Z.

(** * Properties of the engine *)

Section EngineTheory.
Context {Hook UpdateHook Guard U Num : Type}.
Variable cH : Hook -> M Hook UpdateHook Guard U unit.
Variable cU : UpdateHook -> Num -> M Hook UpdateHook Guard U unit.
Variable cG : Guard -> M Hook UpdateHook Guard U bool.

Implicit Types (h : Heap Hook UpdateHook Guard U)
               (m : StateMachine Hook UpdateHook Guard)
               (s : State Hook UpdateHook)
               (t : Transition Hook Guard)
               (P : Heap Hook UpdateHook Guard U -> Prop)
               (u : U).

Lemma deref_some this h m :
  machines h !! this = Some m -> deref this h = (Val m, h).
Proof. intros E. unfold deref. now rewrite E. Qed.

Lemma bind_deref {A} this h m (k : _ -> M Hook UpdateHook Guard U A) :
  machines h !! this = Some m -> bind (deref this) k h = k m h.
Proof. intros E. unfold bind. now rewrite (deref_some _ _ _ E). Qed.

Lemma has_false m n : has m n = false <-> states m !! n = None.
Proof.
  unfold has. rewrite bool_decide_eq_false.
  rewrite <- eq_None_not_Some. tauto.
Qed.

(** C6. [addState] with a name that is already registered throws the
    duplicate-state error and leaves the heap, hence the registry, as it
    was; [addTransition] with an unregistered target, or with a source
    that is neither the wildcard nor registered, throws the
    unknown-state error and leaves the heap, hence the table, as it was. *)
Theorem add_rejected_leaves_machine_unchanged this h m :
  machines h !! this = Some m ->
  (forall s, is_Some (states m !! name s) ->
     addState this s h = (Exc (DuplicateStateError (name s)), h)) /\
  (forall t, states m !! to t = None \/
             (from t <> "*" /\ states m !! from t = None) ->
     exists r n, addTransition this t h = (Exc (UnknownStateError r n), h)).
Proof.
  intros E. split.
  - intros s Hs. unfold addState, bind. rewrite (deref_some _ _ _ E).
    destruct (decide (is_Some (states m !! name s))); [reflexivity | contradiction].
  - intros t Ht. unfold addTransition, bind. rewrite (deref_some _ _ _ E).
    destruct (String.eqb (from t) "*") eqn:Ew; simpl.
    + destruct Ht as [Ht | [Hne _]].
      * apply has_false in Ht. rewrite Ht. simpl. eauto.
      * apply String.eqb_eq in Ew. contradiction.
    + destruct (has m (from t)) eqn:Hf; simpl.
      * destruct Ht as [Ht | [_ Ht]].
        -- apply has_false in Ht. rewrite Ht. simpl. eauto.
        -- apply has_false in Ht. congruence.
      * eauto.
Qed.

(** *** The scan of the transition table *)

Lemma rejects_run cur ev t h h1 :
  rejects cG cur ev t h h1 -> rule_matches cG cur ev t h = (Val false, h1).
Proof.
  unfold rejects, source_applies, rule_matches.
  intros [[Hn ->] | (Hs & He & g & Hg & Hr)].
  - destruct (String.eqb (from t) cur) eqn:E1; simpl.
    + apply String.eqb_eq in E1.
      destruct (String.eqb (event t) ev) eqn:E2; [|reflexivity].
      apply String.eqb_eq in E2. exfalso. apply Hn. auto.
    + destruct (String.eqb (from t) "*") eqn:E3; [|reflexivity]. simpl.
      apply String.eqb_eq in E3.
      destruct (String.eqb (event t) ev) eqn:E2; [|reflexivity].
      apply String.eqb_eq in E2. exfalso. apply Hn. auto.
  - assert ((String.eqb (from t) cur || String.eqb (from t) "*") = true) as ->.
    { destruct Hs as [Hs | Hs]; apply String.eqb_eq in Hs; rewrite Hs;
        [reflexivity | apply orb_true_r]. }
    apply String.eqb_eq in He. rewrite He. simpl. now rewrite Hg.
Qed.

Lemma accepts_run cur ev t h h1 :
  accepts cG cur ev t h h1 -> rule_matches cG cur ev t h = (Val true, h1).
Proof.
  unfold accepts, source_applies, rule_matches. intros (Hs & He & Hg).
  assert ((String.eqb (from t) cur || String.eqb (from t) "*") = true) as ->.
  { destruct Hs as [Hs | Hs]; apply String.eqb_eq in Hs; rewrite Hs;
      [reflexivity | apply orb_true_r]. }
  apply String.eqb_eq in He. rewrite He. simpl.
  destruct (guard t); [assumption | now subst].
Qed.

Lemma all_rejected_app cur ev l1 l2 h h1 h2 :
  all_rejected cG cur ev l1 h h1 -> all_rejected cG cur ev l2 h1 h2 ->
  all_rejected cG cur ev (l1 ++ l2) h h2.
Proof.
  revert h. induction l1 as [|t l1 IH]; simpl; intros h.
  - now intros ->.
  - intros (hx & Hr & Hrest) H2. exists hx. split; [assumption|].
    now apply IH.
Qed.

Lemma find_skip cur ev pre l h h1 :
  all_rejected cG cur ev pre h h1 ->
  find (rule_matches cG cur ev) (pre ++ l) h = find (rule_matches cG cur ev) l h1.
Proof.
  revert h. induction pre as [|t pre IH]; simpl; intros h.
  - now intros ->.
  - intros (h2 & Hr & Hrest). unfold bind.
    rewrite (rejects_run _ _ _ _ _ Hr). now apply IH.
Qed.

Lemma find_first_accepted cur ev ts r h h' :
  first_accepted cG cur ev ts r h h' ->
  find (rule_matches cG cur ev) ts h = (Val r, h').
Proof.
  destruct r as [t|]; simpl.
  - intros (pre & post & h1 & -> & Hpre & Hacc).
    rewrite (find_skip _ _ _ _ _ _ Hpre). simpl. unfold bind.
    now rewrite (accepts_run _ _ _ _ _ Hacc).
  - intros Hall. rewrite <- (app_nil_r ts).
    now rewrite (find_skip _ _ _ _ _ _ Hall).
Qed.

Lemma trigger_started this ev h m cur :
  machines h !! this = Some m -> currentState m = Some cur ->
  trigger cH cG this ev h =
    (r <- find (rule_matches cG (name cur) ev) (transitions m) ;;
     match r with
     | None => ret false
     | Some t => transitionTo cH this (to t) (action t) ;;; ret true
     end) h.
Proof.
  intros E Hc. unfold trigger at 1. unfold bind at 1.
  rewrite (deref_some _ _ _ E), Hc. reflexivity.
Qed.

(** C1. On a started machine, when [r] is the first rule of the table,
    in insertion order, whose source is the current state's name or the
    wildcard, whose event is the triggered one and whose guard is absent
    or returns true, [trigger] makes the transition of [r] and returns
    true; when every rule is rejected it returns false.  Only the
    position in the table decides: an exact rule and a wildcard rule
    are treated alike. *)
Theorem trigger_selects_first_match this ev h m cur r h1 :
  machines h !! this = Some m -> currentState m = Some cur ->
  first_accepted cG (name cur) ev (transitions m) r h h1 ->
  trigger cH cG this ev h =
    match r with
    | None => (Val false, h1)
    | Some t => (transitionTo cH this (to t) (action t) ;;; ret true) h1
    end.
Proof.
  intros E Hc Hf. rewrite (trigger_started _ _ _ _ _ E Hc). unfold bind at 1.
  rewrite (find_first_accepted _ _ _ _ _ _ Hf). now destruct r.
Qed.

Lemma unstarted_operations this h m ev dt :
  machines h !! this = Some m -> currentState m = None ->
  trigger cH cG this ev h = (Exc NotStartedError, h) /\
  getCurrentState this h = (Exc NotStartedError, h) /\
  update cU this dt h = (Exc NotStartedError, h) /\
  canTransition cG this ev h = (Val false, h).
Proof.
  intros E Hc.
  unfold trigger, getCurrentState, update, canTransition, bind.
  rewrite (deref_some _ _ _ E), Hc. auto.
Qed.

(** Without [start], no operation gives the machine a current state. *)
Lemma unstarted_run_op this op h m :
  machines h !! this = Some m -> currentState m = None ->
  is_start op = false ->
  exists m', machines (snd (run_op cH cU cG this op h)) !! this = Some m' /\
             currentState m' = None.
Proof.
  intros E Hc Hop.
  assert (Hg : getCurrentState this h = (Exc NotStartedError, h)).
  { unfold getCurrentState, bind. now rewrite (deref_some _ _ _ E), Hc. }
  destruct op as [s|t|n|ev|dt|ev| |]; simpl in *; try discriminate.
  - unfold addState. rewrite (bind_deref _ _ _ _ E).
    destruct (decide _); [now exists m|].
    unfold assign. rewrite E. simpl.
    eexists. split;
      [apply list_lookup_insert_eq; eapply lookup_lt_Some; eauto | exact Hc].
  - unfold addTransition. rewrite (bind_deref _ _ _ _ E).
    destruct (_ && _); [now exists m|].
    destruct (negb _); [now exists m|].
    unfold assign. rewrite E. simpl.
    eexists. split;
      [apply list_lookup_insert_eq; eapply lookup_lt_Some; eauto | exact Hc].
  - assert (Ht : trigger cH cG this ev h = (Exc NotStartedError, h)).
    { unfold trigger, bind. now rewrite (deref_some _ _ _ E), Hc. }
    unfold discard, bind. rewrite Ht. now exists m.
  - destruct (unstarted_operations this h m "" dt E Hc) as (_ & _ & Hu & _).
    rewrite Hu. now exists m.
  - assert (Hcan : canTransition cG this ev h = (Val false, h)).
    { unfold canTransition, bind. now rewrite (deref_some _ _ _ E), Hc. }
    unfold discard, bind. rewrite Hcan. now exists m.
  - unfold discard, bind. rewrite Hg. now exists m.
  - unfold discard, getHistory, bind, read_array, new_array.
    rewrite (deref_some _ _ _ E).
    destruct (arrays h !! history m); now exists m.
Qed.

(** C7. On a machine made by [new StateMachine()] on which any public
    operations but [start] have been run, [trigger], [getCurrentState]
    and [update] throw the not-started error, and [canTransition] returns
    false; none of them changes the heap. *)
Theorem not_started_operations h0 ops ev dt :
  let this := length (machines h0) in
  let h := run_ops cH cU cG this ops (snd (new_StateMachine h0)) in
  forallb (fun op => negb (is_start op)) ops = true ->
  trigger cH cG this ev h = (Exc NotStartedError, h) /\
  getCurrentState this h = (Exc NotStartedError, h) /\
  update cU this dt h = (Exc NotStartedError, h) /\
  canTransition cG this ev h = (Val false, h).
Proof.
  intros this h Hops.
  assert (Hnew : exists m, machines (snd (new_StateMachine h0)) !! this = Some m /\
                           currentState m = None).
  { unfold new_StateMachine, bind, new_array. simpl. eexists. split.
    - rewrite lookup_app_r by reflexivity. now rewrite Nat.sub_diag.
    - reflexivity. }
  assert (Hrun : exists m, machines h !! this = Some m /\ currentState m = None).
  { subst h. revert Hnew Hops. generalize (snd (new_StateMachine h0)).
    induction ops as [|op ops IH]; simpl; intros h [m [E Hc]] Hops; [eauto|].
    apply andb_true_iff in Hops as [Hop Hops]. apply negb_true_iff in Hop.
    apply IH; [|assumption]. now apply (unstarted_run_op this op h m). }
  destruct Hrun as (m & E & Hc). now apply (unstarted_operations this h m).
Qed.

Lemma assign_push this s n h m hist :
  machines h !! this = Some m -> arrays h !! history m = Some hist ->
  (assign this (set_currentState (Some s)) ;;;
   m' <- deref this ;; push (history m') n) h = (Val tt, moved this s n h).
Proof.
  intros E Ha. unfold bind, assign, deref, push, moved. rewrite E. simpl.
  rewrite list_lookup_insert_eq by (eapply lookup_lt_Some; eauto).
  simpl. now rewrite Ha.
Qed.

(** C8. [start] throws the unknown-state error when the name is not
    registered (whether or not the machine is started); for a registered
    name it throws the already-started error when there is a current
    state; otherwise it makes the named state current and appends the
    name to the history, nothing else being changed, and then calls the
    state's [onEnter] in the store so reached: the outcome of the hook,
    an exception included, and the store it leaves are those of [start].
    With no hook [start] returns there. *)
Theorem start_behaviour this n h m :
  machines h !! this = Some m ->
  (states m !! n = None ->
     start cH this n h = (Exc (UnknownStateError InitialRole n), h)) /\
  (forall s cur, states m !! n = Some s -> currentState m = Some cur ->
     start cH this n h = (Exc AlreadyStartedError, h)) /\
  (forall s hist, states m !! n = Some s -> currentState m = None ->
     arrays h !! history m = Some hist ->
     let h' := mkHeap (<[history m := hist ++ [n]]> (arrays h))
                      (<[this := set_currentState (Some s) m]> (machines h))
                      (user h) in
     machines h' !! this = Some (set_currentState (Some s) m) /\
     arrays h' !! history m = Some (hist ++ [n]) /\
     (onEnter s = None -> start cH this n h = (Val tt, h')) /\
     (forall c, onEnter s = Some c -> start cH this n h = cH c h')).
Proof.
  intros E. split; [|split].
  - intros Hn. unfold start, bind. now rewrite (deref_some _ _ _ E), Hn.
  - intros s cur Hn Hc. unfold start, bind.
    now rewrite (deref_some _ _ _ E), Hn, Hc.
  - intros s hist Hn Hc Ha h'.
    assert (Hs : start cH this n h = call_opt cH (onEnter s) h').
    { unfold start. unfold bind at 1.
      rewrite (deref_some _ _ _ E), Hn, Hc.
      pose proof (assign_push this s n h m hist E Ha) as Hp.
      unfold moved in Hp. rewrite E, Ha in Hp. fold h' in Hp.
      unfold bind in *.
      destruct (assign this (set_currentState (Some s)) h) as [[[]|e] h2];
        [|discriminate].
      destruct (deref this h2) as [[m2|e] h3]; [|discriminate].
      now rewrite Hp. }
    split; [|split; [|split]].
    + apply list_lookup_insert_eq. eapply lookup_lt_Some; eauto.
    + apply list_lookup_insert_eq. eapply lookup_lt_Some; eauto.
    + intros Hnone. now rewrite Hs, Hnone.
    + intros c Hsome. now rewrite Hs, Hsome.
Qed.

Lemma transitionTo_normal this n act h1 m1 cur1 s' h2 h3 m3 hist :
  machines h1 !! this = Some m1 -> currentState m1 = Some cur1 ->
  states m1 !! n = Some s' ->
  call_opt cH (onExit cur1) h1 = (Val tt, h2) ->
  call_opt cH act h2 = (Val tt, h3) ->
  machines h3 !! this = Some m3 -> arrays h3 !! history m3 = Some hist ->
  transitionTo cH this n act h1 = call_opt cH (onEnter s') (moved this s' n h3).
Proof.
  intros E1 Hc Hn Hx Ha E3 Hh. unfold transitionTo. unfold bind at 1.
  rewrite (deref_some _ _ _ E1), Hn, Hc. unfold bind at 1. rewrite Hx.
  unfold bind at 1. rewrite Ha.
  pose proof (assign_push this s' n h3 m3 hist E3 Hh) as Hp.
  unfold bind in *.
  destruct (assign this (set_currentState (Some s')) h3) as [[[]|e] h4];
    [|discriminate].
  destruct (deref this h4) as [[m4|e] h5]; [|discriminate].
  now rewrite Hp.
Qed.

(** C2. When [trigger] finds a rule [t], it calls [onExit] of the
    departing state, then the rule's action, then makes the target the
    current state and appends its name to the history, and then calls
    [onEnter] of the new state, each step on the heap the previous one
    left; an absent closure is skipped. *)
Theorem trigger_lifecycle_order this ev h m cur t h1 m1 cur1 s' h2 h3 m3 hist :
  machines h !! this = Some m -> currentState m = Some cur ->
  first_accepted cG (name cur) ev (transitions m) (Some t) h h1 ->
  machines h1 !! this = Some m1 -> currentState m1 = Some cur1 ->
  states m1 !! to t = Some s' ->
  call_opt cH (onExit cur1) h1 = (Val tt, h2) ->
  call_opt cH (action t) h2 = (Val tt, h3) ->
  machines h3 !! this = Some m3 -> arrays h3 !! history m3 = Some hist ->
  trigger cH cG this ev h =
    (call_opt cH (onEnter s') ;;; ret true) (moved this s' (to t) h3).
Proof.
  intros E Hc Hf E1 Hc1 Hn Hx Ha E3 Hh.
  rewrite (trigger_started _ _ _ _ _ E Hc). unfold bind at 1.
  rewrite (find_first_accepted _ _ _ _ _ _ Hf). unfold bind.
  now rewrite (transitionTo_normal _ _ _ _ _ _ _ _ _ _ _ E1 Hc1 Hn Hx Ha E3 Hh).
Qed.

(** C3, amended. An exact rule whose guard returns false does not end
    the scan: when the rules before it and the rules between it and a
    later wildcard rule for the same event are rejected, and the guard
    of the wildcard rule passes, [trigger] selects the wildcard rule,
    makes its transition and returns true. *)
Theorem failed_exact_rule_does_not_shadow
    this ev h m cur pre e g mid w post h1 h2 h3 h4 :
  machines h !! this = Some m -> currentState m = Some cur ->
  transitions m = pre ++ e :: mid ++ w :: post ->
  all_rejected cG (name cur) ev pre h h1 ->
  from e = name cur -> event e = ev ->
  guard e = Some g -> cG g h1 = (Val false, h2) ->
  all_rejected cG (name cur) ev mid h2 h3 ->
  from w = "*" -> event w = ev ->
  match guard w with
  | None => h4 = h3
  | Some gw => cG gw h3 = (Val true, h4)
  end ->
  trigger cH cG this ev h =
    (transitionTo cH this (to w) (action w) ;;; ret true) h4.
Proof.
  intros E Hc Ht Hpre Hfe Hee Hg Hgf Hmid Hfw Hew Hgw.
  rewrite (trigger_started _ _ _ _ _ E Hc). unfold bind at 1.
  rewrite (find_first_accepted (name cur) ev (transitions m) (Some w) h h4);
    [reflexivity|].
  exists (pre ++ e :: mid), post, h3. split; [|split].
  - rewrite Ht, <- app_assoc. reflexivity.
  - apply (all_rejected_app _ _ _ _ _ h1); [assumption|].
    exists h2. split; [|assumption].
    right. unfold source_applies. eauto 8.
  - unfold accepts, source_applies. auto.
Qed.

(** *** The history follows the current state *)

Local Abbreviation J := (@Inv Hook UpdateHook Guard U).
Local Abbreviation ok := (@all_machines_ok Hook UpdateHook Guard U).

Lemma keeps_ret {A} P (a : A) : keeps P (ret a).
Proof. now intros h. Qed.

Lemma keeps_bind {A B} P (c : M Hook UpdateHook Guard U A)
    (k : A -> M Hook UpdateHook Guard U B) :
  keeps P c -> (forall a, keeps P (k a)) -> keeps P (bind c k).
Proof.
  intros Hc Hk h Hh. unfold bind. specialize (Hc h Hh).
  destruct (c h) as [[a|e] h']; simpl in *; [now apply Hk | assumption].
Qed.

Lemma keeps_call_opt {C} P (call : C -> M Hook UpdateHook Guard U unit) f :
  (forall c, keeps P (call c)) -> keeps P (call_opt call f).
Proof. intros Hc. destruct f; simpl; [apply Hc | apply keeps_ret]. Qed.

Lemma ok_Inv this h m : ok h -> machines h !! this = Some m -> J this h.
Proof.
  intros [Hall _] E. destruct (Hall _ _ E) as (hist & Ha & Hr & Hl).
  now exists m, hist.
Qed.

(** The machine at [this] is replaced by one with the same history array
    and the same current state. *)
Lemma ok_assign this h m m' :
  ok h -> machines h !! this = Some m ->
  history m' = history m -> currentState m' = currentState m ->
  registry_ok m' ->
  ok (mkHeap (arrays h) (<[this := m']> (machines h)) (user h)).
Proof.
  intros [Hall Hinj] E Hh Hc Hr.
  assert (Hlt : this < length (machines h)) by (eapply lookup_lt_Some; eauto).
  split; simpl.
  - intros i mi Hi. destruct (decide (i = this)) as [->|Hne].
    + rewrite list_lookup_insert_eq in Hi by assumption. inversion Hi; subst mi.
      destruct (Hall _ _ E) as (hist & Ha & _ & Hl).
      exists hist. rewrite Hh. repeat split; try assumption.
      unfold current_is_last in *. now rewrite Hc.
    + rewrite list_lookup_insert_ne in Hi by congruence. now apply (Hall i).
  - intros i j mi mj Hi Hj Heq.
    destruct (decide (i = this)) as [->|Hi'], (decide (j = this)) as [->|Hj'];
      try reflexivity.
    + rewrite list_lookup_insert_eq in Hi by assumption. inversion Hi; subst mi.
      rewrite list_lookup_insert_ne in Hj by congruence.
      apply (Hinj this j m mj); congruence.
    + rewrite list_lookup_insert_eq in Hj by assumption. inversion Hj; subst mj.
      rewrite list_lookup_insert_ne in Hi by congruence.
      apply (Hinj i this mi m); congruence.
    + rewrite list_lookup_insert_ne in Hi, Hj by congruence.
      now apply (Hinj i j mi mj).
Qed.

Lemma ok_moved this h m s n :
  ok h -> machines h !! this = Some m -> name s = n ->
  ok (moved this s n h).
Proof.
  intros Hok E Hn. pose proof Hok as [Hall Hinj].
  destruct (Hall _ _ E) as (hist & Ha & Hr & _).
  unfold moved. rewrite E, Ha.
  assert (Hlt : this < length (machines h)) by (eapply lookup_lt_Some; eauto).
  assert (Hlta : history m < length (arrays h)) by (eapply lookup_lt_Some; eauto).
  split; simpl.
  - intros i mi Hi. destruct (decide (i = this)) as [->|Hne].
    + rewrite list_lookup_insert_eq in Hi by assumption. inversion Hi; subst mi.
      exists (hist ++ [n]). simpl. repeat split; try assumption.
      * now apply list_lookup_insert_eq.
      * unfold current_is_last. simpl. rewrite last_snoc. now subst.
    + rewrite list_lookup_insert_ne in Hi by congruence.
      destruct (Hall _ _ Hi) as (hi & Hai & Hri & Hli).
      exists hi. repeat split; try assumption.
      rewrite list_lookup_insert_ne; [assumption|].
      intros Heq. apply Hne. now apply (Hinj i this mi m).
  - intros i j mi mj Hi Hj Heq.
    destruct (decide (i = this)) as [->|Hi'], (decide (j = this)) as [->|Hj'];
      try reflexivity.
    + rewrite list_lookup_insert_eq in Hi by assumption. inversion Hi; subst mi.
      rewrite list_lookup_insert_ne in Hj by congruence.
      now apply (Hinj this j m mj).
    + rewrite list_lookup_insert_eq in Hj by assumption. inversion Hj; subst mj.
      rewrite list_lookup_insert_ne in Hi by congruence.
      now apply (Hinj i this mi m).
    + rewrite list_lookup_insert_ne in Hi, Hj by congruence.
      now apply (Hinj i j mi mj).
Qed.

Lemma ok_alloc h l :
  ok h -> ok (mkHeap (arrays h ++ [l]) (machines h) (user h)).
Proof.
  intros [Hall Hinj]. split; simpl; [|exact Hinj].
  intros i m Hi. destruct (Hall _ _ Hi) as (hist & Ha & Hr & Hl).
  exists hist. repeat split; try assumption. now apply lookup_app_l_Some.
Qed.

Lemma ok_frame h u : ok h -> ok (mkHeap (arrays h) (machines h) u).
Proof. intros [Hall Hinj]. now split. Qed.

Lemma ok_new_StateMachine h0 :
  ok h0 ->
  ok (snd (new_StateMachine h0)) /\
  exists m, machines (snd (new_StateMachine h0)) !! length (machines h0) = Some m.
Proof.
  intros [Hall Hinj]. unfold new_StateMachine, bind, new_array. simpl.
  split; [split; simpl|].
  - intros i m Hi. apply lookup_app_Some in Hi as [Hi | [_ Hi]].
    + destruct (Hall _ _ Hi) as (hist & Ha & Hr & Hl).
      exists hist. repeat split; try assumption. now apply lookup_app_l_Some.
    + destruct (i - length (machines h0)); simpl in Hi; [|discriminate].
      inversion Hi; subst m. exists []. simpl. repeat split.
      * rewrite lookup_app_r by reflexivity. now rewrite Nat.sub_diag.
      * intros k s Hk. simpl in Hk. now rewrite lookup_empty in Hk.
  - assert (Hold : forall i m, machines h0 !! i = Some m ->
                     history m < length (arrays h0)).
    { intros i m Hi. destruct (Hall _ _ Hi) as (hist & Ha & _).
      eapply lookup_lt_Some; eauto. }
    intros i j mi mj Hi Hj Heq.
    apply lookup_app_Some in Hi as [Hi | [Hi1 Hi]];
      apply lookup_app_Some in Hj as [Hj | [Hj1 Hj]].
    + now apply (Hinj i j mi mj).
    + destruct (j - length (machines h0)); simpl in Hj; [|discriminate].
      inversion Hj; subst mj. simpl in Heq. apply Hold in Hi. lia.
    + destruct (i - length (machines h0)); simpl in Hi; [|discriminate].
      inversion Hi; subst mi. simpl in Heq. apply Hold in Hj. lia.
    + destruct (i - length (machines h0)) eqn:Ei; simpl in Hi; [|discriminate].
      destruct (j - length (machines h0)) eqn:Ej; simpl in Hj; [|discriminate].
      lia.
  - eexists. rewrite lookup_app_r by reflexivity. now rewrite Nat.sub_diag.
Qed.

Lemma commit_run {A} this s n (k : M Hook UpdateHook Guard U A) h m hist :
  machines h !! this = Some m -> arrays h !! history m = Some hist ->
  (assign this (set_currentState (Some s)) ;;;
   m <- deref this ;; push (history m) n ;;; k) h = k (moved this s n h).
Proof.
  intros E Ha.
  pose proof (assign_push this s n h m hist E Ha) as Hp.
  unfold bind in *.
  destruct (assign this (set_currentState (Some s)) h) as [[[]|e] h2];
    [|discriminate].
  destruct (deref this h2) as [[m2|e] h3]; [|discriminate].
  destruct (push (history m2) n h3) as [[[]|e] h4]; [|discriminate].
  now inversion Hp.
Qed.

Lemma deref_none this h :
  machines h !! this = None -> deref this h = (Exc TypeError, h).
Proof. intros E. unfold deref. now rewrite E. Qed.

Lemma bind_deref_none {A} this h (k : _ -> M Hook UpdateHook Guard U A) :
  machines h !! this = None -> bind (deref this) k h = (Exc TypeError, h).
Proof. intros E. unfold bind. now rewrite (deref_none _ _ E). Qed.

Lemma at_assign target this h m m' :
  ok_at target h -> machines h !! this = Some m ->
  history m' = history m -> currentState m' = currentState m ->
  registry_ok m' ->
  ok_at target (mkHeap (arrays h) (<[this := m']> (machines h)) (user h)).
Proof.
  intros [Hok Ht] E Hh Hc Hr. split; [now apply (ok_assign this h m)|].
  simpl. apply lookup_lt_is_Some. rewrite length_insert.
  now apply lookup_lt_is_Some.
Qed.

Lemma at_moved target this h m s n :
  ok_at target h -> machines h !! this = Some m -> name s = n ->
  ok_at target (moved this s n h).
Proof.
  intros [Hok Ht] E Hn. split; [now apply (ok_moved this h m)|].
  unfold moved. rewrite E.
  destruct (proj1 Hok _ _ E) as (hist & -> & _). simpl.
  apply lookup_lt_is_Some. rewrite length_insert.
  now apply lookup_lt_is_Some.
Qed.

Lemma at_alloc target h l :
  ok_at target h -> ok_at target (mkHeap (arrays h ++ [l]) (machines h) (user h)).
Proof. intros [Hok Ht]. split; [now apply ok_alloc | exact Ht]. Qed.

Lemma at_frame target h u :
  ok_at target h -> ok_at target (mkHeap (arrays h) (machines h) u).
Proof. intros [Hok Ht]. split; [now apply ok_frame | exact Ht]. Qed.

Section Invariant.
Variables this target : nat.
Local Abbreviation okt := (@ok_at Hook UpdateHook Guard U target).
Hypothesis hooks_keep : forall c, keeps okt (cH c).
Hypothesis updates_keep : forall c dt, keeps okt (cU c dt).
Hypothesis guards_keep : forall c, keeps okt (cG c).

Lemma keeps_commit {A} s n (k : M Hook UpdateHook Guard U A) :
  name s = n -> keeps okt k ->
  keeps okt
    (assign this (set_currentState (Some s)) ;;;
     m <- deref this ;; push (history m) n ;;; k).
Proof.
  intros Hn Hk h Hh.
  destruct (machines h !! this) as [m|] eqn:E.
  - destruct (proj1 (proj1 Hh) _ _ E) as (hist & Ha & _).
    rewrite (commit_run _ _ _ _ _ _ _ E Ha). apply Hk.
    now apply (at_moved target this h m).
  - unfold bind, assign. now rewrite E.
Qed.

Lemma keeps_addState s : keeps okt (addState this s).
Proof.
  intros h Hh. unfold addState.
  destruct (machines h !! this) as [m|] eqn:E;
    [|now rewrite (bind_deref_none _ _ _ E)].
  rewrite (bind_deref _ _ _ _ E).
  destruct (decide (is_Some (states m !! name s))); [assumption|].
  unfold assign. rewrite E. simpl.
  apply (at_assign target this h m); try assumption; try reflexivity.
  destruct (proj1 (proj1 Hh) _ _ E) as (hist & _ & Hreg & _).
  intros k s'. unfold set_states. simpl.
  rewrite lookup_insert. case_decide.
  - intros [= <-]. assumption.
  - apply Hreg.
Qed.

Lemma keeps_addTransition t : keeps okt (addTransition this t).
Proof.
  intros h Hh. unfold addTransition.
  destruct (machines h !! this) as [m|] eqn:E;
    [|now rewrite (bind_deref_none _ _ _ E)].
  rewrite (bind_deref _ _ _ _ E).
  destruct (_ && _); [assumption|].
  destruct (negb _); [assumption|].
  unfold assign. rewrite E. simpl.
  apply (at_assign target this h m); try assumption; try reflexivity.
  now destruct (proj1 (proj1 Hh) _ _ E) as (hist & _ & Hreg & _).
Qed.

Lemma keeps_start n : keeps okt (start cH this n).
Proof.
  intros h Hh. unfold start.
  destruct (machines h !! this) as [m|] eqn:E;
    [|now rewrite (bind_deref_none _ _ _ E)].
  rewrite (bind_deref _ _ _ _ E).
  destruct (states m !! n) as [s|] eqn:Hn; [|assumption].
  destruct (currentState m); [assumption|].
  destruct (proj1 (proj1 Hh) _ _ E) as (hist & _ & Hreg & _).
  apply keeps_commit; [now apply Hreg | | assumption].
  apply keeps_call_opt, hooks_keep.
Qed.

Lemma keeps_find cur ev l :
  keeps okt (find (rule_matches cG cur ev) l).
Proof.
  induction l as [|t l IH]; simpl; [apply keeps_ret|].
  apply keeps_bind.
  - unfold rule_matches. destruct (_ && _); [|apply keeps_ret].
    destruct (guard t); [apply guards_keep | apply keeps_ret].
  - intros [|]; [apply keeps_ret | apply IH].
Qed.

Lemma keeps_transitionTo n act : keeps okt (transitionTo cH this n act).
Proof.
  intros h Hh. unfold transitionTo.
  destruct (machines h !! this) as [m|] eqn:E;
    [|now rewrite (bind_deref_none _ _ _ E)].
  rewrite (bind_deref _ _ _ _ E).
  destruct (states m !! n) as [s|] eqn:Hn; [|assumption].
  destruct (proj1 (proj1 Hh) _ _ E) as (hist & _ & Hreg & _).
  clear E. revert h Hh. apply keeps_bind.
  { destruct (currentState m); [|apply keeps_ret].
    apply keeps_call_opt, hooks_keep. }
  intros _. apply keeps_bind; [apply keeps_call_opt, hooks_keep|].
  intros _. apply keeps_commit; [now apply Hreg|].
  apply keeps_call_opt, hooks_keep.
Qed.

Lemma keeps_trigger ev : keeps okt (trigger cH cG this ev).
Proof.
  intros h Hh. unfold trigger.
  destruct (machines h !! this) as [m|] eqn:E;
    [|now rewrite (bind_deref_none _ _ _ E)].
  rewrite (bind_deref _ _ _ _ E).
  destruct (currentState m) as [cur|]; [|assumption].
  clear E. revert h Hh. apply keeps_bind; [apply keeps_find|].
  intros [t|]; [|apply keeps_ret].
  apply keeps_bind; [apply keeps_transitionTo | intros; apply keeps_ret].
Qed.

Lemma keeps_update dt : keeps okt (update cU this dt).
Proof.
  intros h Hh. unfold update.
  destruct (machines h !! this) as [m|] eqn:E;
    [|now rewrite (bind_deref_none _ _ _ E)].
  rewrite (bind_deref _ _ _ _ E).
  destruct (currentState m) as [cur|]; [|assumption].
  destruct (onUpdate cur); [now apply updates_keep | assumption].
Qed.

Lemma keeps_canTransition ev : keeps okt (canTransition cG this ev).
Proof.
  intros h Hh. unfold canTransition.
  destruct (machines h !! this) as [m|] eqn:E;
    [|now rewrite (bind_deref_none _ _ _ E)].
  rewrite (bind_deref _ _ _ _ E).
  destruct (currentState m) as [cur|]; [|assumption].
  clear E. revert h Hh.
  apply keeps_bind; [apply keeps_find | intros; apply keeps_ret].
Qed.

Lemma keeps_getCurrentState : keeps okt (getCurrentState this).
Proof.
  intros h Hh. unfold getCurrentState.
  destruct (machines h !! this) as [m|] eqn:E;
    [|now rewrite (bind_deref_none _ _ _ E)].
  rewrite (bind_deref _ _ _ _ E). now destruct (currentState m).
Qed.

Lemma keeps_getHistory : keeps okt (getHistory this).
Proof.
  intros h Hh. unfold getHistory.
  destruct (machines h !! this) as [m|] eqn:E;
    [|now rewrite (bind_deref_none _ _ _ E)].
  rewrite (bind_deref _ _ _ _ E).
  destruct (proj1 (proj1 Hh) _ _ E) as (hist & Ha & _).
  unfold bind, read_array, new_array. rewrite Ha. simpl.
  now apply at_alloc.
Qed.

Lemma keeps_discard {A} (c : M Hook UpdateHook Guard U A) :
  keeps okt c -> keeps okt (discard c).
Proof. intros Hc. apply keeps_bind; [assumption | intros; apply keeps_ret]. Qed.

Lemma keeps_run_op op : keeps okt (run_op cH cU cG this op).
Proof.
  destruct op; simpl.
  - apply keeps_addState.
  - apply keeps_addTransition.
  - apply keeps_start.
  - apply keeps_discard, keeps_trigger.
  - apply keeps_update.
  - apply keeps_discard, keeps_canTransition.
  - apply keeps_discard, keeps_getCurrentState.
  - apply keeps_discard, keeps_getHistory.
Qed.

Lemma ok_run_ops ops h :
  okt h -> okt (run_ops cH cU cG this ops h).
Proof.
  revert h. induction ops as [|op ops IH]; simpl; intros h Hh; [assumption|].
  apply IH. now apply keeps_run_op.
Qed.

End Invariant.

Lemma Inv_consistent this h : J this h -> consistent this h.
Proof.
  intros (m & hist & E & Ha & Hreg & Hl).
  unfold consistent, getHistory, getCurrentState, bind, read_array, new_array.
  rewrite (deref_some _ _ _ E), Ha. simpl.
  eexists _, _, hist. split; [reflexivity|]. split.
  - simpl. rewrite lookup_app_r by reflexivity.
    now rewrite Nat.sub_diag.
  - unfold current_is_last in Hl. destruct (currentState m); simpl; auto.
Qed.

(** C10. In a store whose machines all satisfy the property, make a
    machine by [new StateMachine()] and run any sequence of public
    operations on it, each to its return or its exception.  Provided the
    closures it calls maintain the property themselves (they reach the
    machines through their public operations only), [getCurrentState]
    then throws the not-started error exactly when [getHistory] returns
    an empty array, and otherwise returns the last element of that
    array. *)
Theorem current_state_is_last_of_history h0 ops :
  let this := length (machines h0) in
  all_machines_ok h0 ->
  (forall c, keeps (ok_at this) (cH c)) ->
  (forall c dt, keeps (ok_at this) (cU c dt)) ->
  (forall c, keeps (ok_at this) (cG c)) ->
  consistent this (run_ops cH cU cG this ops (snd (new_StateMachine h0))).
Proof.
  intros this H0 HH HU HG. apply Inv_consistent.
  destruct (ok_new_StateMachine h0 H0) as [H1 [m Hm]].
  assert (Hat : ok_at this (snd (new_StateMachine h0))) by (split; eauto).
  destruct (ok_run_ops this this HH HU HG ops _ Hat) as [Hok [m' Hm']].
  now apply (ok_Inv this _ m').
Qed.

(** *** The history records the visited states *)

Lemma outside_ret {A} (a : A) : outside (U := U) (Hook := Hook)
    (UpdateHook := UpdateHook) (Guard := Guard) (ret a).
Proof. intros h. exists a, (user h). now destruct h. Qed.

Lemma outside_bind {A B} (c : M Hook UpdateHook Guard U A)
    (k : A -> M Hook UpdateHook Guard U B) :
  outside c -> (forall a, outside (k a)) -> outside (bind c k).
Proof.
  intros Hc Hk h. unfold bind. destruct (Hc h) as (a & u & ->).
  destruct (Hk a (mkHeap (arrays h) (machines h) u)) as (b & u' & ->).
  now exists b, u'.
Qed.

Lemma outside_call_opt {C} (call : C -> M Hook UpdateHook Guard U unit) f :
  (forall c, outside (call c)) -> outside (call_opt call f).
Proof. intros Hc. destruct f; simpl; [apply Hc | apply outside_ret]. Qed.

Lemma outside_find cur ev l :
  (forall c, outside (cG c)) -> outside (find (rule_matches cG cur ev) l).
Proof.
  intros HG. induction l as [|t l IH]; simpl; [apply outside_ret|].
  apply outside_bind.
  - unfold rule_matches. destruct (_ && _); [|apply outside_ret].
    destruct (guard t); [apply HG | apply outside_ret].
  - intros [|]; [apply outside_ret | apply IH].
Qed.

Lemma history_is_frame this hist h u :
  history_is this hist h ->
  history_is this hist (mkHeap (arrays h) (machines h) u).
Proof. intros (m & E & Ha & Hreg). now exists m. Qed.

Lemma history_is_moved this hist h m s n :
  history_is this hist h -> machines h !! this = Some m ->
  history_is this (hist ++ [n]) (moved this s n h) /\
  machines (moved this s n h) !! this = Some (set_currentState (Some s) m).
Proof.
  intros (m' & E & Ha & Hreg) E'. assert (m' = m) as -> by congruence.
  unfold moved. rewrite E, Ha. simpl. split.
  - exists (set_currentState (Some s) m). simpl. repeat split.
    + apply list_lookup_insert_eq. eapply lookup_lt_Some; eauto.
    + apply list_lookup_insert_eq. eapply lookup_lt_Some; eauto.
    + exact Hreg.
  - apply list_lookup_insert_eq. eapply lookup_lt_Some; eauto.
Qed.

Section Visited.
Variable this : nat.
Hypothesis hooks_outside : forall c, outside (cH c).
Hypothesis updates_outside : forall c dt, outside (cU c dt).
Hypothesis guards_outside : forall c, outside (cG c).

(** Entering [s] under the name [n]: the history gains [n], and [s]
    is current when the hook has returned. *)
Lemma enter_outside hist h m s n :
  history_is this hist h -> machines h !! this = Some m ->
  exists h',
    (assign this (set_currentState (Some s)) ;;;
     m' <- deref this ;; push (history m') n ;;;
     call_opt cH (onEnter s)) h = (Val tt, h') /\
    history_is this (hist ++ [n]) h' /\
    machines h' !! this = Some (set_currentState (Some s) m).
Proof.
  intros Hh E. pose proof Hh as (m0 & E0 & Ha0 & _).
  rewrite (commit_run _ _ _ _ _ _ _ E0 Ha0).
  destruct (history_is_moved _ _ _ _ s n Hh E) as [Hm Em].
  destruct (outside_call_opt cH (onEnter s) hooks_outside (moved this s n h))
    as ([] & u & ->).
  eexists. split; [reflexivity|]. split.
  - now apply history_is_frame.
  - exact Em.
Qed.

Lemma start_outside hist n h :
  history_is this hist h ->
  exists o h', start cH this n h = (o, h') /\
    match o with
    | Val _ => history_is this (hist ++ [n]) h'
    | Exc _ => history_is this hist h'
    end.
Proof.
  intros Hh. pose proof Hh as (m & E & Ha & Hreg).
  unfold start. rewrite (bind_deref _ _ _ _ E).
  destruct (states m !! n) as [s|] eqn:Hn;
    [|eexists _, _; split; [reflexivity | assumption]].
  destruct (currentState m);
    [eexists _, _; split; [reflexivity | assumption]|].
  destruct (enter_outside hist h m s n Hh E) as (h' & -> & Hh' & _).
  eexists _, _; split; [reflexivity | assumption].
Qed.

Lemma transitionTo_outside hist n act h m s' :
  history_is this hist h -> machines h !! this = Some m ->
  states m !! n = Some s' ->
  exists h', transitionTo cH this n act h = (Val tt, h') /\
    history_is this (hist ++ [n]) h' /\
    machines h' !! this = Some (set_currentState (Some s') m).
Proof.
  intros Hh E Hn. unfold transitionTo. rewrite (bind_deref _ _ _ _ E), Hn.
  unfold bind at 1.
  destruct (outside_call_opt cH
              (match currentState m with
               | Some c => onExit c | None => None end)
              hooks_outside h) as ([] & u2 & Hx).
  assert (match currentState m with
          | Some cur => call_opt cH (onExit cur)
          | None => ret tt
          end h = (Val tt, mkHeap (arrays h) (machines h) u2)) as ->.
  { destruct (currentState m); exact Hx. }
  unfold bind at 1.
  destruct (outside_call_opt cH act hooks_outside
              (mkHeap (arrays h) (machines h) u2)) as ([] & u3 & ->).
  simpl arrays. simpl machines.
  apply enter_outside; [now apply history_is_frame | exact E].
Qed.

Lemma trigger_outside hist ev h :
  history_is this hist h ->
  exists o h', trigger cH cG this ev h = (o, h') /\
    match o with
    | Val true => exists m' s', machines h' !! this = Some m' /\
                    currentState m' = Some s' /\
                    history_is this (hist ++ [name s']) h'
    | _ => history_is this hist h'
    end.
Proof.
  intros Hh. pose proof Hh as (m & E & Ha & Hreg).
  unfold trigger. rewrite (bind_deref _ _ _ _ E).
  destruct (currentState m) as [cur|] eqn:Hc;
    [|eexists _, _; split; [reflexivity | assumption]].
  unfold bind at 1.
  destruct (outside_find (name cur) ev (transitions m) guards_outside h)
    as (r & u & ->).
  destruct r as [t|];
    [|eexists _, _; split; [reflexivity | now apply history_is_frame]].
  set (h1 := mkHeap (arrays h) (machines h) u).
  assert (Hh1 : history_is this hist h1) by now apply history_is_frame.
  unfold bind.
  destruct (states m !! to t) as [s'|] eqn:Ht.
  - destruct (transitionTo_outside hist (to t) (action t) h1 m s' Hh1 E Ht)
      as (h' & -> & Hh' & Em).
    eexists _, _; split; [reflexivity|].
    exists (set_currentState (Some s') m), s'. simpl.
    repeat split; [exact Em|]. now rewrite (Hreg _ _ Ht).
  - unfold transitionTo. rewrite (bind_deref this h1 m _ E), Ht.
    eexists _, _; split; [reflexivity | assumption].
Qed.

Lemma visit_step hist op h :
  history_is this hist h ->
  history_is this (hist ++ visit cH cG this op h) (snd (run_op cH cU cG this op h)).
Proof.
  intros Hh. pose proof Hh as (m & E & Ha & Hreg).
  destruct op as [s|t|n|ev|dt|ev| |]; simpl.
  - (* addState *)
    rewrite app_nil_r. unfold addState, bind. rewrite (deref_some _ _ _ E).
    destruct (decide (is_Some (states m !! name s))); [assumption|].
    unfold assign. rewrite E. simpl.
    exists (set_states (<[name s := s]> (states m)) m). simpl.
    repeat split; try assumption.
    + apply list_lookup_insert_eq. eapply lookup_lt_Some; eauto.
    + intros k s'. unfold set_states. simpl.
      rewrite lookup_insert. case_decide.
      * intros [= <-]. assumption.
      * apply Hreg.
  - (* addTransition *)
    rewrite app_nil_r. unfold addTransition, bind. rewrite (deref_some _ _ _ E).
    destruct (_ && _); [assumption|].
    destruct (negb _); [assumption|].
    unfold assign. rewrite E. simpl.
    exists (set_transitions (transitions m ++ [t]) m). simpl.
    repeat split; try assumption.
    apply list_lookup_insert_eq. eapply lookup_lt_Some; eauto.
  - (* start *)
    destruct (start_outside hist n h Hh) as (o & h' & -> & Ho). simpl.
    destruct o; [assumption | now rewrite app_nil_r].
  - (* trigger *)
    unfold discard, bind.
    destruct (trigger_outside hist ev h Hh) as (o & h' & -> & Ho). simpl.
    destruct o as [[|]|]; try now rewrite app_nil_r.
    destruct Ho as (m' & s' & Em & Hc & Hh').
    unfold getCurrentState, bind. rewrite (deref_some _ _ _ Em), Hc. exact Hh'.
  - (* update *)
    rewrite app_nil_r. unfold update, bind. rewrite (deref_some _ _ _ E).
    destruct (currentState m) as [cur|]; [|assumption].
    destruct (onUpdate cur) as [f|]; [|assumption].
    destruct (updates_outside f dt h) as ([] & u & ->).
    now apply history_is_frame.
  - (* canTransition *)
    rewrite app_nil_r. unfold discard. unfold bind at 1.
    unfold canTransition. rewrite (bind_deref _ _ _ _ E).
    destruct (currentState m) as [cur|]; [|assumption].
    unfold bind.
    destruct (outside_find (name cur) ev (transitions m) guards_outside h)
      as (r & u & ->).
    now apply history_is_frame.
  - (* getCurrentState *)
    rewrite app_nil_r. unfold discard, getCurrentState, bind.
    rewrite (deref_some _ _ _ E). now destruct (currentState m).
  - (* getHistory *)
    rewrite app_nil_r. unfold discard, getHistory, bind, read_array, new_array.
    rewrite (deref_some _ _ _ E), Ha. simpl.
    exists m. repeat split; try assumption.
    now apply lookup_app_l_Some.
Qed.

Lemma visited_run hist ops h :
  history_is this hist h ->
  history_is this (hist ++ visited cH cU cG this ops h)
             (run_ops cH cU cG this ops h).
Proof.
  revert hist h. induction ops as [|op ops IH]; simpl; intros hist h Hh.
  - now rewrite app_nil_r.
  - rewrite app_assoc. apply IH. now apply visit_step.
Qed.
End Visited.

(** *** The history is the record of the hooks *)

Lemma find_elem (p : Transition Hook Guard -> M Hook UpdateHook Guard U bool)
    l h t h' :
  find p l h = (Val (Some t), h') -> t ∈ l.
Proof.
  revert h. induction l as [|t0 l IH]; simpl; intros h; [discriminate|].
  unfold bind. destruct (p t0 h) as [[[|]|e] h1]; simpl.
  - intros [= <- _]. now left.
  - intros H. right. now apply (IH h1).
  - discriminate.
Qed.

Section RecordedTheory.
Variable log : U -> list string.
Variable base : list string.
Variable enters : Hook -> string -> Prop.
Variable quiet : Hook -> Prop.
Variable quietU : UpdateHook -> Prop.
Variable quietG : Guard -> Prop.
Variable this : nat.

Local Abbreviation sync := (recorded log base enters quiet quietU quietG this).
Local Abbreviation good := (machine_recorded enters quiet quietU quietG).

Hypothesis hooks_enter : forall c n, enters c n ->
  forall h, sync [n] h -> sync [] (snd (cH c h)).
Hypothesis hooks_quiet : forall c, quiet c -> keeps (sync []) (cH c).
Hypothesis updates_quiet : forall c dt, quietU c -> keeps (sync []) (cU c dt).
Hypothesis guards_quiet : forall c, quietG c -> keeps (sync []) (cG c).

Lemma quiet_opt f :
  (forall c, f = Some c -> quiet c) -> keeps (sync []) (call_opt cH f).
Proof.
  intros Hf. destruct f as [c|]; simpl; [|apply keeps_ret].
  apply hooks_quiet. now apply Hf.
Qed.

(** A closure that stays outside the engine's store, whether it returns
    or throws, keeps the history; what matters is what it does to the
    record. *)
Lemma recorded_frame p p' h u :
  sync p h -> log u ++ p' = log (user h) ++ p ->
  sync p' (mkHeap (arrays h) (machines h) u).
Proof.
  intros (m & hist & E & Ha & Hm & Hl) Hu. exists m, hist. simpl.
  split; [exact E|]. split; [exact Ha|]. split; [exact Hm|]. congruence.
Qed.

(** The engine makes [s] current and appends [n]; the hook of [s] then
    brings the record level. *)
Lemma commit_recorded n s h :
  state_recorded enters quiet quietU n s -> sync [] h ->
  sync [n] (moved this s n h).
Proof.
  intros [_ Hq] (m & hist & E & Ha & (Hst & Hcur & Hrules) & Hl).
  unfold moved. rewrite E, Ha.
  exists (set_currentState (Some s) m), (hist ++ [n]). simpl.
  split; [|split; [|split]].
  - apply list_lookup_insert_eq. eapply lookup_lt_Some; eauto.
  - apply list_lookup_insert_eq. eapply lookup_lt_Some; eauto.
  - split; [exact Hst|]. split; [|exact Hrules].
    intros cur [= <-]. exact Hq.
  - rewrite app_nil_r in Hl. now rewrite app_assoc, Hl.
Qed.

Lemma enter_recorded n s :
  state_recorded enters quiet quietU n s ->
  keeps (sync [])
    (assign this (set_currentState (Some s)) ;;;
     m <- deref this ;; push (history m) n ;;;
     call_opt cH (onEnter s)).
Proof.
  intros Hs h Hh. pose proof Hh as (m & hist & E & Ha & _).
  rewrite (commit_run _ _ _ _ _ _ _ E Ha).
  pose proof (commit_recorded n s h Hs Hh) as Hp.
  destruct Hs as [(c & Hc & He) Hq]. rewrite Hc. simpl.
  now apply (hooks_enter c n He).
Qed.

Lemma assign_recorded (f : StateMachine Hook UpdateHook Guard ->
                           StateMachine Hook UpdateHook Guard) h m :
  sync [] h -> machines h !! this = Some m ->
  history (f m) = history m -> (good m -> good (f m)) ->
  sync [] (mkHeap (arrays h) (<[this := f m]> (machines h)) (user h)).
Proof.
  intros (m' & hist & E & Ha & Hm & Hl) E' Hh Hf.
  assert (m' = m) as -> by congruence.
  exists (f m), hist. simpl. split; [|split; [|split]].
  - apply list_lookup_insert_eq. eapply lookup_lt_Some; eauto.
  - now rewrite Hh.
  - now apply Hf.
  - exact Hl.
Qed.

Lemma addState_recorded s :
  state_recorded enters quiet quietU (name s) s ->
  keeps (sync []) (addState this s).
Proof.
  intros Hs h Hh. pose proof Hh as (m & hist & E & _).
  unfold addState. rewrite (bind_deref _ _ _ _ E).
  destruct (decide (is_Some (states m !! name s))); [assumption|].
  unfold assign. rewrite E. simpl.
  apply (assign_recorded (set_states (<[name s := s]> (states m))) h m Hh E);
    [reflexivity|].
  intros (Hst & Hcur & Hrules). split; [|split; assumption].
  intros k s'. simpl. rewrite lookup_insert. case_decide.
  - intros [= <-]. now subst k.
  - apply Hst.
Qed.

Lemma addTransition_recorded t :
  rule_recorded quiet quietG t -> keeps (sync []) (addTransition this t).
Proof.
  intros Ht h Hh. pose proof Hh as (m & hist & E & _).
  unfold addTransition. rewrite (bind_deref _ _ _ _ E).
  destruct (_ && _); [assumption|].
  destruct (negb _); [assumption|].
  unfold assign. rewrite E. simpl.
  apply (assign_recorded (set_transitions (transitions m ++ [t])) h m Hh E);
    [reflexivity|].
  intros (Hst & Hcur & Hrules). split; [assumption|]. split; [assumption|].
  intros t'. simpl. rewrite elem_of_app, list_elem_of_singleton.
  intros [H | ->]; [now apply Hrules | exact Ht].
Qed.

Lemma start_recorded n : keeps (sync []) (start cH this n).
Proof.
  intros h Hh. pose proof Hh as (m & hist & E & _ & (Hst & _) & _).
  unfold start. rewrite (bind_deref _ _ _ _ E).
  destruct (states m !! n) as [s|] eqn:Hn; [|assumption].
  destruct (currentState m); [assumption|].
  apply enter_recorded; [|exact Hh]. now apply Hst.
Qed.

Lemma find_recorded cur ev l :
  (forall t, t ∈ l -> rule_recorded quiet quietG t) ->
  keeps (sync []) (find (rule_matches cG cur ev) l).
Proof.
  induction l as [|t l IH]; simpl; intros Hl; [apply keeps_ret|].
  apply keeps_bind.
  - unfold rule_matches. destruct (_ && _); [|apply keeps_ret].
    destruct (guard t) as [g|] eqn:Hg; [|apply keeps_ret].
    apply guards_quiet.
    apply (proj2 (Hl t ltac:(apply elem_of_cons; now left)) g Hg).
  - intros [|]; [apply keeps_ret|]. apply IH.
    intros t' Ht'. apply Hl. now right.
Qed.

Lemma transitionTo_recorded n act :
  (forall c, act = Some c -> quiet c) ->
  keeps (sync []) (transitionTo cH this n act).
Proof.
  intros Hact h Hh. pose proof Hh as (m & hist & E & _ & (Hst & Hcur & _) & _).
  unfold transitionTo. rewrite (bind_deref _ _ _ _ E).
  destruct (states m !! n) as [s|] eqn:Hn; [|assumption].
  clear E. revert h Hh. apply keeps_bind.
  - destruct (currentState m) as [cur|] eqn:Hc; [|apply keeps_ret].
    apply quiet_opt. apply (proj1 (Hcur cur eq_refl)).
  - intros _. apply keeps_bind; [now apply quiet_opt|].
    intros _. apply enter_recorded. now apply Hst.
Qed.

Lemma trigger_recorded ev : keeps (sync []) (trigger cH cG this ev).
Proof.
  intros h Hh. pose proof Hh as (m & hist & E & _ & (_ & _ & Hrules) & _).
  unfold trigger. rewrite (bind_deref _ _ _ _ E).
  destruct (currentState m) as [cur|]; [|assumption].
  unfold bind at 1.
  pose proof (find_recorded (name cur) ev (transitions m) Hrules h Hh) as Hf.
  destruct (find (rule_matches cG (name cur) ev) (transitions m) h)
    as [[[t|]|e] h1] eqn:Ef; simpl in Hf; try assumption.
  apply find_elem in Ef.
  apply keeps_bind; [|intros; apply keeps_ret | exact Hf].
  apply transitionTo_recorded. apply (proj1 (Hrules t Ef)).
Qed.

Lemma update_recorded dt : keeps (sync []) (update cU this dt).
Proof.
  intros h Hh. pose proof Hh as (m & hist & E & _ & (_ & Hcur & _) & _).
  unfold update. rewrite (bind_deref _ _ _ _ E).
  destruct (currentState m) as [cur|] eqn:Hc; [|assumption].
  destruct (onUpdate cur) as [f|] eqn:Hu; [|assumption].
  apply updates_quiet; [|exact Hh].
  apply (proj2 (Hcur cur eq_refl) f Hu).
Qed.

Lemma canTransition_recorded ev : keeps (sync []) (canTransition cG this ev).
Proof.
  intros h Hh. pose proof Hh as (m & hist & E & _ & (_ & _ & Hrules) & _).
  unfold canTransition. rewrite (bind_deref _ _ _ _ E).
  destruct (currentState m) as [cur|]; [|assumption].
  clear E. revert h Hh.
  apply keeps_bind; [now apply find_recorded | intros; apply keeps_ret].
Qed.

Lemma getHistory_recorded : keeps (sync []) (getHistory this).
Proof.
  intros h Hh. pose proof Hh as (m & hist & E & Ha & Hm & Hl).
  unfold getHistory, bind, read_array, new_array.
  rewrite (deref_some _ _ _ E), Ha. simpl.
  exists m, hist. split; [exact E|]. split; [|split; assumption].
  now apply lookup_app_l_Some.
Qed.

Lemma run_op_recorded op :
  op_recorded enters quiet quietU quietG op ->
  keeps (sync []) (run_op cH cU cG this op).
Proof.
  destruct op as [s|t|n|ev|dt|ev| |]; simpl; intros Hop.
  - now apply addState_recorded.
  - now apply addTransition_recorded.
  - apply start_recorded.
  - apply keeps_bind; [apply trigger_recorded | intros; apply keeps_ret].
  - apply update_recorded.
  - apply keeps_bind; [apply canTransition_recorded | intros; apply keeps_ret].
  - intros h Hh. pose proof Hh as (m & hist & E & _).
    unfold discard, getCurrentState, bind. rewrite (deref_some _ _ _ E).
    now destruct (currentState m).
  - apply keeps_bind; [apply getHistory_recorded | intros; apply keeps_ret].
Qed.

Lemma run_ops_recorded ops h :
  Forall (op_recorded enters quiet quietU quietG) ops ->
  sync [] h -> sync [] (run_ops cH cU cG this ops h).
Proof.
  intros Hops. revert h. induction Hops as [|op ops Hop _ IH]; simpl; intros h Hh.
  - exact Hh.
  - apply IH. now apply run_op_recorded.
Qed.
End RecordedTheory.

Lemma recorded_new_StateMachine (log : U -> list string) enters quiet quietU quietG h0 :
  recorded log (log (user h0)) enters quiet quietU quietG
           (length (machines h0)) [] (snd (new_StateMachine h0)).
Proof.
  unfold new_StateMachine, bind, new_array. simpl.
  exists (mkStateMachine None ∅ [] (length (arrays h0))), []. simpl.
  split; [|split; [|split]].
  - rewrite lookup_app_r by reflexivity. now rewrite Nat.sub_diag.
  - rewrite lookup_app_r by reflexivity. now rewrite Nat.sub_diag.
  - split; [|split].
    + intros n s Hn. simpl in Hn. now rewrite lookup_empty in Hn.
    + intros cur Hc. discriminate.
    + intros t Ht. simpl in Ht. now apply not_elem_of_nil in Ht.
  - reflexivity.
Qed.

Lemma getHistory_run this h m hist :
  machines h !! this = Some m -> arrays h !! history m = Some hist ->
  getHistory this h =
    (Val (length (arrays h)), mkHeap (arrays h ++ [hist]) (machines h) (user h)).
Proof.
  intros E Ha. unfold getHistory, bind, read_array, new_array.
  now rewrite (deref_some _ _ _ E), Ha.
Qed.

Lemma history_is_new_StateMachine h0 :
  history_is (length (machines h0)) [] (snd (new_StateMachine h0)).
Proof.
  unfold new_StateMachine, bind, new_array. simpl.
  exists (mkStateMachine None ∅ [] (length (arrays h0))). simpl.
  repeat split.
  - rewrite lookup_app_r by reflexivity. now rewrite Nat.sub_diag.
  - rewrite lookup_app_r by reflexivity. now rewrite Nat.sub_diag.
  - intros k s Hk. simpl in Hk. now rewrite lookup_empty in Hk.
Qed.

Lemma outside_keeps {A} target (c : M Hook UpdateHook Guard U A) :
  outside c -> keeps (ok_at target) c.
Proof.
  intros Hc h Hh. destruct (Hc h) as (a & u & ->). now apply at_frame.
Qed.

(** C9. In a store whose machines are all well formed ([all_machines_ok]),
    make a machine by [new StateMachine()] and run any sequence of public
    operations on it, with closures that keep the store well formed: they
    may throw, and may call the engine, on this machine too.  Then
    [getHistory] returns a newly allocated array, and whatever the caller
    then writes into that array, the next [getHistory] returns the same
    sequence again.  The sequence is that of the states entered, in
    order.  For that, let the [onEnter] hook of every state add the name
    of the state to a record, and no other closure change it
    ([closures_recorded], whether the closures return or throw, and
    whatever calls they make on the engine): then the sequence is what
    the record has gained since the machine was made.  And when the
    closures return normally and stay outside the engine's store, the
    sequence is the name the machine was started with followed by the
    state reached by each [trigger] that returned true. *)
Theorem getHistory_returns_independent_copy h0 ops :
  let this := length (machines h0) in
  let h1 := snd (new_StateMachine h0) in
  let h := run_ops cH cU cG this ops h1 in
  all_machines_ok h0 ->
  (forall c, keeps (ok_at this) (cH c)) ->
  (forall c dt, keeps (ok_at this) (cU c dt)) ->
  (forall c, keeps (ok_at this) (cG c)) ->
  exists r h' l,
    getHistory this h = (Val r, h') /\
    arrays h' !! r = Some l /\
    arrays h !! r = None /\
    (forall l', exists r2 h3,
       getHistory this (mutate r l' h') = (Val r2, h3) /\
       arrays h3 !! r2 = Some l) /\
    (forall (log : U -> list string) enters quiet quietU quietG,
       closures_recorded cH cU cG log (log (user h0))
                         enters quiet quietU quietG this ->
       Forall (op_recorded enters quiet quietU quietG) ops ->
       log (user h) = log (user h0) ++ l) /\
    ((forall c, outside (cH c)) ->
     (forall c dt, outside (cU c dt)) ->
     (forall c, outside (cG c)) ->
     l = visited cH cU cG this ops h1).
Proof.
  intros this h1 h H0 HH HU HG.
  destruct (ok_new_StateMachine h0 H0) as [H1 [m1 Hm1]].
  assert (Hat : ok_at this h1) by (split; eauto).
  destruct (ok_run_ops this this HH HU HG ops _ Hat) as [Hok [m E]].
  fold h in Hok, E.
  destruct (proj1 Hok _ _ E) as (hist & Ha & _).
  rewrite (getHistory_run _ _ _ _ E Ha).
  eexists _, _, hist. split; [reflexivity|]. simpl.
  assert (Hlt : history m < length (arrays h)) by (eapply lookup_lt_Some; eauto).
  split; [|split; [|split; [|split]]].
  - rewrite lookup_app_r by reflexivity. now rewrite Nat.sub_diag.
  - now apply lookup_ge_None.
  - intros l'.
    assert (Ha' : arrays (mutate (length (arrays h)) l'
                            (mkHeap (arrays h ++ [hist]) (machines h) (user h)))
                  !! history m = Some hist).
    { unfold mutate. simpl. rewrite list_lookup_insert_ne by lia.
      now apply lookup_app_l_Some. }
    rewrite (getHistory_run _ _ m hist); [|exact E|exact Ha'].
    eexists _, _. split; [reflexivity|]. simpl.
    rewrite lookup_app_r by reflexivity. now rewrite Nat.sub_diag.
  - intros log enters quiet quietU quietG Hcl Hops.
    destruct Hcl as (He & Hq & Hu & Hg).
    pose proof (run_ops_recorded log (log (user h0)) enters quiet quietU quietG
                  this He Hq Hu Hg ops h1 Hops
                  (recorded_new_StateMachine log enters quiet quietU quietG h0))
      as (m' & hist' & E' & Ha' & _ & Hl).
    fold h in E', Ha', Hl. rewrite app_nil_r in Hl.
    assert (m' = m) as -> by congruence.
    assert (hist' = hist) as -> by congruence.
    now symmetry.
  - intros OH OU OG.
    pose proof (visited_run this OH OU OG [] ops h1
                  (history_is_new_StateMachine h0)) as (m' & E' & Ha' & _).
    fold h in E', Ha'. simpl in Ha'. congruence.
Qed.

Lemma find_app (p : Transition Hook Guard -> M Hook UpdateHook Guard U bool)
    l1 l2 h :
  find p (l1 ++ l2) h =
    match find p l1 h with
    | (Val None, h') => find p l2 h'
    | r => r
    end.
Proof.
  revert h. induction l1 as [|t l1 IH]; simpl; intros h; [reflexivity|].
  unfold bind. destruct (p t h) as [[[|]|e] h']; simpl; auto.
Qed.
End EngineTheory.

(** * Properties of the light states and of the intersection *)

Section IntersectionTheory.
Context {N : Number}.

(** The rules added by [emergencyVehicle] answer to ['FORCE_GREEN'] only. *)
Lemma find_force_other cur ev k h :
  ev <> "FORCE_GREEN" ->
  find (rule_matches callGuard cur ev) (repeat force_green k) h = (Val None, h).
Proof.
  intros Hne. induction k as [|k IH]; simpl; [reflexivity|].
  unfold bind, rule_matches.
  replace (String.eqb (event force_green) ev) with false.
  - rewrite andb_false_r. exact IH.
  - symmetry. apply String.eqb_neq. intros E. apply Hne. now rewrite <- E.
Qed.

Lemma find_force cur k h :
  find (rule_matches callGuard cur "FORCE_GREEN") (repeat force_green k) h =
  (Val (match k with 0 => None | S _ => Some force_green end), h).
Proof.
  destruct k; simpl; [reflexivity|]. unfold bind, rule_matches. simpl.
  now rewrite orb_true_r.
Qed.

(** One update tick of a light state whose counter holds [t]. *)
Lemma TimerUpdate_run cell d fsm dt (h : Store) t :
  timer (user h) !! cell = Some t ->
  callUpdate (TimerUpdate cell d fsm) dt h =
    (if (d <=? t + dt)%num
     then _ <- fsm_trigger fsm "TIMER_EXPIRED" ;; ret tt
     else ret tt)
      (mkHeap (arrays h) (machines h)
              (set_timer (<[cell := (t + dt)%num]> (timer (user h))) (user h))).
Proof.
  intros Ht. unfold callUpdate, read_timer, write_timer, lift, bind. simpl.
  rewrite Ht. simpl.
  rewrite list_lookup_insert_eq by (eapply lookup_lt_Some; eauto).
  reflexivity.
Qed.

(** The registries are kept abstract, known through the lookups of the
    three colour names only, so that evaluating a method never unfolds a
    map. *)
Section Shape.
Variables rn re : gmap string LightState.

Local Abbreviation rg_of a := (match a with NS => rn | EW => re end).
Local Abbreviation shaped' := (shaped_in rn re).
Local Abbreviation shaped_with a c cn ce h :=
    (match a with NS => shaped' c ce h | EW => shaped' cn c h end).

Hypothesis lookup_light : forall a c, rg_of a !! color_name c = Some (light a c).

(** Evaluate the left-hand side and read the result off. *)
Ltac compute_lhs :=
  match goal with
  | |- ?lhs = _ =>
      let v := eval vm_compute in lhs in
      transitivity v; [vm_compute; reflexivity | reflexivity]
  end.

(** The scan of the constructor's rules: guards only read the peer. *)
Lemma find_base a ev cn ce h :
  shaped' cn ce h ->
  find (rule_matches callGuard (color_name (own a cn ce)) (ev_name ev)) (base a) h
  = (Val (selected a ev (own a cn ce) (other a cn ce)), h).
Proof.
  intros (kn & ke & hn & he & t0 & t1 & t2 & t3 & t4 & t5
          & co & pn & pe & run & tos & ->).
  destruct a, ev, cn, ce; vm_compute; reflexivity.
Qed.

(** A transition of one light changes its colour and nothing of the shape. *)
Lemma transition_shaped a c' act cn ce h :
  shaped' cn ce h -> action_ok act ->
  exists h', transitionTo callHook (fsm_of a) (color_name c') act h = (Val tt, h') /\
             shaped_with a c' cn ce h'.
Proof.
  intros (kn & ke & hn & he & t0 & t1 & t2 & t3 & t4 & t5
          & co & pn & pe & run & tos & ->) Hact.
  unfold transitionTo.
  pose proof (lookup_light a c') as L.
  destruct a; (erewrite bind_deref by reflexivity);
    unfold machine_with at 1; cbn [states]; simpl in L; rewrite L;
    destruct c'; destruct Hact as [-> | [-> | [-> | ->]]];
    (eexists; split; [compute_lhs | unfold shaped_in; repeat eexists ]).
Qed.

Lemma shaped_with_own a cn ce h : shaped' cn ce h -> shaped_with a (own a cn ce) cn ce h.
Proof. now destruct a. Qed.

Ltac take_rule a t Hs :=
  let h' := fresh "h'" in
  let Ht := fresh "Ht" in
  let Hsh := fresh "Hsh" in
  destruct (transition_shaped a (rule_color t) (action t) _ _ _ Hs)
    as (h' & Ht & Hsh);
  [ unfold action_ok; simpl; tauto
  | unfold bind; simpl in Ht; simpl; rewrite Ht;
    eexists true, h', _; split; [reflexivity | split; [exact Hsh | simpl; tauto]] ].

(** What each of the three events does to the colour of a light. *)
Lemma trigger_shaped a ev cn ce h :
  shaped' cn ce h ->
  exists b h' c', fsm_trigger (fsm_of a) (ev_name ev) h = (Val b, h') /\
    shaped_with a c' cn ce h' /\ color_step ev (own a cn ce) (other a cn ce) c'.
Proof.
  intros Hs. pose proof (find_base a ev cn ce h Hs) as Hf.
  pose proof (shaped_with_own a cn ce h Hs) as Hown.
  pose proof Hs as (kn & ke & hn & he & t0 & t1 & t2 & t3 & t4 & t5
      & co & pn & pe & run & tos & Hh).
  set (k := match a with NS => kn | EW => ke end).
  assert (Htr : trigger callHook callGuard (fsm_of a) (ev_name ev) h =
    (r <- find (rule_matches callGuard (color_name (own a cn ce)) (ev_name ev))
            (base a ++ repeat force_green k) ;;
       match r with
       | None => ret false
       | Some t => transitionTo callHook (fsm_of a) (to t) (action t) ;;; ret true
       end) h).
  { rewrite (trigger_started callHook callGuard (fsm_of a) (ev_name ev) h
               (machine_with (rg_of a) a (own a cn ce) k) (light a (own a cn ce)));
      [reflexivity | subst h; now destruct a | reflexivity]. }
  rewrite Htr. clear Htr. unfold bind at 1. rewrite find_app, Hf. clear Hf.
  clear Hh.
  destruct a, ev, cn, ce; simpl selected; cbv iota beta;
    try (rewrite find_force_other by discriminate);
    try (rewrite find_force; destruct k; cbv iota beta);
    first
      [ (eexists false, h, _; split; [reflexivity | split; [exact Hown | simpl; tauto]])
      | match goal with
        | |- context [transitionTo _ _ (to ?t) _] => take_rule NS t Hs
        end
      | match goal with
        | |- context [transitionTo _ _ (to ?t) _] => take_rule EW t Hs
        end ].
Qed.

(** An update tick of one machine: its light stays or takes a timer step. *)
Lemma update_shaped a dt cn ce h :
  shaped' cn ce h ->
  exists h' c', fsm_update (fsm_of a) dt h = (Val tt, h') /\
    shaped_with a c' cn ce h' /\
    (c' = own a cn ce \/ c' = timer_next (own a cn ce) (other a cn ce)).
Proof.
  intros (kn & ke & hn & he & t0 & t1 & t2 & t3 & t4 & t5
          & co & pn & pe & run & tos & ->).
  unfold update.
  assert (exists t h1,
    (bind (deref (fsm_of a)) (fun m =>
       match currentState m with
       | Some cur => match onUpdate cur with
                     | Some f => callUpdate f dt
                     | None => ret tt
                     end
       | None => throw NotStartedError
       end))
      (mkHeap [hn; he] [machine_with rn NS cn kn; machine_with re EW ce ke]
              (mkWorld [t0; t1; t2; t3; t4; t5] co pn pe run tos)) =
    (if (duration_of (own a cn ce) <=? t)%num
     then _ <- fsm_trigger (fsm_of a) "TIMER_EXPIRED" ;; ret tt
     else ret tt) h1 /\ shaped' cn ce h1) as (t & h1 & -> & Hs1).
  { destruct a, cn, ce;
      (erewrite bind_deref by reflexivity);
      cbn [currentState machine_with light onUpdate];
      (erewrite TimerUpdate_run by reflexivity);
      (eexists _, _; split; [reflexivity | repeat eexists]). }
  destruct (_ <=? _)%num.
  - destruct (trigger_shaped a TimerExpired cn ce h1 Hs1)
        as (b & h' & c' & Ht & Hsh & Hc).
    unfold bind. simpl in Ht. rewrite Ht.
    exists h', c'. simpl in Hc. auto.
  - exists h1, (own a cn ce). split; [reflexivity|]. split; [|now left].
    now apply shaped_with_own.
Qed.

Lemma handle_shaped cn ce h :
  shaped' cn ce h ->
  exists h', IntersectionController.handlePedestrianRequests ctl h = (Val tt, h') /\
             shaped' cn ce h'.
Proof.
  intros (kn & ke & hn & he & t0 & t1 & t2 & t3 & t4 & t5
          & co & pn & pe & run & tos & ->).
  destruct pn, pe, cn, ce; (eexists; split; [compute_lhs | repeat eexists]).
Qed.

Lemma flag_shaped cn ce h d b :
  shaped' cn ce h ->
  (exists h', IntersectionController.set_pedestrianWaiting d b h = (Val tt, h') /\
              shaped' cn ce h') /\
  (exists h', IntersectionController.set_isRunning b h = (Val tt, h') /\
              shaped' cn ce h').
Proof.
  intros (kn & ke & hn & he & t0 & t1 & t2 & t3 & t4 & t5
          & co & pn & pe & run & tos & ->).
  split; [destruct d|]; (eexists; split; [reflexivity | repeat eexists]).
Qed.

Lemma table_grows a k : table a k ++ [force_green] = table a (S k).
Proof.
  unfold table. rewrite <- app_assoc. f_equal.
  change [force_green] with (repeat force_green 1).
  rewrite <- repeat_app. f_equal. lia.
Qed.

Lemma addEmergency_shaped cn ce h :
  shaped' cn ce h ->
  exists h', IntersectionController.addEmergencyTransitions ctl h = (Val tt, h') /\
             shaped' cn ce h'.
Proof.
  intros (kn & ke & hn & he & t0 & t1 & t2 & t3 & t4 & t5
          & co & pn & pe & run & tos & ->).
  pose proof (lookup_light NS Green) as Ln. pose proof (lookup_light EW Green) as Le.
  simpl in Ln, Le.
  unfold IntersectionController.addEmergencyTransitions,
    addTransition, try_catch, bind, has.
  simpl. unfold machine_with at 1. cbn [states]. rewrite Ln.
  rewrite bool_decide_eq_true_2 by eauto. simpl.
  rewrite Le. rewrite bool_decide_eq_true_2 by eauto. simpl.
  eexists. split; [reflexivity|].
  exists (S kn), (S ke), hn, he, t0, t1, t2, t3, t4, t5, co, pn, pe, run, tos.
  unfold machine_with. rewrite <- !table_grows. reflexivity.
Qed.

Lemma running_dec (h : Store) :
  IntersectionController.get isRunning h = (Val (isRunning (user h)), h).
Proof. unfold IntersectionController.get, lift. now destruct h. Qed.

(** Every call keeps the shape and the safety of the colours, and an
    update tick returns normally. *)
Lemma call_shaped c cn ce h :
  shaped' cn ce h -> ~ (cn = Green /\ ce = Green) ->
  exists o h' cn' ce', call c h = (o, h') /\ shaped' cn' ce' h' /\
    ~ (cn' = Green /\ ce' = Green) /\
    match c with Update _ => o = Val tt | _ => True end.
Proof.
  intros Hs Hsafe. destruct c as [dt|d|d|i| |]; simpl.
  - (* update *)
    unfold IntersectionController.update, bind. rewrite running_dec.
    destruct (isRunning (user h));
      cbn [negb IntersectionController.northSouth IntersectionController.eastWest ctl];
      [|eauto 10].
    destruct (update_shaped NS dt cn ce h Hs) as (h1 & c1 & E1 & Hs1 & Hc1).
    simpl in E1, Hs1, Hc1. rewrite E1.
    destruct (update_shaped EW dt c1 ce h1 Hs1) as (h2 & c2 & E2 & Hs2 & Hc2).
    simpl in E2, Hs2, Hc2. rewrite E2.
    destruct (handle_shaped c1 c2 h2 Hs2) as (h3 & -> & Hs3).
    exists (Val tt), h3, c1, c2. repeat split; auto.
    intros [-> ->]. destruct cn, ce; intuition discriminate.
  - (* pedestrianButtonPressed *)
    unfold IntersectionController.pedestrianButtonPressed, bind. rewrite running_dec.
    destruct (isRunning (user h));
      cbn [negb IntersectionController.northSouth IntersectionController.eastWest ctl];
      [|eauto 10].
    destruct (flag_shaped cn ce h d true Hs) as [(h' & -> & Hs') _]. eauto 10.
  - (* emergencyVehicle *)
    unfold IntersectionController.emergencyVehicle, bind. rewrite running_dec.
    destruct (isRunning (user h));
      cbn [negb IntersectionController.northSouth IntersectionController.eastWest ctl];
      [|eauto 10].
    destruct d.
    + destruct (trigger_shaped NS EmergencyOverride cn ce h Hs)
        as (b1 & h1 & c1 & E1 & Hs1 & Hc1).
      simpl in E1, Hs1, Hc1. rewrite E1.
      destruct (trigger_shaped NS ForceGreen c1 ce h1 Hs1)
        as (b2 & h2 & c2 & E2 & Hs2 & Hc2).
      simpl in E2, Hs2, Hc2. rewrite E2.
      destruct (trigger_shaped EW EmergencyOverride c2 ce h2 Hs2)
        as (b3 & h3 & c3 & E3 & Hs3 & Hc3).
      simpl in E3, Hs3, Hc3. rewrite E3.
      unfold ret.
      destruct (addEmergency_shaped c2 c3 h3 Hs3) as (h4 & -> & Hs4).
      exists (Val tt), h4, c2, c3. repeat split; auto.
      intros [_ ->]. discriminate.
    + destruct (trigger_shaped EW EmergencyOverride cn ce h Hs)
        as (b1 & h1 & c1 & E1 & Hs1 & Hc1).
      simpl in E1, Hs1, Hc1. rewrite E1.
      destruct (trigger_shaped EW ForceGreen cn c1 h1 Hs1)
        as (b2 & h2 & c2 & E2 & Hs2 & Hc2).
      simpl in E2, Hs2, Hc2. rewrite E2.
      destruct (trigger_shaped NS EmergencyOverride cn c2 h2 Hs2)
        as (b3 & h3 & c3 & E3 & Hs3 & Hc3).
      simpl in E3, Hs3, Hc3. rewrite E3.
      unfold ret.
      destruct (addEmergency_shaped c3 c2 h3 Hs3) as (h4 & -> & Hs4).
      exists (Val tt), h4, c3, c2. repeat split; auto.
      intros [-> _]. discriminate.
  - (* a timeout fires *)
    unfold run_timeout.
    destruct (timeouts (user h) !! i) as [target|] eqn:Hi; [|eauto 10].
    pose proof Hs as (kn & ke & hn & he & t0 & t1 & t2 & t3 & t4 & t5
        & co & pn & pe & run & tos & ->).
    cbn [user isRunning set_timeouts arrays machines].
    match goal with
    | |- context [mkHeap ?a ?b ?c] =>
        assert (Hs1 : shaped' cn ce (mkHeap a b c)) by repeat eexists;
        generalize dependent (mkHeap a b c)
    end.
    intros h1 Hs1.
    destruct run; [|eauto 10].
    destruct target as [|[|n]].
    + destruct (trigger_shaped NS TimerExpired cn ce h1 Hs1)
        as (b1 & h2 & c1 & E1 & Hs2 & Hc1).
      simpl in E1, Hs2, Hc1. unfold bind. rewrite E1.
      exists (Val tt), h2, c1, ce. repeat split; auto.
      intros [-> ->]. destruct cn; discriminate.
    + destruct (trigger_shaped EW TimerExpired cn ce h1 Hs1)
        as (b1 & h2 & c1 & E1 & Hs2 & Hc1).
      simpl in E1, Hs2, Hc1. unfold bind. rewrite E1.
      exists (Val tt), h2, cn, c1. repeat split; auto.
      intros [-> ->]. destruct ce; discriminate.
    + destruct Hs1 as (kn' & ke' & hn' & he' & t0' & t1' & t2' & t3' & t4' & t5'
        & co' & pn' & pe' & run' & tos' & ->).
      eexists _, _, cn, ce. split; [reflexivity|]. split; [repeat eexists | auto].
  - (* stop *)
    destruct (flag_shaped cn ce h NS false Hs) as [_ (h' & E & Hs')].
    unfold IntersectionController.stop. rewrite E. eauto 10.
  - (* start *)
    unfold IntersectionController.start, bind. rewrite running_dec.
    destruct (isRunning (user h)); simpl; [eauto 10|].
    destruct Hs as (kn & ke & hn & he & t0 & t1 & t2 & t3 & t4 & t5
        & co & pn & pe & run & tos & ->).
    unfold start, bind. simpl. unfold machine_with at 1. cbn [states].
    pose proof (lookup_light NS Green) as Ln. simpl in Ln. rewrite Ln. simpl.
    eexists _, _, cn, ce. split; [reflexivity|]. split; [repeat eexists | auto].
Qed.
End Shape.

Lemma registry_lookup a c :
  match a with NS => registry NS | EW => registry EW end !! color_name c
  = Some (light a c).
Proof. destruct a, c; vm_compute; reflexivity. Qed.

Lemma started_shaped : shaped Green Red started.
Proof.
  assert (started = mkHeap [["GREEN"]; ["RED"]]
                      [machine_with (registry NS) NS Green 0;
                       machine_with (registry EW) EW Red 0]
                      (mkWorld [num_of_Z 0; num_of_Z 0; num_of_Z 0;
                                num_of_Z 0; num_of_Z 0; num_of_Z 0]
                               [] false false true [])) as ->
    by (vm_compute; reflexivity).
  repeat eexists.
Qed.

Lemma call_safe c h :
  safe h ->
  safe (snd (call c h)) /\
  match c with Update _ => fst (call c h) = Val tt | _ => True end.
Proof.
  intros (cn & ce & Hs & Hsafe).
  destruct (call_shaped _ _ registry_lookup c cn ce h Hs Hsafe)
    as (o & h' & cn' & ce' & -> & Hs' & Hsafe' & Ho).
  split; [now exists cn', ce' | exact Ho].
Qed.

Lemma calls_safe l h : safe h -> safe (calls l h).
Proof.
  revert h. induction l as [|c l IH]; simpl; intros h Hh; [assumption|].
  apply IH. now apply call_safe.
Qed.

Lemma shaped_states cn ce h :
  shaped cn ce h ->
  fst (IntersectionController.getNorthSouthState ctl h) = Val (color_name cn) /\
  fst (IntersectionController.getEastWestState ctl h) = Val (color_name ce).
Proof.
  intros (kn & ke & hn & he & t0 & t1 & t2 & t3 & t4 & t5 & co & pn & pe & run
          & tos & ->).
  split; reflexivity.
Qed.

Lemma safe_not_both_green h : safe h -> ~ both_green h.
Proof.
  intros (cn & ce & Hs & Hsafe) [Hn He].
  destruct (shaped_states _ _ _ Hs) as [En Ee].
  rewrite En in Hn. rewrite Ee in He.
  apply Hsafe. split; [destruct cn | destruct ce]; now inversion Hn || inversion He.
Qed.

(** C4. Build the controller, start it, and let a client and the event
    loop make any calls on it: update ticks of any length, pedestrian
    requests, emergency vehicles, pending [setTimeout] callbacks in any
    order, [stop] and further [start]s.  A further update tick then
    returns normally and leaves the two machines not both in ['GREEN']. *)
Theorem never_both_green_after_update l dt :
  let h := calls l started in
  fst (IntersectionController.update ctl dt h) = Val tt /\
  ~ both_green (snd (IntersectionController.update ctl dt h)).
Proof.
  intros h.
  assert (Hh : safe h).
  { apply calls_safe. exists Green, Red. split; [apply started_shaped|].
    intros [_ H]. discriminate. }
  destruct (call_safe (Update dt) h Hh) as [Hs Ho]. simpl in Hs, Ho.
  split; [exact Ho | now apply safe_not_both_green].
Qed.

(** ** The light states *)

(** C5, amended. For a light-state object made by [new XLightState(fsm)]
    that is the current state of its machine: [onEnter] sets its counter
    to 0; an update tick adds [deltaTime] to the counter, by the addition
    of the numbers, and, whenever the counter then is at or above the
    duration, by their comparison, calls [trigger('TIMER_EXPIRED')] on
    the machine, on this tick and on every later tick that finds the
    machine still in this state.  At [double] the sum and the test are
    those of the code, for every tick: fractional, infinite or not a
    number. *)
Theorem light_state_timer nm d fsm (h0 h0' h : Store) s m t dt :
  new_LightState nm d fsm h0 = (Val s, h0') ->
  machines h !! fsm = Some m -> currentState m = Some s ->
  timer (user h) !! length (timer (user h0)) = Some t ->
  call_opt callHook (onEnter s) h
    = (Val tt, with_timer (length (timer (user h0))) (num_of_Z 0) h) /\
  fsm_update fsm dt h
    = (if (d <=? t + dt)%num
       then discard (fsm_trigger fsm "TIMER_EXPIRED")
       else ret tt) (with_timer (length (timer (user h0))) (t + dt)%num h).
Proof.
  intros Hnew E Hc Ht. unfold new_LightState, bind, lift in Hnew.
  simpl in Hnew. inversion Hnew; subst s h0'. clear Hnew. split.
  - reflexivity.
  - unfold update. rewrite (bind_deref _ _ _ _ E), Hc. cbn [onUpdate].
    now rewrite (TimerUpdate_run _ _ _ _ _ _ Ht).
Qed.

End IntersectionTheory.

(** The numbers of the program are the doubles. *)
Section Doubles.
#[local] Existing Instance double.

Lemma light_state_timer_witness :
  fsm_update 0 (double_of_Z 1)
    (StuckLight.ticks [double_of_Z 30000] StuckLight.initial)
  = discard (fsm_trigger 0 "TIMER_EXPIRED")
      (with_timer 0 (double_of_Z 30001)
         (StuckLight.ticks [double_of_Z 30000] StuckLight.initial)).
Proof.
  refine (proj2 (light_state_timer "RED" (double_of_Z 30000) 0
                   (snd (new_StateMachine empty_heap)) _
                   (StuckLight.ticks [double_of_Z 30000] StuckLight.initial)
                   _ _ (double_of_Z 30000) (double_of_Z 1) _ _ _ _)).
  - vm_compute. reflexivity.
  - vm_compute. reflexivity.
  - reflexivity.
  - vm_compute. reflexivity.
Defined.

(** C5 as stated fails: the counter of the red light crosses its
    threshold once, on the first tick, and the machine stays in [RED];
    yet [trigger] runs on the first tick and again on the second, as the
    calls recorded by the guard of the only rule show. *)
Lemma trigger_once_per_crossing_counterexample :
  timer (user StuckLight.initial) !! 0 = Some (double_of_Z 0) /\
  timer (user (StuckLight.ticks [double_of_Z 30000] StuckLight.initial)) !! 0
    = Some (double_of_Z 30000) /\
  callOrder (user (StuckLight.ticks [double_of_Z 30000] StuckLight.initial))
    = ["guard"] /\
  timer (user (StuckLight.ticks [double_of_Z 30000; double_of_Z 1]
                 StuckLight.initial)) !! 0
    = Some (double_of_Z 30001) /\
  callOrder (user (StuckLight.ticks [double_of_Z 30000; double_of_Z 1]
                     StuckLight.initial))
    = ["guard"; "guard"] /\
  fst (getCurrentState 0 (StuckLight.ticks [double_of_Z 30000; double_of_Z 1]
                            StuckLight.initial))
    = Val "RED".
Proof. vm_compute. repeat split. Qed.

(** The literals of the program and of the examples are the doubles
    nearest to them. *)
Example double_of_Z_rounds :
  Forall (fun z => double_of_Z z
                   = FloatOps.SF2Prim
                       (SpecFloat.binary_normalize FloatOps.prec FloatOps.emax
                                                   z 0 false))
         [0; 1; 16; 5000; 25000; 30000; 30001; -1; 2 ^ 53; 2 ^ 53 + 1;
          - 2 ^ 53; 2 ^ 53 + 30000; 2 ^ 62 + 2 ^ 9]%Z.
Proof. repeat constructor. Qed.

(** The sum is the rounded one: past 2^53 a tick of one millisecond is
    lost, a fractional tick is kept as the nearest double, and a tick
    that is not a number leaves a counter that is no number and that
    reaches no duration. *)
Example timer_adds_doubles :
  timer (user (StuckLight.ticks [double_of_Z (2 ^ 53); double_of_Z 1]
                 StuckLight.initial)) !! 0
    = Some (double_of_Z (2 ^ 53)) /\
  timer (user (StuckLight.ticks [PrimFloat.div (double_of_Z 1) (double_of_Z 10);
                                 PrimFloat.div (double_of_Z 2) (double_of_Z 10)]
                 StuckLight.initial)) !! 0
    = Some (PrimFloat.div (double_of_Z 30000000000000004)
                          (double_of_Z 100000000000000000)) /\
  timer (user (StuckLight.ticks [PrimFloat.nan; double_of_Z 30000]
                 StuckLight.initial)) !! 0 = Some PrimFloat.nan /\
  callOrder (user (StuckLight.ticks [PrimFloat.nan; double_of_Z 30000]
                     StuckLight.initial)) = [].
Proof. vm_compute. repeat split. Qed.

(** * The theorems at work on the machines of the test suite *)

Lemma trigger_selects_first_match_witness :
  trigger Recorder.cH Recorder.cG 0 "GO" Recorder.overlapping
  = (transitionTo Recorder.cH 0 "SAFE" None ;;; ret true) Recorder.overlapping.
Proof.
  refine (trigger_selects_first_match Recorder.cH Recorder.cG 0 "GO"
            Recorder.overlapping _ _ (Some Recorder.wildcard_rule)
            Recorder.overlapping _ _ _).
  - vm_compute. reflexivity.
  - reflexivity.
  - exists [Recorder.exact_rule], [Recorder.late_rule], Recorder.overlapping.
    split; [reflexivity|]. split.
    + exists Recorder.overlapping. split; [|reflexivity].
      right. split; [now left|]. split; [reflexivity|].
      exists false. split; reflexivity.
    + split; [now right|]. split; reflexivity.
Defined.

Lemma trigger_lifecycle_order_witness :
  trigger Recorder.cH Recorder.cG 0 "GO" Recorder.lifecycle
  = (call_opt Recorder.cH (Some "B-enter") ;;; ret true)
      (moved 0 (mkState "B" (Some "B-enter") None None) "B"
         (mkHeap (arrays Recorder.lifecycle) (machines Recorder.lifecycle)
                 ["A-enter"; "A-exit"; "action"])).
Proof.
  refine (trigger_lifecycle_order Recorder.cH Recorder.cG 0 "GO"
            Recorder.lifecycle _ _
            (mkTransition "A" "B" "GO" None (Some "action"))
            Recorder.lifecycle _ _
            (mkState "B" (Some "B-enter") None None)
            (mkHeap (arrays Recorder.lifecycle) (machines Recorder.lifecycle)
                    ["A-enter"; "A-exit"])
            _ _ ["A"] _ _ _ _ _ _ _ _ _ _).
  - vm_compute. reflexivity.
  - reflexivity.
  - exists [], [], Recorder.lifecycle.
    split; [reflexivity|]. split; [reflexivity|].
    split; [now left|]. split; reflexivity.
  - vm_compute. reflexivity.
  - reflexivity.
  - vm_compute. reflexivity.
  - vm_compute. reflexivity.
  - vm_compute. reflexivity.
  - vm_compute. reflexivity.
  - vm_compute. reflexivity.
Defined.

(** C3 as stated fails: with the exact rule for ["GO"] whose guard
    returns false registered before the wildcard rule for ["GO"] whose
    guard returns true, [trigger("GO")] from the exact rule's state does
    try the wildcard rule, returns true and moves to its target. *)
Lemma exact_rule_shadows_wildcard_counterexample :
  (exists m cur,
     machines Recorder.shadowed !! 0 = Some m /\
     transitions m = [Recorder.exact_rule; Recorder.wildcard_rule] /\
     currentState m = Some cur /\ from Recorder.exact_rule = name cur) /\
  event Recorder.exact_rule = event Recorder.wildcard_rule /\
  Recorder.cG false Recorder.shadowed = (Val false, Recorder.shadowed) /\
  from Recorder.wildcard_rule = "*" /\
  Recorder.cG true Recorder.shadowed = (Val true, Recorder.shadowed) /\
  fst (trigger Recorder.cH Recorder.cG 0 "GO" Recorder.shadowed) = Val true /\
  fst (getCurrentState 0
         (snd (trigger Recorder.cH Recorder.cG 0 "GO" Recorder.shadowed)))
  = Val "SAFE".
Proof.
  split; [eexists _, _; vm_compute; repeat split|].
  vm_compute. repeat split.
Qed.

Lemma failed_exact_rule_does_not_shadow_witness :
  trigger Recorder.cH Recorder.cG 0 "GO" Recorder.shadowed
  = (transitionTo Recorder.cH 0 "SAFE" None ;;; ret true) Recorder.shadowed.
Proof.
  refine (failed_exact_rule_does_not_shadow Recorder.cH Recorder.cG 0 "GO"
            Recorder.shadowed _ _ [] Recorder.exact_rule false []
            Recorder.wildcard_rule [] Recorder.shadowed Recorder.shadowed
            Recorder.shadowed Recorder.shadowed _ _ _ _ _ _ _ _ _ _ _ _).
  - vm_compute. reflexivity.
  - reflexivity.
  - reflexivity.
  - reflexivity.
  - reflexivity.
  - reflexivity.
  - reflexivity.
  - reflexivity.
  - reflexivity.
  - reflexivity.
  - reflexivity.
  - reflexivity.
Defined.

Lemma add_rejected_leaves_machine_unchanged_witness :
  addState 0 (mkState "A" (Some "again") None None) Recorder.unstarted
  = (Exc (DuplicateStateError "A"), Recorder.unstarted) /\
  exists r n,
    addTransition 0 (mkTransition "A" "NOWHERE" "GO" None None) Recorder.unstarted
    = (Exc (UnknownStateError r n), Recorder.unstarted).
Proof.
  assert (E : exists m, machines Recorder.unstarted !! 0 = Some m)
    by (eexists; vm_compute; reflexivity).
  destruct E as [m E].
  destruct (add_rejected_leaves_machine_unchanged 0 Recorder.unstarted m E)
    as [H1 H2].
  split.
  - apply (H1 (mkState "A" (Some "again") None None)).
    vm_compute in E. inversion E. vm_compute. eauto.
  - apply (H2 (mkTransition "A" "NOWHERE" "GO" None None)).
    left. vm_compute in E. inversion E. vm_compute. reflexivity.
Defined.

Lemma not_started_operations_witness :
  trigger Recorder.cH Recorder.cG 0 "GO" Recorder.unstarted
    = (Exc NotStartedError, Recorder.unstarted) /\
  getCurrentState 0 Recorder.unstarted = (Exc NotStartedError, Recorder.unstarted) /\
  update Recorder.cU 0 (double_of_Z 16) Recorder.unstarted
    = (Exc NotStartedError, Recorder.unstarted) /\
  canTransition Recorder.cG 0 "GO" Recorder.unstarted
    = (Val false, Recorder.unstarted).
Proof.
  refine (not_started_operations Recorder.cH Recorder.cU Recorder.cG
            Recorder.empty
            [ OpAddState (mkState "A" None None None);
              OpAddState (mkState "B" None None None);
              OpAddTransition Recorder.late_rule ] "GO" (double_of_Z 16) _).
  reflexivity.
Defined.

Lemma start_behaviour_witness :
  fsm_start 0 "NOWHERE" Journal.built
    = (Exc (UnknownStateError InitialRole "NOWHERE"), Journal.built) /\
  (exists m,
     machines Journal.built !! 0 = Some m /\
     fsm_start 0 "BROKEN" Journal.built
     = (Exc (Fault "boom"),
        mkHeap [["BROKEN"]] [set_currentState (Some Journal.broken) m]
               (Journal.note "BROKEN" (user Journal.built)))) /\
  fsm_start 0 "RED" (snd (fsm_start 0 "BROKEN" Journal.built))
    = (Exc AlreadyStartedError, snd (fsm_start 0 "BROKEN" Journal.built)).
Proof.
  assert (E : exists m, machines Journal.built !! 0 = Some m)
    by (eexists; vm_compute; reflexivity).
  destruct E as [m E].
  destruct (start_behaviour callHook 0 "NOWHERE" Journal.built m E)
    as (H1 & _ & _).
  destruct (start_behaviour callHook 0 "BROKEN" Journal.built m E)
    as (_ & _ & H3).
  assert (E' : exists m', machines (snd (fsm_start 0 "BROKEN" Journal.built)) !! 0
                          = Some m')
    by (eexists; vm_compute; reflexivity).
  destruct E' as [m' E'].
  destruct (start_behaviour callHook 0 "RED"
              (snd (fsm_start 0 "BROKEN" Journal.built)) m' E')
    as (_ & H2 & _).
  pose proof E as Em. vm_compute in Em. inversion Em as [Hm].
  pose proof E' as Em'. vm_compute in Em'. inversion Em' as [Hm'].
  split; [|split].
  - apply H1. rewrite <- Hm. vm_compute. reflexivity.
  - exists m. split; [exact E|].
    assert (Hb : states m !! "BROKEN" = Some Journal.broken)
      by (rewrite <- Hm; vm_compute; reflexivity).
    assert (Hc : currentState m = None) by (now rewrite <- Hm).
    assert (Ha : arrays Journal.built !! history m = Some [])
      by (now rewrite <- Hm).
    destruct (H3 Journal.broken [] Hb Hc Ha) as (_ & _ & _ & H4).
    rewrite (H4 _ eq_refl). rewrite <- Hm. vm_compute. reflexivity.
  - apply (H2 Journal.red Journal.broken); rewrite <- Hm'; vm_compute; reflexivity.
Defined.

Example start_twice :
  start Recorder.cH 0 "B" Recorder.shadowed
  = (Exc AlreadyStartedError, Recorder.shadowed).
Proof. vm_compute. reflexivity. Qed.

(** An [onEnter] that throws: the exception reaches the caller of
    [start], and the machine is started all the same. *)
Example start_propagates_fault :
  let boom := Native (fun w => (Exc (Fault "boom"), w)) in
  let h := snd ((fsm <- new_StateMachine ;;
                 addState fsm (mkState "A" (Some boom) None None)) empty_heap) in
  fst (fsm_start 0 "A" h) = Exc (Fault "boom") /\
  fst (getCurrentState 0 (snd (fsm_start 0 "A" h))) = Val "A" /\
  arrays (snd (fsm_start 0 "A" h)) = [["A"]].
Proof. vm_compute. repeat split. Qed.

Lemma empty_ok {Hook UpdateHook Guard U} (u : U) :
  all_machines_ok (mkHeap (Hook := Hook) (UpdateHook := UpdateHook)
                          (Guard := Guard) [] [] u).
Proof. split; simpl; intros; discriminate. Defined.

Lemma recorder_outside :
  (forall c, outside (Recorder.cH c)) /\
  (forall c dt, outside (Recorder.cU c dt)) /\
  (forall c, outside (Recorder.cG c)).
Proof.
  repeat split; intros; intros h.
  - exists tt, (user h ++ [c]). reflexivity.
  - exists tt, (user h ++ [c]). reflexivity.
  - exists c, (user h). now destruct h.
Defined.

End Doubles.

(** The closures of the repository maintain the property: a native
    closure stays outside the store, the peer guard only reads, and the
    timer update goes through [trigger]. *)
Section RepositoryClosures.
Context {N : Number}.

Lemma lift_keeps {A} target (f : World -> Outcome A * World) :
  keeps (ok_at target) (lift f).
Proof.
  intros h Hh. unfold lift. destruct (f (user h)) as [o w]. simpl.
  now apply at_frame.
Defined.

Lemma callHook_keeps target c : keeps (ok_at target) (callHook c).
Proof. destruct c. apply lift_keeps. Defined.

Lemma callGuard_keeps target c : keeps (ok_at target) (callGuard c).
Proof.
  destruct c as [f|peer]; [apply lift_keeps|].
  intros h Hh. unfold callGuard, try_catch, getCurrentState, bind, deref.
  destruct (machines h !! peer) as [m|]; [|assumption].
  now destruct (currentState m).
Defined.

Lemma callUpdate_keeps target c dt : keeps (ok_at target) (callUpdate c dt).
Proof.
  destruct c as [f|cell d fsm]; [apply lift_keeps|].
  unfold callUpdate.
  apply keeps_bind; [apply lift_keeps|]. intros t.
  apply keeps_bind; [apply lift_keeps|]. intros _.
  apply keeps_bind; [apply lift_keeps|]. intros t'.
  destruct (d <=? t')%num; [|apply keeps_ret].
  apply keeps_bind; [|intros; apply keeps_ret].
  apply keeps_trigger; [apply callHook_keeps | apply callGuard_keeps].
Defined.

(** The closures of the light states that keep a record are of the four
    classes: the two [onEnter] hooks write the name, and the update
    closure of a light goes through [trigger]. *)
Lemma journal_recorded :
  closures_recorded callHook callUpdate callGuard callOrder []
                    Journal.enters Journal.quiet Journal.quietU Journal.quietG 0.
Proof.
  assert (He : forall c n, Journal.enters c n ->
            forall h, recorded callOrder [] Journal.enters Journal.quiet
                               Journal.quietU Journal.quietG 0 [n] h ->
                      recorded callOrder [] Journal.enters Journal.quiet
                               Journal.quietU Journal.quietG 0 []
                               (snd (callHook c h))).
  { intros c n [[cell ->] | ->] h Hh; simpl; unfold lift; simpl;
      (eapply recorded_frame; [exact Hh | simpl; now rewrite app_nil_r]). }
  assert (Hq : forall c, Journal.quiet c ->
            keeps (recorded callOrder [] Journal.enters Journal.quiet
                            Journal.quietU Journal.quietG 0 []) (callHook c)).
  { intros c -> h Hh. simpl. unfold lift. simpl.
    eapply recorded_frame; [exact Hh | reflexivity]. }
  assert (Hg : forall c, Journal.quietG c ->
            keeps (recorded callOrder [] Journal.enters Journal.quiet
                            Journal.quietU Journal.quietG 0 []) (callGuard c)).
  { intros c []. }
  split; [exact He|]. split; [exact Hq|]. split; [|exact Hg].
  intros c dt (cell & d & ->).
  assert (Hlift : forall A (f : World -> Outcome A * World),
            (forall w, callOrder (snd (f w)) = callOrder w) ->
            keeps (recorded callOrder [] Journal.enters Journal.quiet
                            Journal.quietU Journal.quietG 0 []) (lift f)).
  { intros A f Hf h Hh. unfold lift. specialize (Hf (user h)).
    destruct (f (user h)) as [o w]. simpl in *.
    eapply recorded_frame; [exact Hh | now rewrite Hf]. }
  unfold callUpdate.
  apply keeps_bind; [apply Hlift; intros w; now destruct (timer w !! cell)|].
  intros t. apply keeps_bind; [now apply Hlift|]. intros _.
  apply keeps_bind; [apply Hlift; intros w; now destruct (timer w !! cell)|].
  intros t'. destruct (d <=? t')%num; [|apply keeps_ret].
  apply keeps_bind; [|intros; apply keeps_ret].
  now apply (trigger_recorded callHook callGuard callOrder [] Journal.enters
               Journal.quiet Journal.quietU Journal.quietG 0 He Hq Hg).
Defined.

Lemma journal_session_recorded :
  Forall (op_recorded Journal.enters Journal.quiet Journal.quietU Journal.quietG)
         Journal.session.
Proof.
  assert (Hs : forall s, s = Journal.red \/ s = Journal.green \/ s = Journal.broken ->
            state_recorded Journal.enters Journal.quiet Journal.quietU (name s) s).
  { intros s [-> | [-> | ->]]; (split; [|split]); simpl.
    - eexists. split; [reflexivity|]. left. now eexists.
    - now intros c [= <-].
    - intros c [= <-]. now eexists _, _.
    - eexists. split; [reflexivity|]. left. now eexists.
    - now intros c [= <-].
    - intros c [= <-]. now eexists _, _.
    - eexists. split; [reflexivity|]. now right.
    - now intros c [= <-].
    - discriminate. }
  assert (Ht : forall t, guard t = None -> action t = None ->
                         rule_recorded Journal.quiet Journal.quietG t).
  { intros t Hg Ha. split; intros c Hc; congruence. }
  unfold Journal.session, Journal.setup. cbn [app].
  repeat constructor;
    first [ exact I | apply (Hs _); tauto | apply Ht; reflexivity ].
Defined.
End RepositoryClosures.

Section Session.
#[local] Existing Instance double.

Lemma getHistory_returns_independent_copy_witness :
  (let h := run_ops callHook callUpdate callGuard 0 Journal.session
              (snd (new_StateMachine Journal.objects)) in
   exists r h',
     getHistory 0 h = (Val r, h') /\
     arrays h' !! r = Some ["RED"; "GREEN"; "BROKEN"; "RED"] /\
     callOrder (user h) = ["RED"; "GREEN"; "BROKEN"; "RED"] /\
     arrays h !! r = None /\
     forall l', exists r2 h3,
       getHistory 0 (mutate r l' h') = (Val r2, h3) /\
       arrays h3 !! r2 = Some ["RED"; "GREEN"; "BROKEN"; "RED"]) /\
  (exists r h',
     getHistory 0 (Recorder.setup Recorder.walk) = (Val r, h') /\
     arrays h' !! r = Some ["A"; "B"; "C"] /\
     arrays (Recorder.setup Recorder.walk) !! r = None /\
     forall l', exists r2 h3,
       getHistory 0 (mutate r l' h') = (Val r2, h3) /\
       arrays h3 !! r2 = Some ["A"; "B"; "C"]).
Proof.
  split.
  - intros h.
    destruct (getHistory_returns_independent_copy callHook callUpdate callGuard
                Journal.objects Journal.session (empty_ok _)
                (callHook_keeps 0) (callUpdate_keeps 0) (callGuard_keeps 0))
      as (r & h' & l & Hg & Hr & Hfresh & Hind & Hlog & _).
    specialize (Hlog callOrder Journal.enters Journal.quiet Journal.quietU
                     Journal.quietG journal_recorded journal_session_recorded).
    assert (Hc : callOrder (user h) = ["RED"; "GREEN"; "BROKEN"; "RED"])
      by (vm_compute; reflexivity).
    change (callOrder (user h) = l) in Hlog. rewrite Hc in Hlog. subst l.
    exists r, h'. exact (conj Hg (conj Hr (conj Hc (conj Hfresh Hind)))).
  - destruct (getHistory_returns_independent_copy Recorder.cH Recorder.cU
                Recorder.cG Recorder.empty Recorder.walk (empty_ok _)
                (fun c => outside_keeps 0 _ (proj1 recorder_outside c))
                (fun c dt => outside_keeps 0 _ (proj1 (proj2 recorder_outside) c dt))
                (fun c => outside_keeps 0 _ (proj2 (proj2 recorder_outside) c)))
      as (r & h' & l & Hg & Hr & Hfresh & Hind & _ & Hl).
    assert (l = ["A"; "B"; "C"]) as ->.
    { rewrite (Hl (proj1 recorder_outside) (proj1 (proj2 recorder_outside))
                 (proj2 (proj2 recorder_outside))).
      vm_compute. reflexivity. }
    exists r, h'. auto.
Defined.

Lemma current_state_is_last_of_history_witness :
  consistent 0
    (run_ops callHook callUpdate callGuard 0 StuckLight.session
       (snd (new_StateMachine StuckLight.objects))).
Proof.
  exact (current_state_is_last_of_history callHook callUpdate callGuard
           StuckLight.objects StuckLight.session (empty_ok _)
           (callHook_keeps 0) (callUpdate_keeps 0) (callGuard_keeps 0)).
Defined.
End Session.

(** * Further properties of the engine *)

Section EngineExtras.
Context {Hook UpdateHook Guard U Num : Type}.
Variable cH : Hook -> M Hook UpdateHook Guard U unit.
Variable cU : UpdateHook -> Num -> M Hook UpdateHook Guard U unit.
Variable cG : Guard -> M Hook UpdateHook Guard U bool.

Implicit Types (h : Heap Hook UpdateHook Guard U)
               (m : StateMachine Hook UpdateHook Guard)
               (s : State Hook UpdateHook)
               (t : Transition Hook Guard)
               (P : Heap Hook UpdateHook Guard U -> Prop)
               (u : U).

(** X1. [canTransition] and [trigger] run the same scan: [trigger] returns
    false exactly when [canTransition] does, from the same heap to the
    same heap; when [canTransition] returns true, [trigger] goes on to
    the transition of a rule of the table; and what a guard throws comes
    out of both. *)
Theorem canTransition_agrees_with_trigger this ev h m cur :
  machines h !! this = Some m -> currentState m = Some cur ->
  match canTransition cG this ev h with
  | (Val true, h1) =>
      exists t, t ∈ transitions m /\
        trigger cH cG this ev h
        = (transitionTo cH this (to t) (action t) ;;; ret true) h1 /\
        fst (trigger cH cG this ev h) <> Val false
  | (Val false, h1) => trigger cH cG this ev h = (Val false, h1)
  | (Exc e, h1) => trigger cH cG this ev h = (Exc e, h1)
  end.
Proof.
  intros E Hc.
  pose proof (trigger_started cH cG this ev h m cur E Hc) as Ht.
  unfold bind at 1 in Ht.
  assert (Hcan : canTransition cG this ev h =
            let (o, h1) := find (rule_matches cG (name cur) ev) (transitions m) h in
            match o with
            | Val r => (Val (bool_decide (is_Some r)), h1)
            | Exc e => (Exc e, h1)
            end).
  { unfold canTransition. rewrite (bind_deref _ _ _ _ E), Hc. reflexivity. }
  rewrite Hcan. clear Hcan.
  destruct (find (rule_matches cG (name cur) ev) (transitions m) h)
    as [[[t|]|e] h1] eqn:Hf; simpl; try exact Ht.
  exists t. split; [eapply find_elem; eauto|]. split; [exact Ht|].
  rewrite Ht. unfold bind.
  destruct (transitionTo cH this (to t) (action t) h1) as [[[]|e] h2];
    simpl; discriminate.
Qed.

(** X2. With guards that leave the heap as they found it, [canTransition]
    leaves the heap as it found it, started or not, transition or not. *)
Theorem canTransition_read_only this ev h :
  (forall g, read_only (cG g)) ->
  snd (canTransition cG this ev h) = h.
Proof.
  intros HG. unfold canTransition, bind, deref.
  destruct (machines h !! this) as [m|]; [|reflexivity].
  destruct (currentState m) as [cur|]; [|reflexivity].
  assert (Hfind : forall l h0, snd (find (rule_matches cG (name cur) ev) l h0) = h0).
  { induction l as [|t l IH]; intros h0; simpl; [reflexivity|].
    unfold bind.
    assert (Hr : snd (rule_matches cG (name cur) ev t h0) = h0).
    { unfold rule_matches. destruct (_ && _); [|reflexivity].
      destruct (guard t); [apply HG | reflexivity]. }
    destruct (rule_matches cG (name cur) ev t h0) as [[[|]|e] h1];
      simpl in Hr; subst h1; simpl; auto. }
  specialize (Hfind (transitions m) h).
  destruct (find _ _ h) as [[r|e] h1]; simpl in *; assumption.
Qed.


(** *** Properties of one machine that the operations maintain *)

Lemma keeps_throw {A} (P : Heap Hook UpdateHook Guard U -> Prop) e :
  keeps P (throw e : M Hook UpdateHook Guard U A).
Proof. intros h Hh. exact Hh. Qed.

Section Stable.
Variable Pm : StateMachine Hook UpdateHook Guard -> Prop.
Variable target : nat.
Hypothesis Pm_move : forall m s, Pm m -> Pm (set_currentState (Some s) m).

Local Abbreviation holds := (@machine_has Hook UpdateHook Guard U Pm target).

Lemma has_frame h a u :
  machines h = machines (mkHeap a (machines h) u) /\
  (holds h -> holds (mkHeap a (machines h) u)).
Proof. split; [reflexivity|]. intros (m & E & Hm). now exists m. Qed.

Lemma has_deref this : keeps holds (deref this).
Proof. intros h Hh. unfold deref. now destruct (machines h !! this). Qed.

Lemma has_push a n : keeps holds (push a n).
Proof.
  intros h Hh. unfold push. destruct (arrays h !! a); [|assumption].
  now apply has_frame.
Qed.

Lemma has_assign this f h :
  holds h -> (forall m, machines h !! this = Some m -> Pm m -> Pm (f m)) ->
  holds (snd (assign this f h)).
Proof.
  intros (m & E & Hm) Hf. unfold assign.
  destruct (machines h !! this) as [m'|] eqn:E'; [|now exists m].
  simpl. destruct (decide (this = target)) as [->|Hne].
  - exists (f m'). split.
    + apply list_lookup_insert_eq. eapply lookup_lt_Some; eauto.
    + apply Hf; [reflexivity|congruence].
  - exists m. split; [|assumption]. simpl. now rewrite list_lookup_insert_ne.
Qed.

Lemma has_move this s : keeps holds (assign this (set_currentState (Some s))).
Proof. intros h Hh. apply has_assign; [assumption|]. intros; now apply Pm_move. Qed.

Section Closures.
Hypothesis hooks_keep : forall c, keeps holds (cH c).
Hypothesis updates_keep : forall c dt, keeps holds (cU c dt).
Hypothesis guards_keep : forall c, keeps holds (cG c).

Lemma has_enter this s n :
  keeps holds
    (assign this (set_currentState (Some s)) ;;;
     m <- deref this ;; push (history m) n ;;; call_opt cH (onEnter s)).
Proof.
  apply keeps_bind; [apply has_move|]. intros _.
  apply keeps_bind; [apply has_deref|]. intros m.
  apply keeps_bind; [apply has_push|]. intros _.
  apply keeps_call_opt, hooks_keep.
Qed.

Lemma has_start this n : keeps holds (start cH this n).
Proof.
  unfold start. apply keeps_bind; [apply has_deref|]. intros m.
  destruct (states m !! n); [|solve [apply keeps_ret | apply keeps_throw]].
  destruct (currentState m); [solve [apply keeps_ret | apply keeps_throw] | apply has_enter].
Qed.

Lemma has_find cur ev l : keeps holds (find (rule_matches cG cur ev) l).
Proof.
  induction l as [|t l IH]; simpl; [solve [apply keeps_ret | apply keeps_throw]|].
  apply keeps_bind.
  - unfold rule_matches. destruct (_ && _); [|solve [apply keeps_ret | apply keeps_throw]].
    destruct (guard t); [apply guards_keep | solve [apply keeps_ret | apply keeps_throw]].
  - intros [|]; [solve [apply keeps_ret | apply keeps_throw] | apply IH].
Qed.

Lemma has_transitionTo this n act : keeps holds (transitionTo cH this n act).
Proof.
  unfold transitionTo. apply keeps_bind; [apply has_deref|]. intros m.
  destruct (states m !! n); [|solve [apply keeps_ret | apply keeps_throw]].
  apply keeps_bind.
  { destruct (currentState m); [|solve [apply keeps_ret | apply keeps_throw]].
    apply keeps_call_opt, hooks_keep. }
  intros _. apply keeps_bind; [apply keeps_call_opt, hooks_keep|].
  intros _. apply has_enter.
Qed.

Lemma has_trigger this ev : keeps holds (trigger cH cG this ev).
Proof.
  unfold trigger. apply keeps_bind; [apply has_deref|]. intros m.
  destruct (currentState m); [|solve [apply keeps_ret | apply keeps_throw]].
  apply keeps_bind; [apply has_find|]. intros [t|]; [|solve [apply keeps_ret | apply keeps_throw]].
  apply keeps_bind; [apply has_transitionTo | intros; solve [apply keeps_ret | apply keeps_throw]].
Qed.

Lemma has_update this dt : keeps holds (update cU this dt).
Proof.
  unfold update. apply keeps_bind; [apply has_deref|]. intros m.
  destruct (currentState m) as [cur|]; [|solve [apply keeps_ret | apply keeps_throw]].
  destruct (onUpdate cur); [apply updates_keep | solve [apply keeps_ret | apply keeps_throw]].
Qed.

Lemma has_canTransition this ev : keeps holds (canTransition cG this ev).
Proof.
  unfold canTransition. apply keeps_bind; [apply has_deref|]. intros m.
  destruct (currentState m); [|solve [apply keeps_ret | apply keeps_throw]].
  apply keeps_bind; [apply has_find | intros; solve [apply keeps_ret | apply keeps_throw]].
Qed.

Lemma has_getCurrentState this : keeps holds (getCurrentState this).
Proof.
  unfold getCurrentState. apply keeps_bind; [apply has_deref|]. intros m.
  destruct (currentState m); solve [apply keeps_ret | apply keeps_throw].
Qed.

Lemma has_getHistory this : keeps holds (getHistory this).
Proof.
  unfold getHistory. apply keeps_bind; [apply has_deref|]. intros m.
  apply keeps_bind.
  { intros h Hh. unfold read_array. now destruct (arrays h !! history m). }
  intros l h Hh. unfold new_array. simpl. now apply has_frame.
Qed.

(** [addState] and [addTransition] write the registry and the table. *)
Hypothesis Pm_addState : forall m s,
  Pm m -> states m !! name s = None ->
  Pm (set_states (<[name s := s]> (states m)) m).
Hypothesis Pm_addTransition : forall m t,
  Pm m -> from t = "*" \/ is_Some (states m !! from t) ->
  is_Some (states m !! to t) ->
  Pm (set_transitions (transitions m ++ [t]) m).

Lemma has_addState this s : keeps holds (addState this s).
Proof.
  intros h Hh. unfold addState, bind, deref.
  destruct (machines h !! this) as [m'|] eqn:E'; [|assumption].
  destruct (decide (is_Some (states m' !! name s))) as [|Hno]; [assumption|].
  apply has_assign; [assumption|]. intros m E Hm.
  apply Pm_addState; [assumption|].
  apply eq_None_not_Some. congruence.
Qed.

Lemma has_addTransition this t : keeps holds (addTransition this t).
Proof.
  intros h Hh. unfold addTransition, bind, deref.
  destruct (machines h !! this) as [m'|] eqn:E'; [|assumption].
  destruct (negb (String.eqb (from t) "*") && negb (has m' (from t))) eqn:Hsrc;
    [assumption|].
  destruct (negb (has m' (to t))) eqn:Htgt; [assumption|].
  apply has_assign; [assumption|]. intros m E Hm.
  assert (m = m') as -> by congruence.
  apply Pm_addTransition; [assumption| |].
  - apply andb_false_iff in Hsrc as [Hs|Hs]; apply negb_false_iff in Hs.
    + left. now apply String.eqb_eq.
    + right. unfold has in Hs. now apply bool_decide_eq_true in Hs.
  - apply negb_false_iff in Htgt. unfold has in Htgt.
    now apply bool_decide_eq_true in Htgt.
Qed.

Lemma has_run_op this op : keeps holds (run_op cH cU cG this op).
Proof.
  destruct op; simpl.
  - apply has_addState.
  - apply has_addTransition.
  - apply has_start.
  - apply keeps_bind; [apply has_trigger | intros; solve [apply keeps_ret | apply keeps_throw]].
  - apply has_update.
  - apply keeps_bind; [apply has_canTransition | intros; solve [apply keeps_ret | apply keeps_throw]].
  - apply keeps_bind; [apply has_getCurrentState | intros; solve [apply keeps_ret | apply keeps_throw]].
  - apply keeps_bind; [apply has_getHistory | intros; solve [apply keeps_ret | apply keeps_throw]].
Qed.

Lemma has_run_ops this ops h :
  holds h -> holds (run_ops cH cU cG this ops h).
Proof.
  revert h. induction ops as [|op ops IH]; simpl; intros h Hh; [assumption|].
  apply IH. now apply has_run_op.
Qed.
End Closures.
End Stable.

Lemma outside_has {A} Pm target (c : M Hook UpdateHook Guard U A) :
  outside c -> keeps (machine_has Pm target) c.
Proof.
  intros Hc h Hh. destruct (Hc h) as (a & u & ->). simpl.
  now apply (has_frame Pm target h).
Qed.

Lemma grown_move S T m s :
  grown_from S T m -> grown_from S T (set_currentState (Some s) m).
Proof. intros H. exact H. Qed.

Lemma grown_addState S T m s :
  grown_from S T m -> states m !! name s = None ->
  grown_from S T (set_states (<[name s := s]> (states m)) m).
Proof.
  intros [HS HT] Hnew. split; [|exact HT]. intros n s' Hn. simpl.
  rewrite lookup_insert_ne; [now apply HS|].
  intros <-. apply HS in Hn. congruence.
Qed.

Lemma grown_addTransition S T m t :
  grown_from S T m -> grown_from S T (set_transitions (transitions m ++ [t]) m).
Proof.
  intros [HS HT]. split; [exact HS|]. simpl. now apply prefix_app_r.
Qed.

(** X4. Nothing removes a state or a rule.  Whatever sequence of operations
    runs on machine [this], every state machine [target] has registered
    stays registered under its name, with the same hooks, and the rules
    of [target] stay where they are in its table, new ones coming after
    them: the closures may add states and rules to [target] themselves, as
    long as they do it through the engine, which is what the hypotheses
    say. *)
Theorem states_and_rules_only_grow this target ops h m :
  machines h !! target = Some m ->
  (forall c, keeps (machine_has (grown_from (states m) (transitions m)) target) (cH c)) ->
  (forall c dt, keeps (machine_has (grown_from (states m) (transitions m)) target) (cU c dt)) ->
  (forall c, keeps (machine_has (grown_from (states m) (transitions m)) target) (cG c)) ->
  exists m', machines (run_ops cH cU cG this ops h) !! target = Some m' /\
    (forall n s, states m !! n = Some s -> states m' !! n = Some s) /\
    transitions m `prefix_of` transitions m'.
Proof.
  intros E HH HU HG.
  apply (has_run_ops (grown_from (states m) (transitions m)) target).
  - intros; now apply grown_move.
  - assumption.
  - assumption.
  - assumption.
  - intros; now apply grown_addState.
  - intros; now apply grown_addTransition.
  - exists m. split; [assumption|]. split; [tauto | reflexivity].
Qed.

Lemma table_ok_move m s : table_ok m -> table_ok (set_currentState (Some s) m).
Proof. intros H. exact H. Qed.

Lemma table_ok_addState m s :
  table_ok m -> states m !! name s = None ->
  table_ok (set_states (<[name s := s]> (states m)) m).
Proof.
  intros H _ t Ht. destruct (H t Ht) as [Hto Hfrom]. simpl. split.
  - destruct (decide (name s = to t)) as [->|Hne].
    + rewrite lookup_insert_eq. eauto.
    + now rewrite lookup_insert_ne.
  - destruct Hfrom as [|Hfrom]; [now left|right].
    destruct (decide (name s = from t)) as [->|Hne].
    + rewrite lookup_insert_eq. eauto.
    + now rewrite lookup_insert_ne.
Qed.

Lemma table_ok_addTransition m t :
  table_ok m -> from t = "*" \/ is_Some (states m !! from t) ->
  is_Some (states m !! to t) ->
  table_ok (set_transitions (transitions m ++ [t]) m).
Proof.
  intros H Hfrom Hto t' Ht'. simpl in *.
  apply elem_of_app in Ht' as [Ht'|Ht']; [now apply H|].
  apply list_elem_of_singleton in Ht' as ->. now split.
Qed.

(** X5. A rule never leads nowhere.  [transitionTo] throws when the target
    of the selected rule is not registered, but on a machine made by
    [new StateMachine()] and configured through [addState] and
    [addTransition] that cannot happen: after any sequence of operations,
    with closures that return and stay outside the engine's store,
    [trigger] returns a boolean, or, on a machine not yet started, throws
    the not-started error and leaves the store as it is. *)
Theorem trigger_returns_on_built_machine h0 ops ev :
  (forall c, outside (cH c)) -> (forall c dt, outside (cU c dt)) ->
  (forall c, outside (cG c)) ->
  let this := length (machines h0) in
  let h := run_ops cH cU cG this ops (snd (new_StateMachine h0)) in
  (exists b h', trigger cH cG this ev h = (Val b, h')) \/
  trigger cH cG this ev h = (Exc NotStartedError, h).
Proof.
  intros HH HU HG this h.
  assert (Hhist : history_is this (visited cH cU cG this ops (snd (new_StateMachine h0))) h).
  { apply (visited_run cH cU cG this HH HU HG []).
    apply history_is_new_StateMachine. }
  assert (Htab : machine_has table_ok this h).
  { apply (has_run_ops table_ok this).
    - intros; now apply table_ok_move.
    - intros; now apply outside_has.
    - intros; now apply outside_has.
    - intros; now apply outside_has.
    - intros; now apply table_ok_addState.
    - intros; now apply table_ok_addTransition.
    - destruct (history_is_new_StateMachine h0) as (m0 & E0 & _).
      unfold new_StateMachine, bind, new_array in *. simpl in *.
      exists m0. split; [exact E0|].
      rewrite lookup_app_r in E0 by reflexivity.
      rewrite Nat.sub_diag in E0. injection E0 as <-.
      intros t Ht. simpl in Ht. now apply elem_of_nil in Ht. }
  destruct Htab as (m & E & Htab).
  destruct (currentState m) as [cur|] eqn:Hc.
  - left. rewrite (trigger_started cH cG this ev h m cur E Hc). unfold bind at 1.
    destruct (outside_find cG (name cur) ev (transitions m) HG h) as (r & u & Hr).
    rewrite Hr.
    destruct r as [t|]; [|eexists _, _; reflexivity].
    pose proof (find_elem _ _ _ _ _ Hr) as Ht.
    destruct (Htab t Ht) as [[s' Hs'] _].
    set (h1 := mkHeap (arrays h) (machines h) u).
    assert (Hhist1 : history_is this (visited cH cU cG this ops (snd (new_StateMachine h0))) h1)
      by now apply history_is_frame.
    destruct (transitionTo_outside cH this HH _ (to t) (action t) h1 m s' Hhist1 E Hs')
      as (h' & Ht' & _).
    unfold bind. rewrite Ht'. eexists _, _; reflexivity.
  - right. unfold trigger, bind, deref. now rewrite E, Hc.
Qed.

Lemma started_move m s : is_started m -> is_started (set_currentState (Some s) m).
Proof. intros _. now exists s. Qed.

(** X6. The engine has no way back to the unstarted state.  Once machine
    [target] has a current state, it has one after any sequence of
    operations on any machine: [getCurrentState] returns a name, and
    [start] throws, whatever its argument, and changes nothing. *)
Theorem started_is_permanent this target ops h :
  (forall c, keeps (machine_has is_started target) (cH c)) ->
  (forall c dt, keeps (machine_has is_started target) (cU c dt)) ->
  (forall c, keeps (machine_has is_started target) (cG c)) ->
  machine_has is_started target h ->
  let h' := run_ops cH cU cG this ops h in
  (exists n, getCurrentState target h' = (Val n, h')) /\
  (forall n, exists e, start cH target n h' = (Exc e, h')).
Proof.
  intros HH HU HG Hh h'.
  assert (Hs : machine_has is_started target h').
  { apply (has_run_ops is_started target); try assumption.
    - intros; now apply started_move.
    - intros m s [c Hc] _. now exists c.
    - intros m t [c Hc] _ _. now exists c. }
  destruct Hs as (m & E & cur & Hc). split.
  - exists (name cur). unfold getCurrentState, bind, deref. now rewrite E, Hc.
  - intros n. unfold start, bind, deref. rewrite E.
    destruct (states m !! n); [|eexists; reflexivity].
    rewrite Hc. eexists; reflexivity.
Qed.
End EngineExtras.

(** * The further properties at work on the machines of the test suite *)

Section AtWork.
#[local] Existing Instance double.

Lemma canTransition_agrees_with_trigger_witness :
  exists m cur,
    machines Recorder.overlapping !! 0 = Some m /\ currentState m = Some cur /\
    match canTransition Recorder.cG 0 "GO" Recorder.overlapping with
    | (Val true, h1) =>
        exists t, t ∈ transitions m /\
          trigger Recorder.cH Recorder.cG 0 "GO" Recorder.overlapping
          = (transitionTo Recorder.cH 0 (to t) (action t) ;;; ret true) h1 /\
          fst (trigger Recorder.cH Recorder.cG 0 "GO" Recorder.overlapping)
          <> Val false
    | (Val false, h1) =>
        trigger Recorder.cH Recorder.cG 0 "GO" Recorder.overlapping = (Val false, h1)
    | (Exc e, h1) =>
        trigger Recorder.cH Recorder.cG 0 "GO" Recorder.overlapping = (Exc e, h1)
    end.
Proof.
  assert (E : exists m cur, machines Recorder.overlapping !! 0 = Some m /\
                            currentState m = Some cur)
    by (eexists _, _; vm_compute; split; reflexivity).
  destruct E as (m & cur & E & Hc). exists m, cur.
  split; [exact E|]. split; [exact Hc|].
  exact (canTransition_agrees_with_trigger Recorder.cH Recorder.cG 0 "GO"
           Recorder.overlapping m cur E Hc).
Defined.

Lemma canTransition_read_only_witness :
  snd (canTransition Recorder.cG 0 "GO" Recorder.overlapping)
  = Recorder.overlapping.
Proof.
  apply canTransition_read_only. intros g h. reflexivity.
Defined.


Lemma states_and_rules_only_grow_witness :
  exists m m',
    machines Recorder.unstarted !! 0 = Some m /\
    machines (run_ops Recorder.cH Recorder.cU Recorder.cG 0
                [OpAddState (mkState "C" None None None);
                 OpAddTransition (mkTransition "*" "C" "GO" None None);
                 OpStart "A"; OpTrigger "GO"]
                Recorder.unstarted) !! 0 = Some m' /\
    (forall n s, states m !! n = Some s -> states m' !! n = Some s) /\
    transitions m `prefix_of` transitions m'.
Proof.
  assert (E : exists m, machines Recorder.unstarted !! 0 = Some m)
    by (eexists; vm_compute; reflexivity).
  destruct E as (m & E). exists m.
  destruct (states_and_rules_only_grow Recorder.cH Recorder.cU Recorder.cG 0 0
              [OpAddState (mkState "C" None None None);
               OpAddTransition (mkTransition "*" "C" "GO" None None);
               OpStart "A"; OpTrigger "GO"]
              Recorder.unstarted m E) as (m' & H).
  - intros c. apply outside_has, recorder_outside.
  - intros c dt. apply outside_has, recorder_outside.
  - intros c. apply outside_has, recorder_outside.
  - exists m'. split; [exact E | exact H].
Defined.

Lemma trigger_returns_on_built_machine_witness :
  (exists b h',
     trigger Recorder.cH Recorder.cG 0 "NEXT"
       (run_ops Recorder.cH Recorder.cU Recorder.cG 0 Recorder.walk
          (snd (new_StateMachine Recorder.empty))) = (Val b, h')) \/
  trigger Recorder.cH Recorder.cG 0 "NEXT"
    (run_ops Recorder.cH Recorder.cU Recorder.cG 0 Recorder.walk
       (snd (new_StateMachine Recorder.empty)))
  = (Exc NotStartedError,
     run_ops Recorder.cH Recorder.cU Recorder.cG 0 Recorder.walk
       (snd (new_StateMachine Recorder.empty))).
Proof.
  exact (trigger_returns_on_built_machine Recorder.cH Recorder.cU Recorder.cG
           Recorder.empty Recorder.walk "NEXT"
           (proj1 recorder_outside) (proj1 (proj2 recorder_outside))
           (proj2 (proj2 recorder_outside))).
Defined.

Lemma started_is_permanent_witness :
  (exists n, getCurrentState 0
               (run_ops Recorder.cH Recorder.cU Recorder.cG 0
                  [OpTrigger "GO"; OpStart "A"; OpUpdate (double_of_Z 16)] Recorder.lifecycle)
             = (Val n, run_ops Recorder.cH Recorder.cU Recorder.cG 0
                  [OpTrigger "GO"; OpStart "A"; OpUpdate (double_of_Z 16)] Recorder.lifecycle)) /\
  (forall n, exists e,
     start Recorder.cH 0 n
       (run_ops Recorder.cH Recorder.cU Recorder.cG 0
          [OpTrigger "GO"; OpStart "A"; OpUpdate (double_of_Z 16)] Recorder.lifecycle)
     = (Exc e, run_ops Recorder.cH Recorder.cU Recorder.cG 0
          [OpTrigger "GO"; OpStart "A"; OpUpdate (double_of_Z 16)] Recorder.lifecycle)).
Proof.
  apply (started_is_permanent Recorder.cH Recorder.cU Recorder.cG 0 0
           [OpTrigger "GO"; OpStart "A"; OpUpdate (double_of_Z 16)] Recorder.lifecycle).
  - intros c. apply outside_has, recorder_outside.
  - intros c dt. apply outside_has, recorder_outside.
  - intros c. apply outside_has, recorder_outside.
  - eexists. split; [vm_compute; reflexivity|]. eexists. reflexivity.
Defined.

End AtWork.

(** * Further properties of the intersection *)

Section IntersectionExtras.
Context {N : Number}.

Lemma calls_app l1 l2 h : calls (l1 ++ l2) h = calls l2 (calls l1 h).
Proof. revert h. induction l1 as [|c l1 IH]; simpl; intros h; [reflexivity | apply IH]. Qed.

Lemma reachable_safe l : safe (calls l started).
Proof.
  apply calls_safe. exists Green, Red. split; [apply started_shaped|].
  intros [_ H]. discriminate.
Qed.

(** X7. [getStatus] on a controller that has been started, after any calls:
    the two entries are colour names, never ['NOT_STARTED'], [isSafe] is
    true, the other entries are the controller's fields, and the call
    changes nothing. *)
Theorem getStatus_reports_safe l :
  let h := calls l started in
  exists cn ce,
    IntersectionStatus.getStatus ctl h
    = (Val (IntersectionStatus.mk (color_name cn) (color_name ce)
              (isRunning (user h))
              (IntersectionStatus.mkPedestrianWaiting
                 (pedestrianWaitingNS (user h)) (pedestrianWaitingEW (user h)))
              true), h).
Proof.
  intros h. destruct (reachable_safe l) as (cn & ce & Hs & Hsafe).
  fold h in Hs. exists cn, ce.
  destruct Hs as (kn & ke & hn & he & t0 & t1 & t2 & t3 & t4 & t5 & co & pn & pe
                  & run & tos & ->).
  destruct cn, ce; try reflexivity. exfalso. now apply Hsafe.
Qed.

Lemma start_started fsm n (h : Store) m s c :
  machines h !! fsm = Some m -> states m !! n = Some s ->
  currentState m = Some c ->
  fsm_start fsm n h = (Exc AlreadyStartedError, h).
Proof.
  intros E Hn Hc. unfold start. now rewrite (bind_deref _ _ _ _ E), Hn, Hc.
Qed.

(** With the controller not running, a call changes neither the machines
    nor the controller's fields, and [start] is refused by the engine:
    the machines have been started once. *)
Lemma stopped_call cn ce h0 h c :
  shaped cn ce h0 -> stopped_as h0 h ->
  stopped_as h0 (snd (call c h)) /\
  (c = Start -> call c h = (Exc AlreadyStartedError, h)).
Proof.
  intros (kn & ke & hn & he & t0 & t1 & t2 & t3 & t4 & t5 & co & pn & pe
          & run & tos & ->) (Hm & Ha & Ht & Hn & He & Hr).
  destruct h as [ar ms [tm co' pn' pe' run' tos']]. simpl in *. subst.
  destruct c as [dt|d|d|i| |]; simpl.
  - split; [|discriminate]. repeat split.
  - split; [|discriminate]. repeat split.
  - split; [|discriminate]. repeat split.
  - split; [|discriminate]. unfold run_timeout. simpl.
    destruct (tos' !! i); repeat split.
  - split; [|discriminate]. repeat split.
  - unfold IntersectionController.start. unfold bind at 1.
    rewrite running_dec. cbn [user isRunning]. cbv iota. unfold bind at 1.
    erewrite start_started;
      [ | reflexivity | exact (registry_lookup NS Green) | reflexivity ].
    split; [repeat split | reflexivity].
Qed.

(** X8. [stop] is final.  After [stop], whatever is called, the two lights,
    their histories and timers and the pedestrian flags stay as they were
    when [stop] returned, the controller reports that it is not running,
    and [start] throws the engine's already-started error: there is no
    way to resume. *)
Theorem stop_is_final l1 l2 :
  let h := calls (l1 ++ [Stop]) started in
  let h' := calls l2 h in
  stopped_as h h' /\
  IntersectionStatus.isOperational ctl h' = (Val false, h') /\
  call Start h' = (Exc AlreadyStartedError, h').
Proof.
  intros h h'.
  destruct (reachable_safe (l1 ++ [Stop])) as (cn & ce & Hs & _). fold h in Hs.
  assert (H0 : stopped_as h h).
  { repeat split. unfold h. rewrite calls_app. reflexivity. }
  assert (H' : stopped_as h h').
  { assert (Hall : forall l k, stopped_as h k -> stopped_as h (calls l k)).
    { induction l as [|c l IH]; simpl; intros k Hk; [assumption|].
      apply IH. now apply (stopped_call cn ce). }
    now apply Hall. }
  split; [exact H'|]. split.
  - unfold IntersectionStatus.isOperational. rewrite running_dec.
    now rewrite (proj2 (proj2 (proj2 (proj2 (proj2 H'))))).
  - now apply (stopped_call cn ce h h' Start Hs H').
Qed.

(** *** The state of the intersection, call by call *)

Section Exact.
Variables rn re : gmap string LightState.

Local Abbreviation rg_of a := (match a with NS => rn | EW => re end).
Local Abbreviation lit' := (lit_in rn re).

Hypothesis lookup_light : forall a c, rg_of a !! color_name c = Some (light a c).

Ltac compute_lhs :=
  match goal with
  | |- ?lhs = _ =>
      let v := eval vm_compute in lhs in
      transitivity v; [vm_compute; reflexivity | reflexivity]
  end.

Lemma lit_shaped s h : lit' s h -> shaped_in rn re (nsColor s) (ewColor s) h.
Proof.
  intros (hn & he & t0 & t1 & t2 & t3 & t4 & t5 & co & tos & ->).
  unfold shaped_in. repeat eexists.
Qed.

Lemma transition_at a c' act s h :
  lit' s h -> action_ok act ->
  exists h', transitionTo callHook (fsm_of a) (color_name c') act h = (Val tt, h') /\
             lit' (set_color a c' s) h'.
Proof.
  destruct s as [cn ce kn ke pn pe run].
  intros (hn & he & t0 & t1 & t2 & t3 & t4 & t5 & co & tos & ->) Hact.
  unfold transitionTo.
  pose proof (lookup_light a c') as L.
  destruct a; (erewrite bind_deref by reflexivity);
    unfold machine_with at 1; cbn [states]; simpl in L; rewrite L;
    destruct c'; destruct Hact as [-> | [-> | [-> | ->]]];
    (eexists; split; [compute_lhs | unfold lit_in; repeat eexists ]).
Qed.

Lemma set_color_same a s : set_color a (color_at a s) s = s.
Proof. now destruct a, s. Qed.

Ltac take_rule_at a t Hs :=
  let h' := fresh "h'" in
  let Ht := fresh "Ht" in
  let Hsh := fresh "Hsh" in
  destruct (transition_at a (rule_color t) (action t) _ _ Hs)
    as (h' & Ht & Hsh);
  [ unfold action_ok; simpl; tauto
  | unfold bind; simpl in Ht; simpl; rewrite Ht;
    eexists true, h'; split; [reflexivity | exact Hsh] ].

(** What each of the three events does to a light. *)
Lemma trigger_at a ev s h :
  lit' s h ->
  exists b h', fsm_trigger (fsm_of a) (ev_name ev) h = (Val b, h') /\
               lit' (set_color a (next_color ev a s) s) h'.
Proof.
  intros Hs. pose proof (lit_shaped s h Hs) as Hsh.
  pose proof (find_base rn re a ev _ _ h Hsh) as Hf.
  pose proof Hs as Hown. rewrite <- (set_color_same a s) in Hown.
  destruct s as [cn ce kn ke pn pe run].
  pose proof Hs as (hn & he & t0 & t1 & t2 & t3 & t4 & t5 & co & tos & Hh).
  simpl in Hh, Hf.
  set (k := match a with NS => kn | EW => ke end).
  assert (Htr : trigger callHook callGuard (fsm_of a) (ev_name ev) h =
    (r <- find (rule_matches callGuard (color_name (own a cn ce)) (ev_name ev))
            (base a ++ repeat force_green k) ;;
       match r with
       | None => ret false
       | Some t => transitionTo callHook (fsm_of a) (to t) (action t) ;;; ret true
       end) h).
  { rewrite (trigger_started callHook callGuard (fsm_of a) (ev_name ev) h
               (machine_with (rg_of a) a (own a cn ce) k) (light a (own a cn ce)));
      [reflexivity | subst h; now destruct a | reflexivity]. }
  rewrite Htr. clear Htr. unfold bind at 1. rewrite find_app, Hf. clear Hf.
  clear Hh.
  destruct a, ev, cn, ce; simpl selected; cbv iota beta;
    try (rewrite find_force_other by discriminate);
    try (rewrite find_force; destruct k eqn:Hk; subst k; subst; cbv iota beta);
    first
      [ (eexists false, h; split; [reflexivity | exact Hown])
      | match goal with
        | |- context [transitionTo _ _ (to ?t) _] => take_rule_at NS t Hs
        end
      | match goal with
        | |- context [transitionTo _ _ (to ?t) _] => take_rule_at EW t Hs
        end ].
Qed.

(** An update tick of one machine. *)
Lemma update_at a dt s h :
  lit' s h ->
  exists h' s', fsm_update (fsm_of a) dt h = (Val tt, h') /\ lit' s' h' /\
                ticked a s s'.
Proof.
  destruct s as [cn ce kn ke pn pe run]. intros Hs.
  unfold lit_in in Hs.
  cbn [nsColor ewColor nsForce ewForce waitNS waitEW running] in Hs.
  destruct Hs as (hn & he & t0 & t1 & t2 & t3 & t4 & t5 & co & tos & ->).
  unfold update.
  assert (exists t h1,
    (bind (deref (fsm_of a)) (fun m =>
       match currentState m with
       | Some cur => match onUpdate cur with
                     | Some f => callUpdate f dt
                     | None => ret tt
                     end
       | None => throw NotStartedError
       end))
      (mkHeap [hn; he] [machine_with rn NS cn kn; machine_with re EW ce ke]
              (mkWorld [t0; t1; t2; t3; t4; t5] co pn pe run tos)) =
    (if (duration_of (own a cn ce) <=? t)%num
     then _ <- fsm_trigger (fsm_of a) "TIMER_EXPIRED" ;; ret tt
     else ret tt) h1 /\ lit' (mkLights cn ce kn ke pn pe run) h1)
    as (t & h1 & -> & Hs1).
  { destruct a, cn, ce;
      (erewrite bind_deref by reflexivity);
      cbn [currentState machine_with light onUpdate];
      (erewrite TimerUpdate_run by reflexivity);
      (eexists _, _; split; [reflexivity | unfold lit_in; repeat eexists]). }
  destruct (_ <=? _)%num.
  - destruct (trigger_at a TimerExpired _ h1 Hs1) as (b & h' & Ht & Hsh).
    unfold bind. simpl in Ht. rewrite Ht.
    eexists h', _. split; [reflexivity|]. split; [exact Hsh | now right].
  - eexists h1, _. split; [reflexivity|]. split; [exact Hs1 | now left].
Qed.

Lemma handle_at s h :
  lit' s h ->
  exists h', IntersectionController.handlePedestrianRequests ctl h = (Val tt, h') /\
             lit' (served s) h'.
Proof.
  destruct s as [cn ce kn ke pn pe run].
  intros (hn & he & t0 & t1 & t2 & t3 & t4 & t5 & co & tos & ->).
  destruct pn, pe, cn, ce;
    (eexists; split; [compute_lhs | unfold lit_in; repeat eexists]).
Qed.

Lemma wait_at_lit s h d b :
  lit' s h ->
  exists h', IntersectionController.set_pedestrianWaiting d b h = (Val tt, h') /\
             lit' (set_wait d b s) h'.
Proof.
  destruct s as [cn ce kn ke pn pe run].
  intros (hn & he & t0 & t1 & t2 & t3 & t4 & t5 & co & tos & ->).
  destruct d; (eexists; split; [reflexivity | unfold lit_in; repeat eexists]).
Qed.

Lemma running_at s h b :
  lit' s h ->
  exists h', IntersectionController.set_isRunning b h = (Val tt, h') /\
             lit' (set_running b s) h'.
Proof.
  destruct s as [cn ce kn ke pn pe run].
  intros (hn & he & t0 & t1 & t2 & t3 & t4 & t5 & co & tos & ->).
  eexists; split; [reflexivity | unfold lit_in; repeat eexists].
Qed.

Lemma lit_running s h : lit' s h -> isRunning (user h) = running s.
Proof. now intros (hn & he & t0 & t1 & t2 & t3 & t4 & t5 & co & tos & ->). Qed.

Lemma addEmergency_at s h :
  lit' s h ->
  exists h', IntersectionController.addEmergencyTransitions ctl h = (Val tt, h') /\
             lit' (mkLights (nsColor s) (ewColor s) (S (nsForce s)) (S (ewForce s))
                            (waitNS s) (waitEW s) (running s)) h'.
Proof.
  destruct s as [cn ce kn ke pn pe run].
  intros (hn & he & t0 & t1 & t2 & t3 & t4 & t5 & co & tos & ->).
  pose proof (lookup_light NS Green) as Ln. pose proof (lookup_light EW Green) as Le.
  simpl in Ln, Le.
  unfold IntersectionController.addEmergencyTransitions,
    addTransition, try_catch, bind, has.
  simpl. unfold machine_with at 1. cbn [states]. rewrite Ln.
  rewrite bool_decide_eq_true_2 by eauto. simpl.
  rewrite Le. rewrite bool_decide_eq_true_2 by eauto. simpl.
  eexists. split; [reflexivity|].
  exists hn, he, t0, t1, t2, t3, t4, t5, co, tos. simpl.
  unfold machine_with. rewrite <- !table_grows. reflexivity.
Qed.

(** The tick of the controller: north-south, then east-west, whose guard
    sees what north-south has become, then the pedestrian requests. *)
Lemma tick_at dt s h :
  lit' s h -> running s = true ->
  exists h' s1 s2, IntersectionController.update ctl dt h = (Val tt, h') /\
    ticked NS s s1 /\ ticked EW s1 s2 /\ lit' (served s2) h'.
Proof.
  intros Hs Hrun.
  unfold IntersectionController.update, bind.
  rewrite running_dec, (lit_running s h Hs), Hrun.
  cbn [negb IntersectionController.northSouth IntersectionController.eastWest ctl].
  destruct (update_at NS dt s h Hs) as (h1 & s1 & E1 & Hs1 & Ht1).
  simpl in E1. rewrite E1.
  destruct (update_at EW dt s1 h1 Hs1) as (h2 & s2 & E2 & Hs2 & Ht2).
  simpl in E2. rewrite E2.
  destruct (handle_at s2 h2 Hs2) as (h3 & -> & Hs3).
  now exists h3, s1, s2.
Qed.

Lemma emergency_at d s h :
  lit' s h -> running s = true ->
  exists h', IntersectionController.emergencyVehicle ctl d h = (Val tt, h') /\
             lit' (after_emergency d s) h'.
Proof.
  intros Hs Hrun.
  unfold IntersectionController.emergencyVehicle. unfold bind at 1.
  rewrite running_dec, (lit_running s h Hs), Hrun.
  cbn [negb IntersectionController.northSouth IntersectionController.eastWest ctl].
  destruct d.
  - destruct (trigger_at NS EmergencyOverride s h Hs) as (b1 & h1 & E1 & Hs1).
    destruct (trigger_at NS ForceGreen _ h1 Hs1) as (b2 & h2 & E2 & Hs2).
    destruct (trigger_at EW EmergencyOverride _ h2 Hs2) as (b3 & h3 & E3 & Hs3).
    destruct (addEmergency_at _ h3 Hs3) as (h4 & E4 & Hs4).
    simpl in E1, E2, E3.
    exists h4. split.
    + unfold bind. rewrite E1, E2, E3. unfold ret. exact E4.
    + destruct s as [cn ce kn ke pn pe run]. exact Hs4.
  - destruct (trigger_at EW EmergencyOverride s h Hs) as (b1 & h1 & E1 & Hs1).
    destruct (trigger_at EW ForceGreen _ h1 Hs1) as (b2 & h2 & E2 & Hs2).
    destruct (trigger_at NS EmergencyOverride _ h2 Hs2) as (b3 & h3 & E3 & Hs3).
    destruct (addEmergency_at _ h3 Hs3) as (h4 & E4 & Hs4).
    simpl in E1, E2, E3.
    exists h4. split.
    + unfold bind. rewrite E1, E2, E3. unfold ret. exact E4.
    + destruct s as [cn ce kn ke pn pe run]. exact Hs4.
Qed.

(** Every call of the controller, and every callback the event loop runs,
    is a step of the state. *)
Lemma call_at c s h :
  lit' s h -> exists o h' s', call c h = (o, h') /\ lit' s' h' /\ step c s s'.
Proof.
  intros Hs. pose proof (lit_running s h Hs) as Hrun.
  destruct c as [dt|d|d|i| |]; simpl.
  - (* update *)
    destruct (running s) eqn:Hr.
    + destruct (tick_at dt s h Hs Hr) as (h' & s1 & s2 & E & H1 & H2 & Hs').
      rewrite E. eexists _, _, _. split; [reflexivity|]. split; [exact Hs'|].
      now exists s1, s2.
    + unfold IntersectionController.update, bind. rewrite running_dec, Hrun.
      simpl. eauto 10.
  - (* pedestrianButtonPressed *)
    unfold IntersectionController.pedestrianButtonPressed, bind.
    rewrite running_dec, Hrun.
    destruct (running s); simpl; [|eauto 10].
    destruct (wait_at_lit s h d true Hs) as (h' & -> & Hs'). eauto 10.
  - (* emergencyVehicle *)
    destruct (running s) eqn:Hr.
    + destruct (emergency_at d s h Hs Hr) as (h' & -> & Hs'). eauto 10.
    + unfold IntersectionController.emergencyVehicle, bind.
      rewrite running_dec, Hrun. simpl. eauto 10.
  - (* a timeout fires *)
    unfold run_timeout.
    destruct (timeouts (user h) !! i) as [target|] eqn:Hi; [|eauto 10].
    assert (Hs1 : lit' s (mkHeap (arrays h) (machines h)
                            (set_timeouts (delete i (timeouts (user h))) (user h)))).
    { destruct Hs as (hn & he & t0 & t1 & t2 & t3 & t4 & t5 & co & tos & ->).
      unfold lit_in. repeat eexists. }
    rewrite (lit_running _ _ Hs1).
    generalize dependent (mkHeap (arrays h) (machines h)
                            (set_timeouts (delete i (timeouts (user h))) (user h))).
    intros h1 Hs1.
    destruct (running s) eqn:Hr; [|eauto 10].
    destruct target as [|[|n]].
    + destruct (trigger_at NS TimerExpired s h1 Hs1) as (b1 & h2 & E1 & Hs2).
      simpl in E1. unfold bind. rewrite E1.
      eexists _, _, _. split; [reflexivity|]. split; [exact Hs2|].
      right. split; [reflexivity|]. exists NS. now right.
    + destruct (trigger_at EW TimerExpired s h1 Hs1) as (b1 & h2 & E1 & Hs2).
      simpl in E1. unfold bind. rewrite E1.
      eexists _, _, _. split; [reflexivity|]. split; [exact Hs2|].
      right. split; [reflexivity|]. exists EW. now right.
    + destruct Hs1 as (hn' & he' & t0' & t1' & t2' & t3' & t4' & t5'
        & co' & tos' & ->).
      eexists _, _, s. split; [reflexivity|].
      split; [unfold lit_in; repeat eexists | now left].
  - (* stop *)
    destruct (running_at s h false Hs) as (h' & E & Hs').
    unfold IntersectionController.stop. rewrite E. eauto 10.
  - (* start *)
    unfold IntersectionController.start, bind. rewrite running_dec, Hrun.
    destruct (running s); simpl; [eauto 10|].
    destruct Hs as (hn & he & t0 & t1 & t2 & t3 & t4 & t5 & co & tos & ->).
    unfold start, bind. simpl. unfold machine_with at 1. cbn [states].
    pose proof (lookup_light NS Green) as Ln. simpl in Ln. rewrite Ln. simpl.
    eexists _, _, s. split; [reflexivity|].
    split; [unfold lit_in; repeat eexists | reflexivity].
Qed.
End Exact.

Lemma started_lit : lit (mkLights Green Red 0 0 false false true) started.
Proof.
  assert (started = mkHeap [["GREEN"]; ["RED"]]
                      [machine_with (registry NS) NS Green 0;
                       machine_with (registry EW) EW Red 0]
                      (mkWorld [num_of_Z 0; num_of_Z 0; num_of_Z 0;
                                num_of_Z 0; num_of_Z 0; num_of_Z 0]
                               [] false false true [])) as ->
    by (vm_compute; reflexivity).
  unfold lit, lit_in. repeat eexists.
Qed.

(** X9. One tick of a running intersection.  It returns normally.  The
    north-south light stays or takes its timer step, which for RED needs
    the east-west light to be RED; then the east-west light does the
    same, against the colour north-south has now; then a pedestrian
    request is dropped if its light is RED and kept otherwise.  The tables
    and [isRunning] are as before. *)
Theorem update_tick dt s h :
  lit s h -> running s = true ->
  exists h' s', IntersectionController.update ctl dt h = (Val tt, h') /\
    lit s' h' /\
    (nsColor s' = nsColor s \/ nsColor s' = timer_next (nsColor s) (ewColor s)) /\
    (ewColor s' = ewColor s \/ ewColor s' = timer_next (ewColor s) (nsColor s')) /\
    waitNS s' = waitNS s && negb (is_red (nsColor s')) /\
    waitEW s' = waitEW s && negb (is_red (ewColor s')) /\
    nsForce s' = nsForce s /\ ewForce s' = ewForce s /\ running s' = true.
Proof.
  intros Hs Hrun.
  unfold IntersectionController.update, bind.
  rewrite running_dec, (lit_running _ _ s h Hs), Hrun.
  cbn [negb IntersectionController.northSouth IntersectionController.eastWest ctl].
  destruct (update_at _ _ registry_lookup NS dt s h Hs) as (h1 & s1 & E1 & Hs1 & Ht1).
  simpl in E1. rewrite E1.
  destruct (update_at _ _ registry_lookup EW dt s1 h1 Hs1) as (h2 & s2 & E2 & Hs2 & Ht2).
  simpl in E2. rewrite E2.
  destruct (handle_at _ _ s2 h2 Hs2) as (h3 & -> & Hs3).
  exists h3, (served s2). split; [reflexivity|]. split; [exact Hs3|].
  destruct s as [cn ce kn ke pn pe run]. simpl in Hrun. subst run.
  destruct Ht1 as [-> | ->], Ht2 as [-> | ->]; simpl; repeat split; auto.
Qed.

(** X10. An emergency vehicle on axis [d], the controller running.  The call
    returns normally; the cross axis ends in RED; the axis of the vehicle
    ends in GREEN if its machine has a rule for ['FORCE_GREEN'], and in
    RED if it has none, which is so until the first call has returned,
    since the rules are added at the end of the call; each table has one
    more such rule afterwards, since [addTransition] refuses no duplicate;
    and the pedestrian requests are as before. *)
Theorem emergencyVehicle_outcome d s h :
  lit s h -> running s = true ->
  exists h' s', IntersectionController.emergencyVehicle ctl d h = (Val tt, h') /\
    lit s' h' /\
    color_at (peer_of d) s' = Red /\
    color_at d s' = match force_at d s with 0 => Red | S _ => Green end /\
    nsForce s' = S (nsForce s) /\ ewForce s' = S (ewForce s) /\
    waitNS s' = waitNS s /\ waitEW s' = waitEW s /\ running s' = true.
Proof.
  intros Hs Hrun.
  destruct (emergency_at _ _ registry_lookup d s h Hs Hrun) as (h' & E & Hs').
  exists h', (after_emergency d s). split; [exact E|]. split; [exact Hs'|].
  destruct s as [cn ce kn ke pn pe run]. simpl in Hrun. subst run.
  destruct d; simpl; repeat split.
Qed.

(** X11. A pedestrian request on a running intersection is recorded, and the
    lights are not touched; after the next tick it is still pending
    exactly when its light is not RED at the end of that tick. *)
Theorem pedestrian_request_waits_for_red d dt s h :
  lit s h -> running s = true ->
  exists h1 h2 s2,
    IntersectionController.pedestrianButtonPressed ctl d h = (Val tt, h1) /\
    lit (set_wait d true s) h1 /\
    IntersectionController.update ctl dt h1 = (Val tt, h2) /\
    lit s2 h2 /\
    wait_at d s2 = negb (is_red (color_at d s2)).
Proof.
  intros Hs Hrun.
  destruct (wait_at_lit _ _ s h d true Hs) as (h1 & E1 & Hs1).
  assert (Hrun1 : running (set_wait d true s) = true) by now destruct d.
  destruct (tick_at _ _ registry_lookup dt _ h1 Hs1 Hrun1)
    as (h2 & s1 & s2 & E2 & Ht1 & Ht2 & Hs2).
  exists h1, h2, (served s2). split.
  { unfold IntersectionController.pedestrianButtonPressed, bind.
    rewrite running_dec, (lit_running _ _ s h Hs), Hrun. exact E1. }
  split; [exact Hs1|]. split; [exact E2|]. split; [exact Hs2|].
  destruct s as [cn ce kn ke pn pe run].
  destruct d, Ht1 as [-> | ->], Ht2 as [-> | ->]; simpl;
    try reflexivity; now rewrite ?andb_true_l.
Qed.

Lemma step_force c s s' :
  step c s s' ->
  running s' = match c with Stop => false | _ => running s end /\
  nsForce s' = nsForce s +
               match c with EmergencyVehicle _ => if running s then 1 else 0 | _ => 0 end /\
  ewForce s' = ewForce s +
               match c with EmergencyVehicle _ => if running s then 1 else 0 | _ => 0 end.
Proof.
  destruct s as [cn ce kn ke pn pe run].
  destruct c as [dt|d|d|i| |]; simpl.
  - destruct run.
    + intros (s1 & s2 & [-> | ->] & [-> | ->] & ->); simpl; repeat split; lia.
    + intros ->. simpl. repeat split; lia.
  - intros ->. destruct run, d; simpl; repeat split; lia.
  - intros ->. destruct run, d; simpl; repeat split; lia.
  - intros [-> | [-> (a & [-> | ->])]]; try destruct a; simpl; repeat split; lia.
  - intros ->. simpl. repeat split; lia.
  - intros ->. simpl. repeat split; lia.
Qed.

Lemma calls_at l s h :
  lit s h ->
  exists s', lit s' (calls l h) /\
    nsForce s' = nsForce s + (if running s then emergencies l else 0) /\
    ewForce s' = ewForce s + (if running s then emergencies l else 0).
Proof.
  revert s h. induction l as [|c l IH]; simpl; intros s h Hs.
  - exists s. split; [assumption|]. destruct (running s); lia.
  - destruct (call_at _ _ registry_lookup c s h Hs) as (o & h' & s1 & E & Hs1 & Hst).
    rewrite E. simpl.
    destruct (IH s1 h' Hs1) as (s' & Hs' & Hn & He).
    exists s'. split; [assumption|].
    destruct (step_force c s s1 Hst) as (Hr & Hn1 & He1).
    rewrite Hn, He, Hn1, He1, Hr.
    destruct c, (running s); simpl; lia.
Qed.

(** X12. The tables only grow, by one rule for each emergency.  On a started
    controller, after any calls, the table of each machine is the one the
    constructor made followed by one ['FORCE_GREEN'] rule for every
    [emergencyVehicle] call made before the first [stop]: the [catch]
    around [addTransition] never runs, and nothing removes a rule. *)
Theorem emergency_rules_accumulate l :
  exists mn me,
    machines (calls l started) = [mn; me] /\
    transitions mn = IntersectionController.nsTransitions ctl
                     ++ repeat force_green (emergencies l) /\
    transitions me = IntersectionController.ewTransitions ctl
                     ++ repeat force_green (emergencies l).
Proof.
  destruct (calls_at l _ started started_lit) as (s & Hs & Hn & He).
  simpl in Hn, He.
  destruct Hs as (hn & he & t0 & t1 & t2 & t3 & t4 & t5 & co & tos & ->).
  eexists _, _. split; [reflexivity|].
  split; [rewrite <- Hn | rewrite <- He]; reflexivity.
Qed.

End IntersectionExtras.

Section IntersectionAtWork.
#[local] Existing Instance double.

Lemma update_tick_witness :
  exists h' s', IntersectionController.update ctl (double_of_Z 16) started = (Val tt, h') /\
    lit s' h' /\
    (nsColor s' = Green \/ nsColor s' = timer_next Green Red) /\
    (ewColor s' = Red \/ ewColor s' = timer_next Red (nsColor s')) /\
    waitNS s' = false && negb (is_red (nsColor s')) /\
    waitEW s' = false && negb (is_red (ewColor s')) /\
    nsForce s' = 0 /\ ewForce s' = 0 /\ running s' = true.
Proof.
  exact (update_tick (double_of_Z 16) (mkLights Green Red 0 0 false false true) started
           started_lit eq_refl).
Defined.

Lemma emergencyVehicle_outcome_witness :
  exists h' s', IntersectionController.emergencyVehicle ctl NS started = (Val tt, h') /\
    lit s' h' /\
    color_at EW s' = Red /\ color_at NS s' = Red /\
    nsForce s' = 1 /\ ewForce s' = 1 /\
    waitNS s' = false /\ waitEW s' = false /\ running s' = true.
Proof.
  exact (emergencyVehicle_outcome NS (mkLights Green Red 0 0 false false true)
           started started_lit eq_refl).
Defined.

Lemma pedestrian_request_waits_for_red_witness :
  exists h1 h2 s2,
    IntersectionController.pedestrianButtonPressed ctl EW started = (Val tt, h1) /\
    lit (mkLights Green Red 0 0 false true true) h1 /\
    IntersectionController.update ctl (double_of_Z 16) h1 = (Val tt, h2) /\
    lit s2 h2 /\
    wait_at EW s2 = negb (is_red (color_at EW s2)).
Proof.
  exact (pedestrian_request_waits_for_red EW (double_of_Z 16)
           (mkLights Green Red 0 0 false false true) started started_lit eq_refl).
Defined.

End IntersectionAtWork.

(** * Properties of the single light *)

Section LampTheory.
Context {N : Number}.

Section Lamp.
Variable rg : gmap string LightState.
Hypothesis lookup_lamp : forall c, rg !! color_name c = Some (light NS c).

Local Abbreviation heap := (lamp_heap_in rg).

Ltac compute_lhs :=
  match goal with
  | |- ?lhs = _ =>
      let v := eval vm_compute in lhs in
      transitivity v; [vm_compute; reflexivity | reflexivity]
  end.

Lemma lamp_transition c' s :
  transitionTo callHook 0 (color_name c') None (heap s) = (Val tt, heap (enter c' s)).
Proof.
  destruct s as [c tr tg ty hist run].
  unfold transitionTo. erewrite bind_deref by reflexivity.
  cbn [states]. rewrite lookup_lamp.
  destruct c' , c as [[]|]; compute_lhs.
Qed.

Lemma lamp_trigger e c s :
  lampColor s = Some c ->
  fsm_trigger 0 (event_name e) (heap s)
  = (Val true, heap (enter (event_target e c) s)).
Proof.
  intros Hc.
  rewrite (trigger_started callHook callGuard 0 (event_name e) (heap s)
             (mkStateMachine (option_map (light NS) (lampColor s)) rg
                             TrafficLightController.transitions 0)
             (light NS c) eq_refl); [|simpl; now rewrite Hc].
  cbn [transitions].
  assert (Hf : find (rule_matches callGuard (name (light NS c)) (event_name e))
                 TrafficLightController.transitions (heap s)
               = (Val (Some (mkTransition
                    (match e with TIMER_EXPIRED => color_name c | _ => "*" end)
                    (color_name (event_target e c)) (event_name e) None None)),
                  heap s)).
  { destruct e, c; reflexivity. }
  unfold bind at 1. rewrite Hf. cbn [to action].
  unfold bind. now rewrite lamp_transition.
Qed.

Lemma lamp_update c dt s :
  lampColor s = Some c ->
  fsm_update 0 dt (heap s) = (Val tt, heap (tick c dt s)).
Proof.
  intros Hc. destruct s as [c0 tr tg ty hist run]. simpl in Hc. subst c0.
  unfold update. erewrite bind_deref by reflexivity.
  cbn [currentState lamp_heap_in lampColor option_map].
  pose proof (lamp_trigger TIMER_EXPIRED c) as Htr.
  destruct c; cbn [light onUpdate cell_of fsm_of duration_of];
    (erewrite TimerUpdate_run by reflexivity);
    unfold tick; cbn [lamp_timer timerRed timerGreen timerYellow duration_of];
    match goal with
    | |- context [(?d <=? ?t)%num] => destruct (d <=? t)%num
    end;
    try reflexivity;
    unfold bind;
    match goal with
    | |- context [fsm_trigger 0 "TIMER_EXPIRED" ?h] =>
        match goal with
        | |- context [enter _ ?s1] => change h with (heap s1)
        end
    end;
    (rewrite Htr by reflexivity); reflexivity.
Qed.
End Lamp.

Lemma lamp_lookup c : registry NS !! color_name c = Some (light NS c).
Proof. exact (registry_lookup NS c). Qed.

Lemma lamp_made_is :
  TrafficLightController.constructor empty_heap
  = (Val lamp, lamp_heap (mkLamp None (num_of_Z 0) (num_of_Z 0) (num_of_Z 0)
                                 [] false)).
Proof. vm_compute. reflexivity. Qed.

Lemma lamp_running s :
  IntersectionController.get isRunning (lamp_heap s) = (Val (lampRunning s), lamp_heap s).
Proof. reflexivity. Qed.

Lemma lamp_unstarted s e :
  lampColor s = None ->
  fsm_trigger 0 e (lamp_heap s) = (Exc NotStartedError, lamp_heap s).
Proof. destruct s as [[c|] tr tg ty hist run]; [discriminate | reflexivity]. Qed.

(** X13. One tick of the running light showing [c]: the timer of [c] becomes
    its sum with [deltaTime], the sum of the numbers; if the comparison
    of the numbers then finds it at or above the duration of [c], the
    light moves to the next colour of the cycle, whose timer restarts at
    0, so that what the tick had in excess is lost, and the history gets
    the new name; otherwise the light stays.  One tick is at most one
    step, however long it is.  At [double] the sum and the comparison are
    those of the code, for every timer and every tick. *)
Theorem lamp_update_tick c dt s :
  lampColor s = Some c -> lampRunning s = true ->
  TrafficLightController.update lamp dt (lamp_heap s)
  = (Val tt, lamp_heap (tick c dt s)).
Proof.
  intros Hc Hrun. unfold TrafficLightController.update, bind.
  rewrite lamp_running, Hrun. cbn [negb lamp TrafficLightController.fsm].
  exact (lamp_update (registry NS) lamp_lookup c dt s Hc).
Qed.

(** X14. The four overrides, on a controller that has been started.  Running,
    each returns true and the light enters the colour of the override,
    its timer restarting at 0 and the history getting the name once more,
    also when the light shows that colour already.  Not running, each
    returns false and changes nothing. *)
Theorem lamp_overrides c s :
  lampColor s = Some c ->
  let answer (to : Color) :=
    if lampRunning s then (Val true, lamp_heap (enter to s))
    else (Val false, lamp_heap s) in
  TrafficLightController.emergencyOverride lamp (lamp_heap s) = answer Red /\
  TrafficLightController.forceGreen lamp (lamp_heap s) = answer Green /\
  TrafficLightController.forceYellow lamp (lamp_heap s) = answer Yellow /\
  TrafficLightController.forceRed lamp (lamp_heap s) = answer Red.
Proof.
  intros Hc answer. subst answer.
  pose proof (fun e => lamp_trigger (registry NS) lamp_lookup e c s Hc) as Ht.
  unfold TrafficLightController.emergencyOverride, TrafficLightController.forceGreen,
    TrafficLightController.forceYellow, TrafficLightController.forceRed,
    TrafficLightController.force, bind.
  rewrite lamp_running. cbn [lamp TrafficLightController.fsm].
  destruct (lampRunning s); cbn [negb]; [|now repeat split].
  repeat split.
  - exact (Ht EMERGENCY_OVERRIDE).
  - exact (Ht FORCE_GREEN).
  - exact (Ht FORCE_YELLOW).
  - exact (Ht FORCE_RED).
Qed.

Lemma lamp_start_run s :
  TrafficLightController.start lamp (lamp_heap s)
  = if lampRunning s
    then (Exc (Fault "Traffic light controller is already running"), lamp_heap s)
    else match lampColor s with
         | None => (Val tt, lamp_heap (set_lampRunning true (enter Red s)))
         | Some _ => (Exc AlreadyStartedError, lamp_heap s)
         end.
Proof.
  unfold TrafficLightController.start, bind. rewrite lamp_running.
  destruct s as [[c|] tr tg ty hist run]; destruct run; cbn [lampRunning lampColor];
    try reflexivity;
    unfold start; (erewrite bind_deref by reflexivity);
    cbn [states lamp lamp_heap_in TrafficLightController.fsm];
    rewrite (lamp_lookup Red); reflexivity.
Qed.

Lemma lamp_trigger_at e s :
  snd (fsm_trigger 0 (event_name e) (lamp_heap s))
  = lamp_heap (match lampColor s with
               | Some c => enter (event_target e c) s
               | None => s
               end).
Proof.
  destruct (lampColor s) as [c|] eqn:Hc.
  - unfold lamp_heap. now rewrite (lamp_trigger (registry NS) lamp_lookup e c s Hc).
  - now rewrite (lamp_unstarted s _ Hc).
Qed.

(** Every call takes a state of the light to a state of the light. *)
Lemma lamp_call_at c s :
  snd (lamp_call c (lamp_heap s)) = lamp_heap (lamp_step c s).
Proof.
  pose proof (fun e => lamp_trigger_at e s) as Ht.
  destruct c as [ | |dt| | | | ]; simpl.
  - rewrite lamp_start_run.
    destruct (lampRunning s); [reflexivity|]. now destruct (lampColor s).
  - reflexivity.
  - unfold TrafficLightController.update, bind. rewrite lamp_running.
    destruct (lampColor s) as [c|] eqn:Hc.
    + destruct (lampRunning s); [|reflexivity]. cbn [negb].
      cbn [lamp TrafficLightController.fsm].
      unfold lamp_heap. now rewrite (lamp_update (registry NS) lamp_lookup c dt s Hc).
    + destruct (lampRunning s); [|reflexivity]. simpl.
      destruct s as [[c|] tr tg ty hist run]; [discriminate | reflexivity].
  - unfold discard, TrafficLightController.emergencyOverride, bind.
    rewrite lamp_running. specialize (Ht EMERGENCY_OVERRIDE).
    cbn [lamp TrafficLightController.fsm]. simpl event_name in Ht.
    destruct (lampRunning s); cbn [negb].
    + destruct (fsm_trigger 0 "EMERGENCY_OVERRIDE" (lamp_heap s)) as [[b|e] h'];
        simpl in *; rewrite Ht; now destruct (lampColor s).
    + now destruct (lampColor s).
  - unfold discard, TrafficLightController.forceGreen, TrafficLightController.force, bind.
    rewrite lamp_running. specialize (Ht FORCE_GREEN).
    cbn [lamp TrafficLightController.fsm]. simpl event_name in Ht.
    destruct (lampRunning s); cbn [negb].
    + destruct (fsm_trigger 0 "FORCE_GREEN" (lamp_heap s)) as [[b|e] h'];
        simpl in *; rewrite Ht; now destruct (lampColor s).
    + now destruct (lampColor s).
  - unfold discard, TrafficLightController.forceYellow, TrafficLightController.force, bind.
    rewrite lamp_running. specialize (Ht FORCE_YELLOW).
    cbn [lamp TrafficLightController.fsm]. simpl event_name in Ht.
    destruct (lampRunning s); cbn [negb].
    + destruct (fsm_trigger 0 "FORCE_YELLOW" (lamp_heap s)) as [[b|e] h'];
        simpl in *; rewrite Ht; now destruct (lampColor s).
    + now destruct (lampColor s).
  - unfold discard, TrafficLightController.forceRed, TrafficLightController.force, bind.
    rewrite lamp_running. specialize (Ht FORCE_RED).
    cbn [lamp TrafficLightController.fsm]. simpl event_name in Ht.
    destruct (lampRunning s); cbn [negb].
    + destruct (fsm_trigger 0 "FORCE_RED" (lamp_heap s)) as [[b|e] h'];
        simpl in *; rewrite Ht; now destruct (lampColor s).
    + now destruct (lampColor s).
Qed.

Lemma lamp_calls_at l s :
  lamp_calls l (lamp_heap s) = lamp_heap (fold_left (fun s c => lamp_step c s) l s).
Proof.
  revert s. induction l as [|c l IH]; intros s; simpl; [reflexivity|].
  now rewrite lamp_call_at, IH.
Qed.

Lemma lamp_step_started c s :
  lampColor s <> None -> lampColor (lamp_step c s) <> None.
Proof.
  destruct s as [[c0|] tr tg ty hist run]; [intros _ | intros H; now destruct H].
  destruct c, run; simpl; try discriminate.
  unfold tick. now destruct (_ <=? _)%num, c0.
Qed.

Lemma lamp_step_stopped c s :
  lampColor s <> None -> lampRunning s = false -> lamp_step c s = s.
Proof.
  destruct s as [[c0|] tr tg ty hist run]; [intros _ Hr | intros H; now destruct H].
  simpl in Hr. subst run. now destruct c.
Qed.

(** X15. [stop] is final for the single light too.  On a controller that has
    been started, after [stop] no sequence of calls changes anything: the
    light, its timers and its history stay as they are, [isOperational]
    returns false, and [start] throws the engine's already-started
    error. *)
Theorem lamp_stop_is_final l1 l2 :
  let h := lamp_calls (LampStart :: l1 ++ [LampStop]) lamp_made in
  lamp_calls l2 h = h /\
  TrafficLightController.isOperational lamp h = (Val false, h) /\
  TrafficLightController.start lamp h = (Exc AlreadyStartedError, h).
Proof.
  intros h.
  assert (Hh : exists s, h = lamp_heap s /\ lampColor s <> None /\
                         lampRunning s = false).
  { unfold h, lamp_made. rewrite lamp_made_is. simpl snd.
    rewrite lamp_calls_at. eexists. split; [reflexivity|].
    simpl. rewrite fold_left_app. simpl. split; [|reflexivity].
    assert (Hall : forall l s, lampColor s <> None ->
              lampColor (fold_left (fun s c => lamp_step c s) l s) <> None).
    { induction l as [|c l IH]; simpl; intros s Hs; [assumption|].
      apply IH. now apply lamp_step_started. }
    now apply Hall. }
  clearbody h. destruct Hh as (s & -> & Hc & Hr). split; [|split].
  - rewrite lamp_calls_at. f_equal.
    induction l2 as [|c l2 IH]; simpl; [reflexivity|].
    now rewrite lamp_step_stopped.
  - unfold TrafficLightController.isOperational. now rewrite lamp_running, Hr.
  - rewrite lamp_start_run, Hr. now destruct (lampColor s).
Qed.

Lemma cycle_snoc c n :
  cycle_from c n ++ [color_name (Nat.iter n next_in_cycle c)] = cycle_from c (S n).
Proof.
  revert c. induction n as [|n IH]; intros c; [reflexivity|].
  change (cycle_from c (S n)) with (color_name c :: cycle_from (next_in_cycle c) n).
  change (cycle_from c (S (S n)))
    with (color_name c :: cycle_from (next_in_cycle c) (S n)).
  rewrite <- app_comm_cons. f_equal. rewrite Nat.iter_succ_r. apply IH.
Qed.

(** X16. Left to its timers, the light goes round RED, GREEN, YELLOW.  On a
    new controller that is started and then only ticked, with ticks of
    any lengths, the history is an initial part of RED, GREEN, YELLOW,
    RED, ... that has at most one entry more for every tick. *)
Theorem lamp_cycles dts :
  exists s n,
    lamp_calls (LampStart :: map LampUpdate dts) lamp_made = lamp_heap s /\
    lampHistory s = cycle_from Red (S n) /\
    lampColor s = Some (Nat.iter n next_in_cycle Red) /\
    n <= length dts.
Proof.
  unfold lamp_made. rewrite lamp_made_is. simpl snd.
  rewrite lamp_calls_at. simpl fold_left at 1. simpl.
  assert (Hall : forall l s n,
            lampRunning s = true -> lampHistory s = cycle_from Red (S n) ->
            lampColor s = Some (Nat.iter n next_in_cycle Red) ->
            exists s' n',
              fold_left (fun s c => lamp_step c s) (map LampUpdate l) s = s' /\
              lampHistory s' = cycle_from Red (S n') /\
              lampColor s' = Some (Nat.iter n' next_in_cycle Red) /\
              n' <= n + length l).
  { induction l as [|dt l IH]; intros s n Hr Hh Hc; simpl.
    - exists s, n. repeat split; auto. lia.
    - rewrite Hc, Hr. unfold tick.
      destruct (_ <=? _)%num.
      + destruct (IH (enter (next_in_cycle (Nat.iter n next_in_cycle Red))
                        (set_lamp_timer (Nat.iter n next_in_cycle Red)
                           (lamp_timer (Nat.iter n next_in_cycle Red) s + dt) s))
                     (S n)) as (s' & n' & E & Hh' & Hc' & Hn').
        * destruct s, (Nat.iter n next_in_cycle Red); simpl in *; assumption.
        * rewrite <- cycle_snoc. simpl Nat.iter. 
          destruct s, (Nat.iter n next_in_cycle Red); simpl in *; now rewrite Hh.
        * reflexivity.
        * exists s', n'. repeat split; auto. lia.
      + destruct (IH (set_lamp_timer (Nat.iter n next_in_cycle Red)
                        (lamp_timer (Nat.iter n next_in_cycle Red) s + dt) s) n)
          as (s' & n' & E & Hh' & Hc' & Hn').
        * destruct s, (Nat.iter n next_in_cycle Red); simpl in *; assumption.
        * destruct s, (Nat.iter n next_in_cycle Red); simpl in *; assumption.
        * destruct s, (Nat.iter n next_in_cycle Red); simpl in *; assumption.
        * exists s', n'. repeat split; auto. lia. }
  destruct (Hall dts (mkLamp (Some Red) (num_of_Z 0) (num_of_Z 0) (num_of_Z 0)
                             ["RED"] true) 0 eq_refl eq_refl eq_refl)
    as (s' & n' & E & Hh' & Hc' & Hn').
  exists s', n'. split; [now rewrite <- E|]. auto.
Qed.

(** X18. The status methods of the single light change nothing and never
    throw.  [getCurrentState] returns ['NOT_STARTED'] exactly on a machine
    that has not been started, and the colour otherwise.  On a started
    machine [canTransition] answers true for each of the five events of
    the table, also when the controller is stopped and the overrides
    return false. *)
Theorem lamp_status e s :
  TrafficLightController.getCurrentState lamp (lamp_heap s)
  = (Val (match lampColor s with
          | Some c => color_name c
          | None => "NOT_STARTED"
          end), lamp_heap s) /\
  TrafficLightController.isOperational lamp (lamp_heap s)
  = (Val (lampRunning s), lamp_heap s) /\
  TrafficLightController.canTransition lamp (event_name e) (lamp_heap s)
  = (Val (bool_decide (is_Some (lampColor s))), lamp_heap s).
Proof.
  destruct s as [[c|] tr tg ty hist run]; repeat split; try reflexivity.
  destruct e, c; reflexivity.
Qed.

End LampTheory.

Section LampAtWork.
#[local] Existing Instance double.

Local Abbreviation ms z := (double_of_Z z).

(** X17. At the end of a call, the test [timer >= duration] of the colour
    the light shows is false: no rule of this table has a guard, so that
    a timer found at or above its duration always moves the light on, to
    a colour whose timer is 0.  This holds of the doubles, on a new
    controller after any calls, whatever the ticks are: negative,
    fractional, infinite or not a number.  The timer need not be below
    the duration: after a tick that is not a number it is no number, the
    test is false for ever and the light moves no more. *)
Theorem lamp_timer_not_expired l :
  exists s, lamp_calls l lamp_made = lamp_heap s /\
    forall c, lampColor s = Some c ->
              (duration_of c <=? lamp_timer c s)%num = false.
Proof.
  unfold lamp_made. rewrite lamp_made_is. simpl snd.
  rewrite lamp_calls_at. eexists. split; [reflexivity|].
  assert (Hall : forall l s,
            (forall c, lampColor s = Some c ->
                       (duration_of c <=? lamp_timer c s)%num = false) ->
            forall c, lampColor (fold_left (fun s c => lamp_step c s) l s) = Some c ->
                      (duration_of c
                       <=? lamp_timer c (fold_left (fun s c => lamp_step c s) l s))%num
                      = false).
  { clear l. induction l as [|k l IH]; cbn [fold_left]; intros s Hs; [exact Hs|].
    apply IH. clear IH.
    destruct s as [[c0|] tr tg ty hist run].
    - specialize (Hs c0 eq_refl).
      destruct k, run; cbn [lamp_step lampColor lampRunning set_lampRunning];
        try (intros c [= <-]; exact Hs);
        try (intros c [= <-]; reflexivity).
      unfold tick.
      match goal with
      | |- context [if ?b then _ else _] => destruct b eqn:Hd
      end.
      + destruct c0; cbn [lampColor enter next_in_cycle];
          intros c [= <-]; reflexivity.
      + destruct c0; cbn [lampColor set_lamp_timer];
          intros c [= <-]; exact Hd.
    - destruct k, run; cbn [lamp_step lampColor lampRunning set_lampRunning];
        try discriminate.
      intros c [= <-]. reflexivity. }
  apply Hall. discriminate.
Qed.

(** A tick that is not a number stops the light for good. *)
Example lamp_stuck_on_nan :
  lamp_calls [LampStart; LampUpdate PrimFloat.nan;
              LampUpdate (double_of_Z 30000); LampUpdate PrimFloat.infinity]
             lamp_made
  = lamp_heap (mkLamp (Some Red) PrimFloat.nan (double_of_Z 0) (double_of_Z 0)
                      ["RED"] true).
Proof. vm_compute. reflexivity. Qed.

Lemma lamp_update_tick_witness :
  TrafficLightController.update lamp (ms 1500)
    (lamp_heap (mkLamp (Some Red) (ms 29000) (ms 0) (ms 0) ["RED"] true))
  = (Val tt, lamp_heap (mkLamp (Some Green) (ms 30500) (ms 0) (ms 0)
                               ["RED"; "GREEN"] true)).
Proof.
  exact (lamp_update_tick Red (ms 1500)
           (mkLamp (Some Red) (ms 29000) (ms 0) (ms 0) ["RED"] true)
           eq_refl eq_refl).
Defined.

Lemma lamp_overrides_witness :
  TrafficLightController.emergencyOverride lamp
    (lamp_heap (mkLamp (Some Red) (ms 120) (ms 0) (ms 0) ["RED"] true))
  = (Val true, lamp_heap (mkLamp (Some Red) (ms 0) (ms 0) (ms 0) ["RED"; "RED"] true)) /\
  TrafficLightController.forceGreen lamp
    (lamp_heap (mkLamp (Some Red) (ms 120) (ms 0) (ms 0) ["RED"] true))
  = (Val true, lamp_heap (mkLamp (Some Green) (ms 120) (ms 0) (ms 0) ["RED"; "GREEN"] true)) /\
  TrafficLightController.forceYellow lamp
    (lamp_heap (mkLamp (Some Red) (ms 120) (ms 0) (ms 0) ["RED"] true))
  = (Val true, lamp_heap (mkLamp (Some Yellow) (ms 120) (ms 0) (ms 0) ["RED"; "YELLOW"] true)) /\
  TrafficLightController.forceRed lamp
    (lamp_heap (mkLamp (Some Red) (ms 120) (ms 0) (ms 0) ["RED"] true))
  = (Val true, lamp_heap (mkLamp (Some Red) (ms 0) (ms 0) (ms 0) ["RED"; "RED"] true)).
Proof.
  exact (lamp_overrides Red (mkLamp (Some Red) (ms 120) (ms 0) (ms 0) ["RED"] true) eq_refl).
Defined.

End LampAtWork.

(** * Properties of the browser version *)

Section PageTheory.
Context {N : Number}.

Section Page.
Variable rg : gmap string Browser.LightState.
Variable ga : list (list string).
Variable gm : list Browser.Machine.
Variable gt : list num.

Local Abbreviation f := (length gm).
Local Abbreviation b := (length gt).
Local Abbreviation heap := (page_in rg ga gm gt).
Local Abbreviation object c := (Browser.as_state (browser_light f b c)).
Local Abbreviation machine s :=
  (mkStateMachine (option_map (fun c => object c) (scrColor s)) rg
                  Browser.transitions (length ga)).

Hypothesis lookup_object : forall c, rg !! color_name c = Some (object c).

Lemma page_deref s : machines (heap s) !! f = Some (machine s).
Proof. apply list_lookup_middle. reflexivity. Qed.

Lemma page_history s : arrays (heap s) !! length ga = Some (scrHistory s).
Proof. apply list_lookup_middle. reflexivity. Qed.

Lemma page_timer c s :
  Browser.timer (user (heap s)) !! Browser.lightCell (browser_light f b c)
  = Some (screen_timer c s).
Proof.
  simpl. rewrite lookup_app_r by lia.
  replace (b + _ - b) with (match c with Red => 0 | Green => 1 | Yellow => 2 end) by lia.
  now destruct c.
Qed.

Lemma page_write_timer c v s :
  Browser.write_timer (Browser.lightCell (browser_light f b c)) v (heap s)
  = (Val tt, heap (set_screen_timer c v s)).
Proof.
  unfold Browser.write_timer, Browser.set_page, page_in. simpl. f_equal. f_equal.
  - now destruct c.
  - now destruct c.
  - unfold Browser.set_timer. simpl.
    rewrite insert_app_r_alt by lia.
    replace (b + _ - b) with (match c with Red => 0 | Green => 1 | Yellow => 2 end) by lia.
    destruct c; reflexivity.
Qed.

(** The heap once the light has moved to [c], before [onEnter]. *)
Lemma page_moved c s :
  moved f (object c) (color_name c) (heap s)
  = heap (mkScreen (Some c) (scrRed s) (scrGreen s) (scrYellow s)
                   (scrHistory s ++ [color_name c]) (scrRunning s) (scrCycles s)).
Proof.
  unfold moved. rewrite page_deref. cbn [history]. rewrite page_history.
  unfold page_in. simpl. f_equal.
  - rewrite insert_app_r_alt by lia. now rewrite Nat.sub_diag.
  - rewrite insert_app_r_alt by lia. now rewrite Nat.sub_diag.
Qed.

Lemma page_action act s :
  (forall cell, act <> Some (Browser.LightOnEnter cell)) ->
  call_opt Browser.callHook act (heap s) = (Val tt, heap (acted act s)).
Proof.
  intros Hact. destruct act as [[]|]; try reflexivity.
  now destruct (Hact cell).
Qed.

Lemma page_transition c c' act s :
  scrColor s = Some c ->
  (forall cell, act <> Some (Browser.LightOnEnter cell)) ->
  transitionTo Browser.callHook f (color_name c') act (heap s)
  = (Val tt, heap (screen_enter c' (acted act s))).
Proof.
  intros Hc Hact.
  rewrite (transitionTo_normal Browser.callHook f (color_name c') act
             (heap s) (machine s) (object c) (object c') (heap s)
             (heap (acted act s)) (machine (acted act s)) (scrHistory s)).
  - rewrite page_moved. cbn [onEnter Browser.as_state call_opt Browser.callHook].
    rewrite page_write_timer. f_equal. f_equal.
    destruct act as [[]|], c', s; reflexivity.
  - apply page_deref.
  - simpl. now rewrite Hc.
  - apply lookup_object.
  - reflexivity.
  - now apply page_action.
  - apply page_deref.
  - cbn [history]. rewrite page_history. now destruct act as [[]|].
Qed.

Lemma page_trigger e c s :
  scrColor s = Some c ->
  trigger Browser.callHook Browser.callGuard f (event_name e) (heap s)
  = (Val true, heap (screen_enter (event_target e c) (acted (event_action e c) s))).
Proof.
  intros Hc.
  rewrite (trigger_started Browser.callHook Browser.callGuard f (event_name e)
             (heap s) (machine s) (object c) (page_deref s));
    [|simpl; now rewrite Hc].
  cbn [transitions].
  assert (Hf : find (rule_matches Browser.callGuard (name (object c)) (event_name e))
                 Browser.transitions (heap s)
               = (Val (Some (mkTransition
                    (match e with TIMER_EXPIRED => color_name c | _ => "*" end)
                    (color_name (event_target e c)) (event_name e) None
                    (event_action e c))),
                  heap s)).
  { destruct e, c; reflexivity. }
  unfold bind at 1. rewrite Hf. cbn [to action].
  unfold bind. rewrite (page_transition c); [reflexivity | assumption|].
  intros cell. destruct e, c; discriminate.
Qed.

Lemma page_update c dt s :
  scrColor s = Some c ->
  update Browser.callUpdate f dt (heap s) = (Val tt, heap (screen_tick c dt s)).
Proof.
  intros Hc. unfold update. rewrite (bind_deref _ _ _ _ (page_deref s)).
  cbn [currentState]. rewrite Hc. cbn [option_map onUpdate Browser.as_state].
  unfold Browser.callUpdate.
  change (Browser.lightCell (browser_light f b c))
    with (Browser.lightCell (browser_light f b c)).
  unfold bind at 1. unfold Browser.read_timer at 1. rewrite page_timer.
  unfold bind at 1. rewrite page_write_timer.
  unfold bind at 1. unfold Browser.read_timer at 1. rewrite page_timer.
  assert (Ht : screen_timer c (set_screen_timer c (screen_timer c s + dt) s)
               = (screen_timer c s + dt)%num) by now destruct c.
  rewrite Ht. unfold screen_tick.
  change (Browser.lightDuration (browser_light f b c)) with (duration_of c).
  destruct (duration_of c <=? screen_timer c s + dt)%num; [|reflexivity].
  unfold bind.
  rewrite (page_trigger TIMER_EXPIRED c) by now destruct c.
  unfold ret. f_equal. f_equal. f_equal. now destruct c, s.
Qed.

Lemma page_start s :
  scrColor s = None ->
  start Browser.callHook f "RED" (heap s)
  = (Val tt, heap (screen_enter Red s)).
Proof.
  intros Hc. unfold start. rewrite (bind_deref _ _ _ _ (page_deref s)).
  pose proof (lookup_object Red) as L. change (color_name Red) with "RED" in L.
  cbn [states]. rewrite L. cbn [currentState]. rewrite Hc. cbn [option_map].
  pose proof (assign_push f (object Red) "RED" (heap s) (machine s) (scrHistory s)
                (page_deref s) (page_history s)) as Hp.
  unfold bind in *.
  destruct (assign f (set_currentState (Some (object Red))) (heap s))
    as [[[]|e] h2]; [|discriminate].
  destruct (deref f h2) as [[m2|e] h3]; [|discriminate].
  rewrite Hp. rewrite (page_moved Red).
  cbn [onEnter Browser.as_state call_opt Browser.callHook].
  rewrite page_write_timer. now destruct s.
Qed.
End Page.

(** Setting a machine up: the states, then the rules. *)
Section Setup.
Context {Hook UpdateHook Guard U : Type}.
Implicit Types (h : Heap Hook UpdateHook Guard U)
               (m : StateMachine Hook UpdateHook Guard).

Lemma addState_new this h m (s : State Hook UpdateHook) :
  machines h !! this = Some m -> states m !! name s = None ->
  addState this s h
  = (Val tt, mkHeap (arrays h)
                    (<[this := set_states (<[name s := s]> (states m)) m]> (machines h))
                    (user h)).
Proof.
  intros E Hn. unfold addState. rewrite (bind_deref _ _ _ _ E).
  destruct (decide (is_Some (states m !! name s))) as [Hs|_].
  { rewrite Hn in Hs. destruct Hs. discriminate. }
  unfold assign. now rewrite E.
Qed.

Lemma addTransition_new this h m (t : Transition Hook Guard) :
  machines h !! this = Some m ->
  from t = "*" \/ is_Some (states m !! from t) ->
  is_Some (states m !! to t) ->
  addTransition this t h
  = (Val tt, mkHeap (arrays h)
                    (<[this := set_transitions (transitions m ++ [t]) m]> (machines h))
                    (user h)).
Proof.
  intros E Hfrom Hto. unfold addTransition. rewrite (bind_deref _ _ _ _ E).
  replace (negb (String.eqb (from t) "*") && negb (has m (from t))) with false.
  - unfold has at 1. rewrite bool_decide_eq_true_2 by assumption. simpl.
    unfold assign. now rewrite E.
  - symmetry. apply andb_false_iff. destruct Hfrom as [-> | Hs].
    + now left.
    + right. unfold has. now rewrite bool_decide_eq_true_2.
Qed.

Lemma addTransitions_new this l h m :
  machines h !! this = Some m ->
  (forall t, t ∈ l -> (from t = "*" \/ is_Some (states m !! from t)) /\
                      is_Some (states m !! to t)) ->
  forEach (addTransition this) l h
  = (Val tt, mkHeap (arrays h)
                    (<[this := set_transitions (transitions m ++ l) m]> (machines h))
                    (user h)).
Proof.
  revert h m. induction l as [|t l IH]; intros h m E Hl; simpl.
  - unfold ret. f_equal. rewrite app_nil_r.
    destruct h as [ar ms u], m. simpl in *. f_equal.
    symmetry. now apply list_insert_id.
  - destruct (Hl t) as [Hfrom Hto]; [left|].
    unfold bind. rewrite (addTransition_new this h m t E Hfrom Hto).
    assert (Hlt : this < length (machines h)) by (eapply lookup_lt_Some; eauto).
    rewrite (IH _ (set_transitions (transitions m ++ [t]) m)).
    + simpl. rewrite list_insert_insert_eq. now rewrite <- app_assoc.
    + simpl. now apply list_lookup_insert_eq.
    + intros t' Ht'. apply Hl. now right.
Qed.

Lemma start_refused (cH : Hook -> M Hook UpdateHook Guard U unit) this n h m s c :
  machines h !! this = Some m -> states m !! n = Some s ->
  currentState m = Some c ->
  start cH this n h = (Exc AlreadyStartedError, h).
Proof.
  intros E Hn Hc. unfold start. now rewrite (bind_deref _ _ _ _ E), Hn, Hc.
Qed.
End Setup.

Lemma browser_lookup f b c :
  browser_registry f b !! color_name c = Some (Browser.as_state (browser_light f b c)).
Proof. destruct c; reflexivity. Qed.

(** [fsm], the three states and the table, made anew: what the
    constructor and [reset] share. *)
Lemma fresh_run (h : Browser.Store) :
  (Browser.make_objects ;;; Browser.setupStatesAndTransitions) h
  = (Val tt, page (arrays h) (machines h) (Browser.timer (user h))
               (mkScreen None (num_of_Z 0) (num_of_Z 0) (num_of_Z 0) []
                         (Browser.isRunning (user h))
                         (Browser.cycleCount (user h)))).
Proof.
  destruct h as [ar ms [tm fs r g y run cyc]].
  set (f := length ms). set (b := length tm).
  set (m0 := mkStateMachine (Hook := Browser.Hook) (UpdateHook := Browser.UpdateHook)
               (Guard := Browser.Guard) None ∅ [] (length ar)).
  set (h1 := mkHeap (ar ++ [[]]) (ms ++ [m0])
               (Browser.mkPage (tm ++ [num_of_Z 0; num_of_Z 0; num_of_Z 0]) (Some f)
                  (Some (browser_light f b Red)) (Some (browser_light f b Green))
                  (Some (browser_light f b Yellow)) run cyc)).
  assert (E1 : Browser.make_objects (mkHeap ar ms (Browser.mkPage tm fs r g y run cyc))
               = (Val tt, h1)).
  { unfold Browser.make_objects, new_StateMachine, new_array,
      Browser.new_RedLightState, Browser.new_GreenLightState,
      Browser.new_YellowLightState, Browser.new_LightState, Browser.set_page, bind.
    simpl. unfold h1, browser_light, Browser.set_objects. simpl.
    rewrite !length_app. simpl. rewrite <- !app_assoc. simpl.
    replace (b + 0) with (length tm) by (unfold b; lia).
    replace (length tm + 1 + 1) with (b + 2) by (unfold b; lia).
    reflexivity. }
  unfold bind at 1. rewrite E1.
  assert (Hlast : forall (m m' : Browser.Machine), <[f := m']> (ms ++ [m]) = ms ++ [m']).
  { intros m m'. rewrite insert_app_r_alt by (unfold f; lia).
    unfold f. now rewrite Nat.sub_diag. }
  assert (Hmid : forall (m : Browser.Machine), (ms ++ [m]) !! f = Some m).
  { intros m. apply list_lookup_middle. reflexivity. }
  unfold Browser.setupStatesAndTransitions.
  unfold bind at 1. unfold Browser.field at 1. cbn [user Browser.fsm h1].
  unfold bind at 1. unfold Browser.field at 1. cbn [user Browser.redState h1].
  unfold bind at 1.
  rewrite (addState_new f h1 m0 _ (Hmid m0)) by reflexivity.
  cbn [arrays machines user h1]. rewrite Hlast.
  unfold bind at 1. unfold Browser.field at 1. cbn [user Browser.greenState].
  unfold bind at 1.
  erewrite addState_new; [|apply Hmid|reflexivity].
  cbn [arrays machines user]. rewrite Hlast.
  unfold bind at 1. unfold Browser.field at 1. cbn [user Browser.yellowState].
  unfold bind at 1.
  erewrite addState_new; [|apply Hmid|reflexivity].
  cbn [arrays machines user]. rewrite Hlast.
  erewrite addTransitions_new; [|apply Hmid|].
  - cbn [arrays machines user]. rewrite Hlast. reflexivity.
  - intros t Ht. unfold Browser.transitions in Ht.
    repeat (apply elem_of_cons in Ht as [-> | Ht]);
      try (now apply elem_of_nil in Ht);
      (split; [first [now left | right; eexists; reflexivity] | eexists; reflexivity]).
Qed.

Lemma page_running ga gm gt s :
  Browser.get Browser.isRunning (page ga gm gt s)
  = (Val (scrRunning s), page ga gm gt s).
Proof. reflexivity. Qed.

Lemma page_fsm ga gm gt s :
  Browser.field Browser.fsm (page ga gm gt s) = (Val (length gm), page ga gm gt s).
Proof. reflexivity. Qed.

Lemma page_set_running ga gm gt s v :
  Browser.set_page (Browser.set_isRunning v) (page ga gm gt s)
  = (Val tt, page ga gm gt (set_scrRunning v s)).
Proof. reflexivity. Qed.

Lemma page_unstarted ga gm gt s e :
  scrColor s = None ->
  trigger Browser.callHook Browser.callGuard (length gm) e (page ga gm gt s)
  = (Exc NotStartedError, page ga gm gt s).
Proof.
  intros Hc. unfold trigger, page.
  rewrite (bind_deref _ _ _ _ (page_deref _ ga gm gt s)).
  cbn [currentState]. now rewrite Hc.
Qed.

Lemma page_start_run ga gm gt s :
  Browser.start (page ga gm gt s)
  = if scrRunning s
    then (Exc (Fault "Traffic light controller is already running"), page ga gm gt s)
    else match scrColor s with
         | None => (Val tt, page ga gm gt (set_scrRunning true (screen_enter Red s)))
         | Some _ => (Exc AlreadyStartedError, page ga gm gt s)
         end.
Proof.
  unfold Browser.start. unfold bind at 1. rewrite page_running.
  destruct (scrRunning s) eqn:Hr; [reflexivity|].
  unfold bind at 1. rewrite page_fsm.
  destruct (scrColor s) as [c|] eqn:Hc.
  - unfold bind.
    rewrite (start_refused Browser.callHook (length gm) "RED" (page ga gm gt s)
               _ _ (Browser.as_state (browser_light (length gm) (length gt) c))
               (page_deref _ ga gm gt s)
               (browser_lookup (length gm) (length gt) Red)); [reflexivity|].
    simpl. now rewrite Hc.
  - unfold bind. unfold page.
    rewrite (page_start _ ga gm gt (browser_lookup _ _) s Hc).
    reflexivity.
Qed.

Lemma page_reset_run ga gm gt s :
  Browser.reset (page ga gm gt s)
  = (Val tt, page (arrays (page ga gm gt s)) (machines (page ga gm gt s))
               (Browser.timer (user (page ga gm gt s))) screen_new).
Proof.
  unfold Browser.reset, Browser.stop.
  unfold bind at 1. rewrite page_set_running.
  unfold bind at 1.
  match goal with
  | |- context [Browser.set_page (Browser.set_cycleCount 0) ?h] =>
      change (Browser.set_page (Browser.set_cycleCount 0) h)
        with (Val tt, page ga gm gt (set_scrCycles 0 (set_scrRunning false s)))
  end.
  cbv iota beta.
  exact (fresh_run (page ga gm gt (set_scrCycles 0 (set_scrRunning false s)))).
Qed.

Lemma page_trigger_at ga gm gt e s :
  snd (trigger Browser.callHook Browser.callGuard (length gm) (event_name e)
         (page ga gm gt s))
  = page ga gm gt (match scrColor s with
                   | Some c => screen_enter (event_target e c) (acted (event_action e c) s)
                   | None => s
                   end).
Proof.
  destruct (scrColor s) as [c|] eqn:Hc.
  - unfold page. now rewrite (page_trigger _ ga gm gt (browser_lookup _ _) e c s Hc).
  - now rewrite (page_unstarted ga gm gt s _ Hc).
Qed.

Lemma page_update_run ga gm gt dt s :
  Browser.update dt (page ga gm gt s)
  = if scrRunning s
    then match scrColor s with
         | Some c => (Val tt, page ga gm gt (screen_tick c dt s))
         | None => (Exc NotStartedError, page ga gm gt s)
         end
    else (Val tt, page ga gm gt s).
Proof.
  unfold Browser.update. unfold bind at 1. rewrite page_running.
  destruct (scrRunning s); [|reflexivity]. cbn [negb].
  unfold bind at 1. rewrite page_fsm.
  destruct (scrColor s) as [c|] eqn:Hc.
  - unfold page. exact (page_update _ ga gm gt (browser_lookup _ _) c dt s Hc).
  - unfold update, page. rewrite (bind_deref _ _ _ _ (page_deref _ ga gm gt s)).
    cbn [currentState]. now rewrite Hc.
Qed.

Lemma page_force_run ga gm gt e s :
  e <> TIMER_EXPIRED ->
  snd (discard (Browser.force (event_name e)) (page ga gm gt s))
  = page ga gm gt (match scrColor s with
                   | Some c => if scrRunning s then screen_enter (event_target e c) s else s
                   | None => s
                   end).
Proof.
  intros He. unfold discard, Browser.force. unfold bind at 1. unfold bind at 1.
  rewrite page_running.
  destruct (scrRunning s); [|now destruct (scrColor s)].
  unfold bind at 1. rewrite page_fsm.
  pose proof (page_trigger_at ga gm gt e s) as Ht.
  destruct (trigger _ _ _ _ _) as [[v|x] h']; simpl in *; rewrite Ht;
    destruct (scrColor s); try reflexivity; now destruct e.
Qed.

(** Every call takes a page showing [s] to a page showing
    [screen_step c s]; [reset] leaves the old objects behind. *)
Lemma page_call_at c ga gm gt s :
  exists ga' gm' gt',
    snd (page_call c (page ga gm gt s)) = page ga' gm' gt' (screen_step c s).
Proof.
  destruct c as [ | | |dt| | | | ]; cbn [page_call screen_step].
  - exists ga, gm, gt. rewrite page_start_run.
    destruct (scrRunning s); [reflexivity|]. now destruct (scrColor s).
  - exists ga, gm, gt. reflexivity.
  - rewrite page_reset_run. eexists _, _, _. reflexivity.
  - exists ga, gm, gt. rewrite page_update_run.
    destruct (scrRunning s), (scrColor s); reflexivity.
  - exists ga, gm, gt. unfold discard, Browser.emergencyOverride.
    unfold bind at 1. unfold bind at 1. rewrite page_running.
    destruct (scrRunning s); cbn [negb]; [|now destruct (scrColor s)].
    unfold bind at 1. rewrite page_fsm.
    pose proof (page_trigger_at ga gm gt EMERGENCY_OVERRIDE s) as Ht.
    simpl event_name in Ht.
    destruct (trigger _ _ _ _ _) as [[v|x] h']; simpl in *; rewrite Ht;
      now destruct (scrColor s).
  - exists ga, gm, gt. unfold Browser.forceGreen.
    change "FORCE_GREEN" with (event_name FORCE_GREEN).
    rewrite (page_force_run ga gm gt FORCE_GREEN s) by discriminate.
    now destruct (scrColor s).
  - exists ga, gm, gt. unfold Browser.forceYellow.
    change "FORCE_YELLOW" with (event_name FORCE_YELLOW).
    rewrite (page_force_run ga gm gt FORCE_YELLOW s) by discriminate.
    now destruct (scrColor s).
  - exists ga, gm, gt. unfold Browser.forceRed.
    change "FORCE_RED" with (event_name FORCE_RED).
    rewrite (page_force_run ga gm gt FORCE_RED s) by discriminate.
    now destruct (scrColor s).
Qed.

Lemma page_calls_at l ga gm gt s :
  exists ga' gm' gt',
    page_calls l (page ga gm gt s)
    = page ga' gm' gt' (fold_left (fun s c => screen_step c s) l s).
Proof.
  revert ga gm gt s. induction l as [|c l IH]; intros ga gm gt s; simpl.
  - now exists ga, gm, gt.
  - destruct (page_call_at c ga gm gt s) as (ga' & gm' & gt' & ->). apply IH.
Qed.

Lemma page_made_is : page_made = page [] [] [] screen_new.
Proof.
  unfold page_made, Browser.constructor.
  change (Browser.constructor Browser.blank)
    with (Browser.constructor Browser.blank).
  vm_compute. reflexivity.
Qed.

Lemma page_remaining ga gm gt c s :
  Browser.getTimeRemaining (browser_light (length gm) (length gt) c) (page ga gm gt s)
  = (Val (num_max (num_of_Z 0) (duration_of c - screen_timer c s)%num),
     page ga gm gt s).
Proof.
  unfold Browser.getTimeRemaining, bind, Browser.read_timer, page.
  now rewrite page_timer.
Qed.

Lemma page_timer_run ga gm gt s :
  Browser.getCurrentStateTimer (page ga gm gt s)
  = (Val (match scrColor s with
          | Some c => num_max (num_of_Z 0) (duration_of c - screen_timer c s)%num
          | None => num_of_Z 0
          end), page ga gm gt s).
Proof.
  unfold Browser.getCurrentStateTimer, try_catch. unfold bind at 1.
  rewrite page_fsm. unfold bind at 1. unfold getCurrentState, page.
  rewrite (bind_deref _ _ _ _ (page_deref _ ga gm gt s)). cbn [currentState].
  fold (page ga gm gt s).
  destruct (scrColor s) as [c|] eqn:Hc; [|reflexivity].
  pose proof (page_remaining ga gm gt c s) as Hr.
  destruct c; cbn [option_map]; unfold ret, bind, Browser.field;
    cbn [name Browser.as_state browser_light Browser.lightName color_name];
    repeat match goal with
           | |- context [String.eqb ?x ?y] =>
               let v := eval vm_compute in (String.eqb x y) in
               change (String.eqb x y) with v
           end;
    cbv iota beta;
    unfold page in *;
    cbn [user page_in Browser.redState Browser.greenState Browser.yellowState];
    rewrite Hr; reflexivity.
Qed.


(** X20. One tick of the running page showing [c].  The timer of [c] becomes
    its sum with [deltaTime], the sum of the numbers; if the comparison
    of the numbers then finds it at or above the duration of [c], the
    light moves to the next colour, whose timer restarts at 0, and the
    history gets the new name; the step from YELLOW to RED, and no other,
    adds one to [cycleCount].  At [double] the sum and the comparison are
    those of the code, for every timer and every tick, the fractional
    differences of [performance.now()] included. *)
Theorem page_update_tick ga gm gt c dt s :
  scrColor s = Some c -> scrRunning s = true ->
  Browser.update dt (page ga gm gt s) = (Val tt, page ga gm gt (screen_tick c dt s)) /\
  scrCycles (screen_tick c dt s)
  = (scrCycles s + if is_yellow c && (duration_of c <=? screen_timer c s + dt)%num
                   then 1 else 0)%Z.
Proof.
  intros Hc Hr. split.
  - now rewrite page_update_run, Hr, Hc.
  - unfold screen_tick.
    destruct (duration_of c <=? screen_timer c s + dt)%num; destruct c, s; simpl; lia.
Qed.

(** X21. [getCycleCount] changes at a reset, which sets it to 0, and at a tick
    of the running page that takes YELLOW to RED, which adds one; nothing
    else changes it: a RED that an override forces on a YELLOW light does
    not count as a cycle. *)
Theorem cycle_count_changes c ga gm gt s :
  exists ga' gm' gt' s',
    snd (page_call c (page ga gm gt s)) = page ga' gm' gt' s' /\
    Browser.getCycleCount (page ga' gm' gt' s') = (Val (scrCycles s'), page ga' gm' gt' s') /\
    scrCycles s'
    = match c with
      | PageReset => 0%Z
      | PageUpdate dt =>
          (scrCycles s +
           if scrRunning s
              && match scrColor s with Some k => is_yellow k | None => false end
              && (num_of_Z 5000 <=? scrYellow s + dt)%num
           then 1 else 0)%Z
      | _ => scrCycles s
      end.
Proof.
  destruct (page_call_at c ga gm gt s) as (ga' & gm' & gt' & E).
  exists ga', gm', gt', (screen_step c s).
  split; [exact E|]. split; [reflexivity|].
  destruct s as [[k|] tr tg ty hist run cyc], c as [ | | |dt| | | | ], run;
    simpl; try reflexivity; try lia;
    destruct k; unfold screen_tick; simpl;
    match goal with
    | |- context [(?d <=? ?t)%num] => destruct (d <=? t)%num
    end; simpl; lia.
Qed.

Lemma iter_cycle q r :
  r < 3 -> Nat.iter (3 * q + r) next_in_cycle Red = color_after r.
Proof.
  intros Hr. induction q as [|q IH].
  - destruct r as [|[|[|r]]]; try reflexivity. lia.
  - replace (3 * S q + r) with (S (S (S (3 * q + r)))) by lia.
    rewrite !Nat.iter_succ, IH. now destruct r as [|[|[|r]]].
Qed.

Lemma cycle_step q r :
  r < 3 ->
  cycle_from Red (S (3 * q + r)) ++ [color_name (next_in_cycle (color_after r))]
  = cycle_from Red (S (S (3 * q + r))).
Proof.
  intros Hr. rewrite <- (cycle_snoc Red (S (3 * q + r))).
  now rewrite Nat.iter_succ, iter_cycle.
Qed.

Lemma tick_on_cycle dt q r s :
  on_cycle q r s ->
  exists q' r', on_cycle q' r' (screen_tick (color_after r) dt s) /\
                3 * q + r <= 3 * q' + r' <= S (3 * q + r).
Proof.
  intros (Hr & Hrun & Hh & Hc & Hq). unfold screen_tick.
  pose proof (cycle_step q r Hr) as Hstep.
  destruct s as [c0 tr tg ty hist run cyc].
  cbn [scrRunning scrHistory scrColor scrCycles] in Hrun, Hh, Hc, Hq.
  destruct (_ <=? _)%num.
  - destruct r as [|[|[|r]]]; [ | | |lia];
      cbn [color_after next_in_cycle color_name] in Hstep |- *.
    + exists q, 1. split; [|lia]. unfold on_cycle.
      cbn [scrRunning scrHistory scrColor scrCycles screen_enter set_screen_timer
           set_scrCycles scrRed scrGreen scrYellow color_after color_name].
      repeat split; auto. rewrite Hh, Hstep. f_equal. lia.
    + exists q, 2. split; [|lia]. unfold on_cycle.
      cbn [scrRunning scrHistory scrColor scrCycles screen_enter set_screen_timer
           set_scrCycles scrRed scrGreen scrYellow color_after color_name].
      repeat split; auto. rewrite Hh, Hstep. f_equal. lia.
    + exists (S q), 0. split; [|lia]. unfold on_cycle.
      cbn [scrRunning scrHistory scrColor scrCycles screen_enter set_screen_timer
           set_scrCycles scrRed scrGreen scrYellow color_after color_name].
      repeat split; auto; [|lia]. rewrite Hh, Hstep. f_equal. lia.
  - exists q, r. split; [|lia]. unfold on_cycle.
    destruct r as [|[|[|r]]]; [ | | |lia];
      cbn [scrRunning scrHistory scrColor scrCycles set_screen_timer color_after];
      repeat split; auto.
Qed.

(** X22. Left to its timers, the page counts its cycles.  On a new controller
    that is started and then only ticked, with ticks of any lengths, the
    history is an initial part of RED, GREEN, YELLOW, RED, ... with at
    most one entry more for every tick, and [cycleCount] is the number of
    times the light has come back to RED: a third of the steps made,
    rounded down. *)
Theorem page_counts_cycles dts :
  exists s n,
    page_calls (PageStart :: map PageUpdate dts) page_made = page [] [] [] s /\
    scrHistory s = cycle_from Red (S n) /\
    scrCycles s = Z.of_nat (n / 3) /\
    n <= length dts.
Proof.
  rewrite page_made_is.
  assert (Hall : forall l s q r,
    on_cycle q r s ->
    exists s' q' r',
      page_calls (map PageUpdate l) (page [] [] [] s) = page [] [] [] s' /\
      on_cycle q' r' s' /\ 3 * q' + r' <= 3 * q + r + length l).
  { induction l as [|dt l IH]; intros s q r Hs; simpl.
    - exists s, q, r. repeat split; auto; try apply Hs. lia.
    - pose proof Hs as (Hr & Hrun & Hh & Hc & Hq).
      rewrite page_update_run, Hrun, Hc. simpl snd.
      destruct (tick_on_cycle dt q r s Hs) as (q1 & r1 & Hs1 & Hn1).
      destruct (IH _ q1 r1 Hs1) as (s' & q' & r' & E & Hs' & Hn').
      exists s', q', r'. repeat split; auto; try apply Hs'. lia. }
  destruct (Hall dts (mkScreen (Some Red) (num_of_Z 0) (num_of_Z 0)
                                          (num_of_Z 0) ["RED"] true 0) 0 0)
    as (s' & q' & r' & E & (Hr' & _ & Hh' & _ & Hq') & Hn').
  { repeat split. lia. }
  exists s', (3 * q' + r'). split; [|split; [exact Hh'|split]].
  - change (page_calls (PageStart :: map PageUpdate dts) (page [] [] [] screen_new))
      with (page_calls (map PageUpdate dts)
              (snd (Browser.start (page [] [] [] screen_new)))).
    rewrite page_start_run. exact E.
  - assert (Hd : (3 * q' + r') / 3 = q')
      by (symmetry; apply Nat.div_unique with r'; lia).
    now rewrite Hd.
  - lia.
Qed.

End PageTheory.

Section WholeTicks.
#[local] Existing Instance integer.

Lemma step_in_time c s :
  forward c = true -> in_time s -> in_time (screen_step c s).
Proof.
  intros Hf Hs. destruct s as [[k|] tr tg ty hist run cyc].
  - specialize (Hs k eq_refl).
    destruct c as [ | | |dt| | | | ], run; simpl;
      try (intros c [= <-]; exact Hs);
      try (intros c [= <-]; simpl in *; lia);
      try discriminate.
    simpl in Hf. apply Z.leb_le in Hf. unfold screen_tick.
    destruct (_ <=? _)%num eqn:Hd.
    + intros c [= <-]. destruct k; simpl; lia.
    + apply Z.leb_gt in Hd. intros c.
      destruct k; simpl in *; intros [= <-]; simpl; lia.
  - destruct c as [ | | |dt| | | | ], run; simpl; try discriminate.
    intros c [= <-]. simpl. lia.
Qed.

(** X23. What the page displays as time remaining.  On a new controller, after
    any calls whose ticks are of no negative length, [getCurrentStateTimer]
    returns 0 if the machine has not been started, and otherwise a time
    above 0 and at most the duration of the colour shown: at the end of a
    call the light never shows a colour whose time is up.  The timers and
    the ticks are whole numbers of milliseconds here ([integer]), whose
    sums are exact. *)
Theorem time_remaining_in_range l :
  forallb forward l = true ->
  exists ga gm gt s r,
    page_calls l page_made = page ga gm gt s /\
    Browser.getCurrentStateTimer (page ga gm gt s) = (Val r, page ga gm gt s) /\
    match scrColor s with
    | None => r = 0%Z
    | Some c => (0 < r <= duration_of c)%Z
    end.
Proof.
  intros Hl. rewrite page_made_is.
  destruct (page_calls_at l [] [] [] screen_new) as (ga & gm & gt & E).
  assert (Hin : in_time (fold_left (fun s c => screen_step c s) l screen_new)).
  { assert (Hall : forall k s, forallb forward k = true -> in_time s ->
              in_time (fold_left (fun s c => screen_step c s) k s)).
    { induction k as [|c k IH]; simpl; intros s Hk Hs; [exact Hs|].
      apply andb_prop in Hk as [Hc Hk]. apply IH; [exact Hk|].
      now apply step_in_time. }
    apply Hall; [exact Hl|]. intros c Hc. discriminate. }
  eexists ga, gm, gt, _, _. split; [exact E|]. split; [apply page_timer_run|].
  destruct (scrColor _) as [c|] eqn:Hc; [|reflexivity].
  specialize (Hin c Hc). cbn [integer num_max num_sub num_of_Z]. lia.
Qed.

End WholeTicks.

Section PageAtWork.
#[local] Existing Instance double.

Local Abbreviation ms z := (double_of_Z z).

Lemma page_update_tick_witness :
  Browser.update (ms 700)
    (page [] [] [] (mkScreen (Some Yellow) (ms 0) (ms 0) (ms 4500)
                             ["RED"; "GREEN"; "YELLOW"] true 0))
  = (Val tt,
     page [] [] []
       (mkScreen (Some Red) (ms 0) (ms 0) (ms 5200)
                 ["RED"; "GREEN"; "YELLOW"; "RED"] true 1)) /\
  scrCycles
    (screen_tick Yellow (ms 700)
       (mkScreen (Some Yellow) (ms 0) (ms 0) (ms 4500)
                 ["RED"; "GREEN"; "YELLOW"] true 0))
  = (0 + 1)%Z.
Proof.
  exact (page_update_tick [] [] [] Yellow (ms 700)
           (mkScreen (Some Yellow) (ms 0) (ms 0) (ms 4500)
                     ["RED"; "GREEN"; "YELLOW"] true 0)
           eq_refl eq_refl).
Defined.

(** A tick of a fraction of a millisecond: three hundred thousand ticks of
    a tenth do not add up to the duration of RED, and one more does. *)
Example page_fractional_ticks :
  let tenth := PrimFloat.div (ms 1) (ms 10) in
  let h n := N.iter n (fun h => snd (Browser.update tenth h))
                    (snd (Browser.start page_made)) in
  fst (Browser.getCurrentState (h 300000%N)) = Val "RED" /\
  fst (Browser.getCurrentState (h 300001%N)) = Val "GREEN".
Proof. vm_compute. split; reflexivity. Qed.

End PageAtWork.

Section WholeTicksAtWork.
#[local] Existing Instance integer.

Lemma time_remaining_in_range_witness :
  exists ga gm gt s r,
    page_calls [PageStart; PageUpdate 1000%Z; PageForceGreen; PageUpdate 26000%Z;
                PageReset; PageStart; PageUpdate 16%Z] page_made
    = page ga gm gt s /\
    Browser.getCurrentStateTimer (page ga gm gt s) = (Val r, page ga gm gt s) /\
    match scrColor s with
    | None => r = 0%Z
    | Some c => (0 < r <= duration_of c)%Z
    end.
Proof.
  exact (time_remaining_in_range
           [PageStart; PageUpdate 1000%Z; PageForceGreen; PageUpdate 26000%Z;
            PageReset; PageStart; PageUpdate 16%Z] eq_refl).
Defined.
End WholeTicksAtWork.
